(** * The Linux sandbox observer (bxl_observer.cpp): model and properties

    A shallow embedding of [BxlObserver], the object injected into every
    traced process: the duplicate cache, the report sender, the descriptor
    table, the forced-trace decision, the path resolver and the directory
    enumeration.

    - Member functions are computations in a state monad over the
      observer, which end by returning, by [_fatal], by [exit] or in
      undefined behaviour.
    - Calls that leave the process (the file system, the pipes, [prctl],
      objdump, the policy engine) are answered by a [World] record; so
      are the constants of bxl_observer.hpp, which is not among the
      sources at hand.  The calls made are logged, in order.
    - A C string is a [string] without its terminator.
    - The two loops that need not end, in [resolve_path] and in
      [EnumerateDirectory], take fuel and answer [None] when it runs out.
    - [LOG_DEBUG] is a macro of the missing header; the observer modelled
      is one whose debug logging is off, so it expands to nothing. *)

From stdpp Require Import gmap strings list.
From Stdlib Require Import ZArith Ascii String Lia.

Local Open Scope string_scope.
Local Open Scope list_scope.
Local Open Scope Z_scope.

(** ** Event kinds *)

(** [es_event_type_t]: the kinds bxl_observer.cpp names, and the other
    kinds of file events. *)
Inductive es_event_type_t : Set :=
  | ES_EVENT_TYPE_NOTIFY_EXEC
  | ES_EVENT_TYPE_NOTIFY_OPEN
  | ES_EVENT_TYPE_NOTIFY_FORK
  | ES_EVENT_TYPE_NOTIFY_CLOSE
  | ES_EVENT_TYPE_NOTIFY_CREATE
  | ES_EVENT_TYPE_NOTIFY_EXIT
  | ES_EVENT_TYPE_NOTIFY_LINK
  | ES_EVENT_TYPE_NOTIFY_RENAME
  | ES_EVENT_TYPE_NOTIFY_UNLINK
  | ES_EVENT_TYPE_NOTIFY_READLINK
  | ES_EVENT_TYPE_NOTIFY_TRUNCATE
  | ES_EVENT_TYPE_NOTIFY_SETATTRLIST
  | ES_EVENT_TYPE_NOTIFY_SETEXTATTR
  | ES_EVENT_TYPE_NOTIFY_DELETEEXTATTR
  | ES_EVENT_TYPE_NOTIFY_SETFLAGS
  | ES_EVENT_TYPE_NOTIFY_SETOWNER
  | ES_EVENT_TYPE_NOTIFY_SETMODE
  | ES_EVENT_TYPE_NOTIFY_WRITE
  | ES_EVENT_TYPE_NOTIFY_UTIMES
  | ES_EVENT_TYPE_NOTIFY_SETTIME
  | ES_EVENT_TYPE_NOTIFY_SETACL
  | ES_EVENT_TYPE_NOTIFY_GETATTRLIST
  | ES_EVENT_TYPE_NOTIFY_GETEXTATTR
  | ES_EVENT_TYPE_NOTIFY_LISTEXTATTR
  | ES_EVENT_TYPE_NOTIFY_ACCESS
  | ES_EVENT_TYPE_NOTIFY_STAT.

Definition es_event_all : list es_event_type_t :=
  [ ES_EVENT_TYPE_NOTIFY_EXEC; ES_EVENT_TYPE_NOTIFY_OPEN;
    ES_EVENT_TYPE_NOTIFY_FORK; ES_EVENT_TYPE_NOTIFY_CLOSE;
    ES_EVENT_TYPE_NOTIFY_CREATE; ES_EVENT_TYPE_NOTIFY_EXIT;
    ES_EVENT_TYPE_NOTIFY_LINK; ES_EVENT_TYPE_NOTIFY_RENAME;
    ES_EVENT_TYPE_NOTIFY_UNLINK; ES_EVENT_TYPE_NOTIFY_READLINK;
    ES_EVENT_TYPE_NOTIFY_TRUNCATE; ES_EVENT_TYPE_NOTIFY_SETATTRLIST;
    ES_EVENT_TYPE_NOTIFY_SETEXTATTR; ES_EVENT_TYPE_NOTIFY_DELETEEXTATTR;
    ES_EVENT_TYPE_NOTIFY_SETFLAGS; ES_EVENT_TYPE_NOTIFY_SETOWNER;
    ES_EVENT_TYPE_NOTIFY_SETMODE; ES_EVENT_TYPE_NOTIFY_WRITE;
    ES_EVENT_TYPE_NOTIFY_UTIMES; ES_EVENT_TYPE_NOTIFY_SETTIME;
    ES_EVENT_TYPE_NOTIFY_SETACL; ES_EVENT_TYPE_NOTIFY_GETATTRLIST;
    ES_EVENT_TYPE_NOTIFY_GETEXTATTR; ES_EVENT_TYPE_NOTIFY_LISTEXTATTR;
    ES_EVENT_TYPE_NOTIFY_ACCESS; ES_EVENT_TYPE_NOTIFY_STAT ].

#[global] Instance es_event_eq_dec : EqDecision es_event_type_t.
Proof. solve_decision. Defined.

Definition es_event_code (e : es_event_type_t) : nat :=
  match e with
  | ES_EVENT_TYPE_NOTIFY_EXEC => 0 | ES_EVENT_TYPE_NOTIFY_OPEN => 1
  | ES_EVENT_TYPE_NOTIFY_FORK => 2 | ES_EVENT_TYPE_NOTIFY_CLOSE => 3
  | ES_EVENT_TYPE_NOTIFY_CREATE => 4 | ES_EVENT_TYPE_NOTIFY_EXIT => 5
  | ES_EVENT_TYPE_NOTIFY_LINK => 6 | ES_EVENT_TYPE_NOTIFY_RENAME => 7
  | ES_EVENT_TYPE_NOTIFY_UNLINK => 8 | ES_EVENT_TYPE_NOTIFY_READLINK => 9
  | ES_EVENT_TYPE_NOTIFY_TRUNCATE => 10 | ES_EVENT_TYPE_NOTIFY_SETATTRLIST => 11
  | ES_EVENT_TYPE_NOTIFY_SETEXTATTR => 12 | ES_EVENT_TYPE_NOTIFY_DELETEEXTATTR => 13
  | ES_EVENT_TYPE_NOTIFY_SETFLAGS => 14 | ES_EVENT_TYPE_NOTIFY_SETOWNER => 15
  | ES_EVENT_TYPE_NOTIFY_SETMODE => 16 | ES_EVENT_TYPE_NOTIFY_WRITE => 17
  | ES_EVENT_TYPE_NOTIFY_UTIMES => 18 | ES_EVENT_TYPE_NOTIFY_SETTIME => 19
  | ES_EVENT_TYPE_NOTIFY_SETACL => 20 | ES_EVENT_TYPE_NOTIFY_GETATTRLIST => 21
  | ES_EVENT_TYPE_NOTIFY_GETEXTATTR => 22 | ES_EVENT_TYPE_NOTIFY_LISTEXTATTR => 23
  | ES_EVENT_TYPE_NOTIFY_ACCESS => 24 | ES_EVENT_TYPE_NOTIFY_STAT => 25
  end%nat.

#[global] Instance es_event_countable : Countable es_event_type_t.
Proof.
  refine (inj_countable es_event_code (fun n => es_event_all !! n) _).
  intros []; reflexivity.
Defined.

(** ** Constants and plain data *)

(** <limits.h> and <sys/param.h> on Linux. *)
Definition PIPE_BUF : Z := 4096.
Definition PATH_MAX : Z := 4096.
Definition MAXPATHLEN : Z := PATH_MAX.

(** <sys/stat.h>: the file-type bits of [mode_t]. *)
Definition S_IFMT : Z := 61440.   (* 0170000 *)
Definition S_IFDIR : Z := 16384.  (* 0040000 *)
Definition S_IFREG : Z := 32768.  (* 0100000 *)
Definition S_IFLNK : Z := 40960.  (* 0120000 *)
Definition S_ISDIR (mode : Z) : bool := Z.land mode S_IFMT =? S_IFDIR.
Definition S_ISREG (mode : Z) : bool := Z.land mode S_IFMT =? S_IFREG.
Definition S_ISLNK (mode : Z) : bool := Z.land mode S_IFMT =? S_IFLNK.

(** The operations bxl_observer.cpp names; [kOpOther] stands for the rest
    of the enumeration. *)
Inductive FileOperation : Set :=
  | kOpProcessTreeCompleted
  | kOpDebugMessage
  | kOpStaticallyLinkedProcess
  | kOpProcessCommandLine
  | kOpFirstAllowWriteCheckInProcess
  | kOpOther (code : Z).

#[global] Instance FileOperation_eq_dec : EqDecision FileOperation.
Proof. solve_decision. Defined.

Inductive RequestedAccess : Set :=
  | RequestedAccess_Read | RequestedAccess_Write | RequestedAccess_Other (bits : Z).

Inductive FileAccessStatus : Set :=
  | FileAccessStatus_Allowed | FileAccessStatus_Denied | FileAccessStatus_Other (code : Z).

Inductive ReportLevel : Set :=
  | ReportLevel_Ignore | ReportLevel_Report | ReportLevel_Other (code : Z).

(** [AccessReport], with the fields the designated initialisers of
    bxl_observer.cpp list. *)
Record AccessReport : Set := {
  operation : FileOperation;
  pid : Z;
  rootPid : Z;
  requestedAccess : RequestedAccess;
  status : FileAccessStatus;
  reportExplicitly : ReportLevel;
  error : Z;
  pipId : Z;
  path : string;
  stats : list Z;
  isDirectory : Z;
  shouldReport : bool
}.

Record AccessReportGroup : Set := {
  firstReport : AccessReport;
  secondReport : AccessReport
}.

(** What the observer reads of an [AccessCheckResult]. *)
Record AccessCheckResult : Set := {
  ShouldDenyAccess : bool;
  ShouldReport : bool
}.

(** [IOEvent], as its constructor call in [create_access_internal] fills it. *)
Record IOEvent : Set := {
  ev_pid : Z;
  ev_cpid : Z;
  ev_ppid : Z;
  ev_eventType : es_event_type_t;
  ev_srcPath : string;
  ev_dstPath : string;
  ev_execPath : string;
  ev_mode : Z;
  ev_modified : bool
}.

(** ** What the translation unit gets from outside

    Header constants that are not part of the sources at hand, and the
    answers of the operating system and of the policy engine. *)
Record World : Type := {
  (* bxl_observer.hpp *)
  MAX_FD : Z;
  sNotChecked : AccessCheckResult;             (* AccessCheckResult::Invalid() *)
  operation_code : FileOperation -> Z;
  access_code : RequestedAccess -> Z;
  status_code : FileAccessStatus -> Z;
  level_code : ReportLevel -> Z;
  stats_members : nat;                         (* members of the stats structure *)
  (* the process *)
  getpid : Z;
  getppid : Z;
  (* cacheMtx_.try_lock_for(1ms), by the number of earlier attempts *)
  try_lock_for : nat -> bool;
  (* the file system *)
  real_readlink : string -> option string;     (* None: readlink returned -1 *)
  get_mode : string -> Z;                      (* 0: the stat failed *)
  lstat_mtime : string -> Z;                   (* st_mtim.tv_sec *)
  objdump_output : string -> string;           (* /usr/bin/objdump -p path *)
  (* the report pipes *)
  real_open_resolved : bool;                   (* real_open != nullptr *)
  real_open : string -> Z;                     (* the descriptor, or -1 *)
  real_write : Z -> string -> Z -> Z;          (* bytes written, or -1 *)
  (* prctl(PR_SET_PTRACER, PR_SET_PTRACER_ANY) *)
  prctl_set_ptracer : Z;
  (* the sandbox and its policy engine *)
  IsEnabled : Z -> bool;
  IsFailingUnexpectedAccesses : bool;
  CheckAccessAndBuildReport : IOEvent -> AccessReportGroup -> AccessCheckResult * AccessReportGroup
}.

(** What leaves the process, in order. *)
Inductive Effect : Type :=
  | eff_prctl_set_ptracer (result : Z)
  | eff_write (reportsPath : string) (fd : Z) (bytes : string) (count : Z)
  | eff_objdump (path : string)
  | eff_readlink (path : string)
  | eff_policy (event : IOEvent).

(** The part of [pip_] the observer reads: identity and manifest flags. *)
Record SandboxedPip : Set := {
  GetProcessId : Z;
  GetPipId : Z;
  EnableLinuxPTraceSandbox : bool;
  UnconditionallyEnableLinuxPTraceSandbox : bool
}.

(** The observer object, followed by two ghost fields: the number of
    lock attempts made and the effects so far. *)
Record BxlObserver : Type := {
  pip_ : SandboxedPip;
  progFullPath_ : string;
  reportsPath_ : string;
  secondaryReportPath_ : string;
  forcedPTraceProcessNames_ : list string;
  disposed_ : bool;
  useFdTable_ : bool;
  cache_ : gmap es_event_type_t (gset string);
  fdTable_ : list string;
  staticallyLinkedProcessCache_ : list (string * bool);
  lock_attempts : nat;
  effects : list Effect
}.

Definition set_cache_ (c : gmap es_event_type_t (gset string)) (o : BxlObserver) : BxlObserver :=
  {| pip_ := pip_ o; progFullPath_ := progFullPath_ o;
     reportsPath_ := reportsPath_ o; secondaryReportPath_ := secondaryReportPath_ o;
     forcedPTraceProcessNames_ := forcedPTraceProcessNames_ o;
     disposed_ := disposed_ o; useFdTable_ := useFdTable_ o;
     cache_ := c; fdTable_ := fdTable_ o;
     staticallyLinkedProcessCache_ := staticallyLinkedProcessCache_ o;
     lock_attempts := lock_attempts o; effects := effects o |}.

Definition set_fdTable_ (t : list string) (o : BxlObserver) : BxlObserver :=
  {| pip_ := pip_ o; progFullPath_ := progFullPath_ o;
     reportsPath_ := reportsPath_ o; secondaryReportPath_ := secondaryReportPath_ o;
     forcedPTraceProcessNames_ := forcedPTraceProcessNames_ o;
     disposed_ := disposed_ o; useFdTable_ := useFdTable_ o;
     cache_ := cache_ o; fdTable_ := t;
     staticallyLinkedProcessCache_ := staticallyLinkedProcessCache_ o;
     lock_attempts := lock_attempts o; effects := effects o |}.

Definition set_staticallyLinkedProcessCache_ (l : list (string * bool)) (o : BxlObserver) : BxlObserver :=
  {| pip_ := pip_ o; progFullPath_ := progFullPath_ o;
     reportsPath_ := reportsPath_ o; secondaryReportPath_ := secondaryReportPath_ o;
     forcedPTraceProcessNames_ := forcedPTraceProcessNames_ o;
     disposed_ := disposed_ o; useFdTable_ := useFdTable_ o;
     cache_ := cache_ o; fdTable_ := fdTable_ o;
     staticallyLinkedProcessCache_ := l;
     lock_attempts := lock_attempts o; effects := effects o |}.

Definition set_lock_attempts (n : nat) (o : BxlObserver) : BxlObserver :=
  {| pip_ := pip_ o; progFullPath_ := progFullPath_ o;
     reportsPath_ := reportsPath_ o; secondaryReportPath_ := secondaryReportPath_ o;
     forcedPTraceProcessNames_ := forcedPTraceProcessNames_ o;
     disposed_ := disposed_ o; useFdTable_ := useFdTable_ o;
     cache_ := cache_ o; fdTable_ := fdTable_ o;
     staticallyLinkedProcessCache_ := staticallyLinkedProcessCache_ o;
     lock_attempts := n; effects := effects o |}.

Definition set_effects (l : list Effect) (o : BxlObserver) : BxlObserver :=
  {| pip_ := pip_ o; progFullPath_ := progFullPath_ o;
     reportsPath_ := reportsPath_ o; secondaryReportPath_ := secondaryReportPath_ o;
     forcedPTraceProcessNames_ := forcedPTraceProcessNames_ o;
     disposed_ := disposed_ o; useFdTable_ := useFdTable_ o;
     cache_ := cache_ o; fdTable_ := fdTable_ o;
     staticallyLinkedProcessCache_ := staticallyLinkedProcessCache_ o;
     lock_attempts := lock_attempts o; effects := l |}.

(** ** The monad of member functions

    A member function runs on the observer and returns, or the process
    ends inside it: [_fatal], [exit], or behaviour the language leaves
    undefined. *)
Inductive Outcome (A : Type) : Type :=
  | Returns (a : A)
  | Fatal (message : string)
  | Exits (code : Z)
  | Undefined.
Arguments Returns {A} a.
Arguments Fatal {A} message.
Arguments Exits {A} code.
Arguments Undefined {A}.

Definition M (A : Type) : Type := BxlObserver -> Outcome A * BxlObserver.

Definition ret {A} (a : A) : M A := fun o => (Returns a, o).

Definition bind {A B} (m : M A) (f : A -> M B) : M B :=
  fun o =>
    match m o with
    | (Returns a, o') => f a o'
    | (Fatal msg, o') => (Fatal msg, o')
    | (Exits c, o') => (Exits c, o')
    | (Undefined, o') => (Undefined, o')
    end.

Definition _fatal {A} (message : string) : M A := fun o => (Fatal message, o).
Definition exit {A} (code : Z) : M A := fun o => (Exits code, o).
Definition undefined {A} : M A := fun o => (Undefined, o).
Definition get : M BxlObserver := fun o => (Returns o, o).
Definition modify (f : BxlObserver -> BxlObserver) : M unit := fun o => (Returns tt, f o).
Definition emit (e : Effect) : M unit := modify (fun o => set_effects (effects o ++ [e]) o).

#[global] Instance M_ret : MRet M := @ret.
#[global] Instance M_bind : MBind M := fun A B f m => bind m f.

(** In a run of effects, every write on a report pipe comes after a
    [prctl] call that granted the permission. *)
Definition permission_precedes_report (new : list Effect) : Prop :=
  forall i reportsPath fd bytes n,
    new !! i = Some (eff_write reportsPath fd bytes n) ->
    exists j result,
      (j < i)%nat /\ new !! j = Some (eff_prctl_set_ptracer result)
      /\ result <> -1.

(** ** Strings as C has them *)

Definition strlen (s : string) : Z := Z.of_nat (String.length s).

(** [strncpy] of the first [n] characters into a zeroed array of [n + 1]. *)
Definition strncpy (src : string) (n : Z) : string :=
  String.substring 0 (Z.to_nat n) src.

(** [strlcpy] into an array of [size]: at most [size - 1] characters. *)
Definition strlcpy (src : string) (size : Z) : string :=
  String.substring 0 (Z.to_nat (size - 1)) src.

(** [std::string::find(needle) != npos]. *)
Definition contains (needle hay : string) : bool :=
  match String.index 0 needle hay with Some _ => true | None => false end.

Definition digit (d : Z) : ascii := ascii_of_nat (48 + Z.to_nat d).

Fixpoint dec_digits (fuel : nat) (n : Z) : string :=
  match fuel with
  | O => ""
  | S fuel' =>
      if n <? 10 then String (digit n) ""
      else dec_digits fuel' (n / 10) +:+ String (digit (n mod 10)) ""
  end.

(** ["%d"], and [std::to_string], of a number of at most 64 bits. *)
Definition dec (n : Z) : string :=
  if n <? 0 then "-" +:+ dec_digits 20 (- n) else dec_digits 20 n.

(** Four bytes, least significant first: [*(uint* )(buffer) = reportSize]. *)
Definition le32 (n : Z) : string :=
  let byte k := ascii_of_nat (Z.to_nat (Z.land (Z.shiftr n (8 * k)) 255)) in
  String (byte 0) (String (byte 1) (String (byte 2) (String (byte 3) ""))).

Fixpoint join_fields (fields : list string) : string :=
  match fields with
  | [] => ""
  | f :: rest => f +:+ "|" +:+ join_fields rest
  end.

(** ** The duplicate cache *)

(** The [switch] at the head of [CheckCache].  The first group assigns the
    write key and breaks.  The second group assigns the stat key and, having
    no [break], runs on into [default], which assigns [event]. *)
Definition coalesce (event : es_event_type_t) : es_event_type_t :=
  match event with
  | ES_EVENT_TYPE_NOTIFY_TRUNCATE
  | ES_EVENT_TYPE_NOTIFY_SETATTRLIST
  | ES_EVENT_TYPE_NOTIFY_SETEXTATTR
  | ES_EVENT_TYPE_NOTIFY_DELETEEXTATTR
  | ES_EVENT_TYPE_NOTIFY_SETFLAGS
  | ES_EVENT_TYPE_NOTIFY_SETOWNER
  | ES_EVENT_TYPE_NOTIFY_SETMODE
  | ES_EVENT_TYPE_NOTIFY_WRITE
  | ES_EVENT_TYPE_NOTIFY_UTIMES
  | ES_EVENT_TYPE_NOTIFY_SETTIME
  | ES_EVENT_TYPE_NOTIFY_SETACL =>
      ES_EVENT_TYPE_NOTIFY_WRITE
  | ES_EVENT_TYPE_NOTIFY_GETATTRLIST
  | ES_EVENT_TYPE_NOTIFY_GETEXTATTR
  | ES_EVENT_TYPE_NOTIFY_LISTEXTATTR
  | ES_EVENT_TYPE_NOTIFY_ACCESS
  | ES_EVENT_TYPE_NOTIFY_STAT =>
      let key := ES_EVENT_TYPE_NOTIFY_STAT in
      let key := event in
      key
  | _ => event
  end.

(** The critical section of [CheckCache]: the answer, and the map
    afterwards. *)
Definition cache_probe (key : es_event_type_t) (path : string)
    (addEntryIfMissing : bool) (cache : gmap es_event_type_t (gset string))
    : bool * gmap es_event_type_t (gset string) :=
  match cache !! key with
  | None =>
      (false, if addEntryIfMissing then <[key := {[ path ]}]> cache else cache)
  | Some set =>
      if addEntryIfMissing
      then (bool_decide (path ∈ set), <[key := {[ path ]} ∪ set]> cache)
      else (bool_decide (path ∈ set), cache)
  end.

Definition CheckCache (w : World) (event : es_event_type_t) (path : string)
    (addEntryIfMissing : bool) : M bool :=
  let key := coalesce event in
  o ← get;
  modify (set_lock_attempts (S (lock_attempts o)));;
  if negb (try_lock_for w (lock_attempts o)) then mret false
  else
    let '(hit, cache) := cache_probe key path addEntryIfMissing (cache_ o) in
    modify (set_cache_ cache);;
    mret hit.

Definition IsCacheHit (w : World) (event : es_event_type_t)
    (path secondPath : string) : M bool :=
  o ← get;
  if disposed_ o
     || (0 <? strlen secondPath)
     || bool_decide (event = ES_EVENT_TYPE_NOTIFY_FORK)
     || bool_decide (event = ES_EVENT_TYPE_NOTIFY_EXEC)
     || bool_decide (event = ES_EVENT_TYPE_NOTIFY_EXIT)
  then mret false
  else CheckCache w event path false.

(** The buckets as the specification words them: every write variant is
    in the write bucket and every metadata-reading kind in the stat bucket. *)
Definition bucket_as_specified (event : es_event_type_t) : es_event_type_t :=
  match event with
  | ES_EVENT_TYPE_NOTIFY_TRUNCATE
  | ES_EVENT_TYPE_NOTIFY_SETATTRLIST
  | ES_EVENT_TYPE_NOTIFY_SETEXTATTR
  | ES_EVENT_TYPE_NOTIFY_DELETEEXTATTR
  | ES_EVENT_TYPE_NOTIFY_SETFLAGS
  | ES_EVENT_TYPE_NOTIFY_SETOWNER
  | ES_EVENT_TYPE_NOTIFY_SETMODE
  | ES_EVENT_TYPE_NOTIFY_WRITE
  | ES_EVENT_TYPE_NOTIFY_UTIMES
  | ES_EVENT_TYPE_NOTIFY_SETTIME
  | ES_EVENT_TYPE_NOTIFY_SETACL => ES_EVENT_TYPE_NOTIFY_WRITE
  | ES_EVENT_TYPE_NOTIFY_GETATTRLIST
  | ES_EVENT_TYPE_NOTIFY_GETEXTATTR
  | ES_EVENT_TYPE_NOTIFY_LISTEXTATTR
  | ES_EVENT_TYPE_NOTIFY_ACCESS
  | ES_EVENT_TYPE_NOTIFY_STAT => ES_EVENT_TYPE_NOTIFY_STAT
  | _ => event
  end.

(** Is [path] recorded under [key]? *)
Definition recorded (key : es_event_type_t) (path : string)
    (cache : gmap es_event_type_t (gset string)) : Prop :=
  exists set, cache !! key = Some set /\ path ∈ set.

(** ** The descriptor table *)

Definition reset_fd_table_entry (w : World) (fd : Z) : M unit :=
  if (0 <=? fd) && (fd <? MAX_FD w)
  then modify (fun o => set_fdTable_ (<[Z.to_nat fd := ""]> (fdTable_ o)) o)
  else mret tt.

(** [read_path_for_fd] prints the name of the descriptor's entry under
    /proc, and returns the answer of [readlink] (as [ssize_t]) with the
    buffer of the caller, which was zeroed before the call. *)
Definition procPath (fd : Z) (associatedPid : Z) : string :=
  if associatedPid =? 0
  then "/proc/self/fd/" +:+ dec fd
  else "/proc/" +:+ dec associatedPid +:+ "/fd/" +:+ dec fd.

Definition read_path_for_fd (w : World) (fd : Z) (associatedPid : Z)
    : M (Z * string) :=
  let procPath := procPath fd associatedPid in
  emit (eff_readlink procPath);;
  match real_readlink w procPath with
  | Some target => mret (strlen target, target)
  | None => mret (-1, "")
  end.

Definition fd_to_path (w : World) (fd : Z) (associatedPid : Z) : M string :=
  if (fd <? 0) || (fd >=? MAX_FD w)
  then
    '(_, path) ← read_path_for_fd w fd associatedPid;
    mret path
  else
    o ← get;
    let entry := default "" (fdTable_ o !! Z.to_nat fd) in
    if useFdTable_ o && (0 <? strlen entry)
    then mret entry
    else
      '(result, path) ← read_path_for_fd w fd associatedPid;
      (if negb (result =? -1) && useFdTable_ o
       then modify (fun o => set_fdTable_ (<[Z.to_nat fd := path]> (fdTable_ o)) o)
       else mret tt);;
      mret path.

(** ** Building and sending a report *)

Definition newline : string := String (ascii_of_nat 10) "".
Definition NUL : string := String (ascii_of_nat 0) "".

(** Modelled from the spec: [BuildReport] of bxl_observer.hpp, which is
    not among the sources at hand.  The record is the one of the wire
    format: operation code, pid, root pid, requested access, status,
    explicit-report flag, error code, pip id, the path, the stat fields
    and the directory flag, separated by '|' and ended by a newline. *)
Definition report_record (w : World) (report : AccessReport) (path : string)
    : string :=
  join_fields
    ([ dec (operation_code w (operation report)); dec (pid report);
       dec (rootPid report); dec (access_code w (requestedAccess report));
       dec (status_code w (status report));
       dec (level_code w (reportExplicitly report));
       dec (error report); dec (pipId report); path ]
     ++ map dec (stats report))
  +:+ dec (isDirectory report) +:+ newline.

(** Modelled from the spec: [BuildReport] prints the record as [snprintf]
    does, which is what [SendReport] relies on when it compares the
    returned size with the room it gave: at most [maxMessageLength - 1]
    characters are stored before the terminator, and the length of the
    whole record is returned. *)
Definition BuildReport (w : World) (maxMessageLength : Z)
    (report : AccessReport) (path : string) : string * Z :=
  let record := report_record w report path in
  (String.substring 0 (Z.to_nat (maxMessageLength - 1)) record, strlen record).

(** The room [SendReport] gives a record: a pipe write of [PIPE_BUF]
    bytes, less the length prefix. *)
Definition atomic_capacity : Z := PIPE_BUF - 4.

(** What a record takes besides its path. *)
Definition report_overhead (w : World) (report : AccessReport) : Z :=
  strlen (report_record w report "").

(** The cut of the path of an oversized debug message as the
    specification words it: by exactly the characters that make the
    record fit the capacity. *)
Definition cut_as_specified (w : World) (report : AccessReport) : Z :=
  Z.max 0 (strlen (report_record w report (path report)) - atomic_capacity).

(** [ssize_t] read as [size_t], as the comparison of [numWritten] with
    [bufsiz] in [Send] does. *)
Definition to_size_t (n : Z) : Z := n mod 2 ^ 64.

(** [Send] writes the first [bufsiz] bytes of [buf].  The closing of the
    descriptor is not logged. *)
Definition Send (w : World) (buf : string) (bufsiz : Z)
    (useSecondaryPipe : bool) : M bool :=
  if negb (real_open_resolved w) then _fatal "syscall 'open' not found"
  else if bufsiz >? PIPE_BUF
  then _fatal "Cannot atomically send a buffer whose size is greater than PIPE_BUF"
  else
    o ← get;
    let reportsPath :=
      if useSecondaryPipe then secondaryReportPath_ o else reportsPath_ o in
    let logFd := real_open w reportsPath in
    if logFd =? -1 then _fatal "Could not open file"
    else
      let bytes := String.substring 0 (Z.to_nat bufsiz) buf in
      let numWritten := real_write w logFd bytes bufsiz in
      emit (eff_write reportsPath logFd bytes numWritten);;
      if to_size_t numWritten <? bufsiz then _fatal "Wrote only part of the buffer"
      else
        reset_fd_table_entry w logFd;;
        mret true.

(** [SendReport(const AccessReport &, isDebugMessage, useSecondaryPipe)].
    [buffer] holds the length prefix and what the last [BuildReport]
    stored, terminator included; [Send] is never given more than that. *)
Definition SendReport (w : World) (report : AccessReport)
    (isDebugMessage useSecondaryPipe : bool) : M bool :=
  if bool_decide (operation report = kOpProcessTreeCompleted) then mret true
  else
    let PrefixLength := 4 in
    let maxMessageLength := PIPE_BUF - PrefixLength in
    let first := BuildReport w maxMessageLength report (path report) in
    built ←
      (if first.2 >=? maxMessageLength
       then
         if negb isDebugMessage then _fatal "Message truncated to fit PIPE_BUF"
         else
           let truncatedSize :=
             strlen (path report) - (first.2 - maxMessageLength) - 1 in
           if truncatedSize <=? 0 then undefined
           else
             let truncatedMessage := strncpy (path report) (truncatedSize - 1) in
             mret (BuildReport w maxMessageLength report truncatedMessage)
       else mret first);
    let reportSize := built.2 in
    let buffer := le32 reportSize +:+ built.1 +:+ NUL in
    Send w buffer (Z.min (reportSize + PrefixLength) PIPE_BUF) useSecondaryPipe.

(** [SendReport(const AccessReportGroup &)]. *)
Definition SendReportGroup (w : World) (report : AccessReportGroup) : M bool :=
  r1 ← (if shouldReport (firstReport report)
        then SendReport w (firstReport report) false false else mret true);
  r2 ← (if shouldReport (secondReport report)
        then SendReport w (secondReport report) false false else mret true);
  mret (r1 && r2).

(** ** Building an access *)

Definition is_non_file (mode : Z) : bool :=
  negb (mode =? 0) && negb (S_ISDIR mode) && negb (S_ISREG mode)
  && negb (S_ISLNK mode).

Definition is_anonymous_file (path : string) : bool :=
  String.prefix "/memfd:" path.

(** [create_access(syscallName, IOEvent&, AccessReportGroup&, checkCache)]:
    the group is passed by reference, so it is returned with the result. *)
Definition create_access (w : World) (syscallName : string) (event : IOEvent)
    (reportGroup : AccessReportGroup) (checkCache : bool)
    : M (AccessCheckResult * AccessReportGroup) :=
  let eventType := ev_eventType event in
  hit ← (if checkCache
         then IsCacheHit w eventType (ev_srcPath event) (ev_dstPath event)
         else mret false : M bool);
  if (hit : bool) then mret (sNotChecked w, reportGroup)
  else if is_anonymous_file (ev_srcPath event)
          || ((0 <? strlen (ev_dstPath event))
              && is_anonymous_file (ev_dstPath event))
  then mret (sNotChecked w, reportGroup)
  else
    let pid := if ev_pid event =? 0 then getpid w else ev_pid event in
    if IsEnabled w pid
    then
      emit (eff_policy event);;
      let '(result, reportGroup) := CheckAccessAndBuildReport w event reportGroup in
      let accessShouldBeBlocked :=
        ShouldDenyAccess result && IsFailingUnexpectedAccesses w in
      (if negb accessShouldBeBlocked
       then _ ← CheckCache w eventType (ev_srcPath event) true; mret tt
       else mret tt);;
      mret (result, reportGroup)
    else mret (sNotChecked w, reportGroup).

(** [secondPath] is [None] for a null pointer. *)
Definition create_access_internal (w : World) (syscallName : string)
    (eventType : es_event_type_t) (reportPath : string)
    (secondPath : option string) (reportGroup : AccessReportGroup)
    (mode : Z) (checkCache : bool) (associatedPid : Z)
    : M (AccessCheckResult * AccessReportGroup) :=
  let secondPath := default "" secondPath in
  hit ← (if checkCache then IsCacheHit w eventType reportPath secondPath
         else mret false : M bool);
  if (hit : bool) then mret (sNotChecked w, reportGroup)
  else
    let mode := if mode =? 0 then get_mode w reportPath else mode in
    if is_non_file mode then mret (sNotChecked w, reportGroup)
    else
      o ← get;
      let execPath :=
        if bool_decide (eventType = ES_EVENT_TYPE_NOTIFY_EXEC)
        then reportPath else progFullPath_ o in
      let event :=
        {| ev_pid := if associatedPid =? 0 then getpid w else associatedPid;
           ev_cpid := 0; ev_ppid := getppid w; ev_eventType := eventType;
           ev_srcPath := reportPath; ev_dstPath := secondPath;
           ev_execPath := execPath; ev_mode := mode; ev_modified := false |} in
      create_access w syscallName event reportGroup false.

(** ** Forced tracing and static linking *)

(** [basename]: what follows the last '/'.  The one of <string.h> and
    the one of <libgen.h> agree on it for a path that does not end in
    '/', as the path of an executable does not. *)
Fixpoint basename_from (current : string) (s : string) : string :=
  match s with
  | EmptyString => current
  | String c rest =>
      if Ascii.eqb c "/"%char then basename_from rest rest
      else basename_from current rest
  end.

Definition basename (path : string) : string := basename_from path path.

Definition IsPTraceForced (o : BxlObserver) (path : string) : bool :=
  if (List.length (forcedPTraceProcessNames_ o) =? 0)%nat then false
  else bool_decide (basename path ∈ forcedPTraceProcessNames_ o).

Definition set_ptrace_permissions (w : World) : M unit :=
  emit (eff_prctl_set_ptracer (prctl_set_ptracer w));;
  if prctl_set_ptracer w =? -1 then exit (-1) else mret tt.

(** The parent side of [is_statically_linked]: the child runs objdump, the
    parent collects its output and searches it. *)
Definition is_statically_linked (w : World) (path : string) : M bool :=
  emit (eff_objdump path);;
  let result := objdump_output w path in
  let objDumpExeFound := "Program Header:" in
  let objDumpOutput := "NEEDED               libc.so." in
  mret (contains objDumpExeFound result && negb (contains objDumpOutput result)).

(** The report both branches of
    [check_and_report_statically_linked_process] build; its [path] is an
    array of [MAXPATHLEN] characters. *)
Definition statically_linked_report (w : World) (o : BxlObserver)
    (path : string) : AccessReport :=
  {| operation := kOpStaticallyLinkedProcess;
     pid := getpid w;
     rootPid := GetProcessId (pip_ o);
     requestedAccess := RequestedAccess_Read;
     status := FileAccessStatus_Allowed;
     reportExplicitly := ReportLevel_Report;
     error := 0;
     pipId := GetPipId (pip_ o);
     path := strlcpy path MAXPATHLEN;
     stats := repeat 0 (stats_members w);
     isDirectory := 0;
     shouldReport := true |}.

(** The record of that report written field by field, for an executable
    [exePath] that the array of the report holds whole: it names the
    operation, the process, the pip and the executable. *)
Definition statically_linked_record (w : World) (o : BxlObserver)
    (exePath : string) : string :=
  join_fields
    ([ dec (operation_code w kOpStaticallyLinkedProcess); dec (getpid w);
       dec (GetProcessId (pip_ o)); dec (access_code w RequestedAccess_Read);
       dec (status_code w FileAccessStatus_Allowed);
       dec (level_code w ReportLevel_Report);
       dec 0; dec (GetPipId (pip_ o)); exePath ]
     ++ repeat (dec 0) (stats_members w))
  +:+ dec 0 +:+ newline.

Definition check_and_report_statically_linked_process (w : World)
    (path : string) : M bool :=
  o ← get;
  if negb (EnableLinuxPTraceSandbox (pip_ o)) then mret false
  else if IsPTraceForced o path
          || UnconditionallyEnableLinuxPTraceSandbox (pip_ o)
  then
    set_ptrace_permissions w;;
    SendReport w (statically_linked_report w o path) false true;;
    mret true
  else
    let key := dec (lstat_mtime w path) +:+ ":" +:+ path in
    let maybeProcess :=
      find (fun item : string * bool => bool_decide (item.1 = key))
           (staticallyLinkedProcessCache_ o) in
    isStaticallyLinked ←
      match maybeProcess with
      | Some item => mret item.2
      | None =>
          linked ← is_statically_linked w path;
          modify (fun o =>
            set_staticallyLinkedProcessCache_
              (staticallyLinkedProcessCache_ o ++ [(key, linked)]) o);;
          mret linked
      end;
    (if (isStaticallyLinked : bool)
     then
       set_ptrace_permissions w;;
       SendReport w (statically_linked_report w o path) false true;;
       mret tt
     else mret tt);;
    mret isStaticallyLinked.

(** ** Resolving a path

    The buffer [fullpath] is held as the C string in it: the characters
    before the terminator.  [pFullpath] is an index into it; reading at
    the length of the string reads the terminator. *)

Definition slash : ascii := "/"%char.
Definition dot : ascii := "."%char.

Definition char_at (buf : list ascii) (i : nat) : ascii :=
  default zero (buf !! i).

(** [*(fullpath + i) = c] for a place [i] inside the string: storing the
    terminator cuts the string there. *)
Definition store (buf : list ascii) (i : nat) (c : ascii) : list ascii :=
  if Ascii.eqb c zero then take i buf else <[i := c]> buf.

(** [shift_left(fullpath + str, n)]: the [do ... while] copies each
    character from [str] on, the terminator included, [n] places to the
    left. *)
Fixpoint shift_left_from (turns : nat) (buf : list ascii) (str n : nat)
    : list ascii :=
  match turns with
  | O => buf
  | S turns' =>
      let c := char_at buf str in
      let buf' := store buf (str - n) c in
      if Ascii.eqb c zero then buf' else shift_left_from turns' buf' (S str) n
  end.

Definition shift_left (buf : list ascii) (str n : nat) : list ascii :=
  shift_left_from (S (List.length buf - str)) buf str n.

(** [find_prev_slash(fullpath + p)]: step back, then test.  [None] when the
    scan would leave the buffer. *)
Fixpoint find_prev_slash (buf : list ascii) (p : nat) : option nat :=
  match p with
  | O => None
  | S p' => if Ascii.eqb (char_at buf p') slash then Some p'
            else find_prev_slash buf p'
  end.

(** What [resolve_path] does outside the buffer: the paths it asks
    [readlink] about and the paths it reports as read links (its calls of
    [report_access_internal] with [ES_EVENT_TYPE_NOTIFY_READLINK]). *)
Inductive PathEffect : Set :=
  | asks_readlink (path : string)
  | reports_readlink (path : string).

Record Resolver : Type := {
  fullpath : list ascii;
  pFullpath : nat;
  visited : gset string;
  path_effects : list PathEffect
}.

Inductive Step : Type :=
  | Continue (s : Resolver)
  | Break (s : Resolver)
  | OutOfBounds.

(** The first part of the loop body: "/../", "/./" and "//".  [Some] is
    one of the three [continue]s, [None] falls through to the second part. *)
Definition collapse (buf : list ascii) (p : nat)
    : option (option (list ascii * nat)) :=
  if Ascii.eqb (char_at buf p) slash
  then
    match find_prev_slash buf p with
    | None => None
    | Some pPrevSlash =>
        let parentDirLen := (p - pPrevSlash - 1)%nat in
        if (parentDirLen =? 0)%nat
        then Some (Some (shift_left buf (p + 1) 1, p))
        else if (parentDirLen =? 1)%nat && Ascii.eqb (char_at buf (p - 1)) dot
        then Some (Some (shift_left buf (p + 1) 2, (p - 1)%nat))
        else if (parentDirLen =? 2)%nat && Ascii.eqb (char_at buf (p - 1)) dot
                && Ascii.eqb (char_at buf (p - 2)) dot
        then
          match (if (0 <? pPrevSlash)%nat
                 then find_prev_slash buf pPrevSlash else Some pPrevSlash) with
          | None => None
          | Some pPrevSlash =>
              let shiftLen := (p - pPrevSlash)%nat in
              Some (Some (shift_left buf (p + 1) shiftLen, (pPrevSlash + 1)%nat))
          end
        else Some None
    end
  else Some None.

Definition ends_with_slash (target : list ascii) : bool :=
  match last target with
  | Some c => Ascii.eqb c slash
  | None => false
  end.

(** One turn of the [while (true)] of [resolve_path]. *)
Definition resolve_step (readlink : string -> option string)
    (followFinalSymlink : bool) (s : Resolver) : Step :=
  let buf := fullpath s in
  let p := pFullpath s in
  match collapse buf p with
  | None => OutOfBounds
  | Some (Some (buf', p')) =>
      Continue {| fullpath := buf'; pFullpath := p';
                  visited := visited s; path_effects := path_effects s |}
  | Some None =>
      let ch := char_at buf p in
      let current := string_of_list_ascii (take p buf) in
      let asked :=
        Ascii.eqb ch slash || (Ascii.eqb ch zero && followFinalSymlink) in
      let nReadlinkBuf := if asked then readlink current else None in
      let effects :=
        if asked then path_effects s ++ [asks_readlink current]
        else path_effects s in
      match nReadlinkBuf with
      | None =>
          let s' := {| fullpath := buf; pFullpath := p;
                       visited := visited s; path_effects := effects |} in
          if Ascii.eqb ch zero then Break s'
          else Continue {| fullpath := buf; pFullpath := S p;
                           visited := visited s; path_effects := effects |}
      | Some target =>
          let target := list_ascii_of_string target in
          if bool_decide (current ∈ visited s)
          then Break {| fullpath := take p buf; pFullpath := p;
                        visited := visited s; path_effects := effects |}
          else
            let visited' := {[ current ]} ∪ visited s in
            let effects := effects ++ [reports_readlink current] in
            let rest :=
              if ends_with_slash target && Ascii.eqb ch slash
              then drop (S p) buf else drop p buf in
            let readlinkBuf := target ++ rest in
            if (Z.of_nat (List.length target) =? 0)
               || (PATH_MAX <=? Z.of_nat (List.length readlinkBuf))
            then OutOfBounds
            else if Ascii.eqb (char_at readlinkBuf 0) slash
            then Continue {| fullpath := readlinkBuf; pFullpath := 1;
                             visited := visited'; path_effects := effects |}
            else
              match find_prev_slash buf p with
              | None => OutOfBounds
              | Some q =>
                  let buf' := take (S q) buf ++ readlinkBuf in
                  if PATH_MAX <=? Z.of_nat (List.length buf') then OutOfBounds
                  else Continue {| fullpath := buf'; pFullpath := S q;
                                   visited := visited'; path_effects := effects |}
              end
      end
  end.

(** The loop, for at most [fuel] turns; [None] when they do not suffice. *)
Fixpoint resolve_loop (fuel : nat) (readlink : string -> option string)
    (followFinalSymlink : bool) (s : Resolver) : option Step :=
  match fuel with
  | O => None
  | S fuel' =>
      match resolve_step readlink followFinalSymlink s with
      | Continue s' => resolve_loop fuel' readlink followFinalSymlink s'
      | Break s' => Some (Break s')
      | OutOfBounds => Some OutOfBounds
      end
  end.

(** [resolve_path]: the buffer afterwards and the effects, in order. *)
Definition resolve_path (fuel : nat) (readlink : string -> option string)
    (path : string) (followFinalSymlink : bool)
    : option (string * list PathEffect) :=
  let buf := list_ascii_of_string path in
  if negb (Ascii.eqb (char_at buf 0) slash) then Some (path, [])
  else
    match resolve_loop fuel readlink followFinalSymlink
            {| fullpath := buf; pFullpath := 1; visited := ∅;
               path_effects := [] |} with
    | Some (Break s) =>
        Some (string_of_list_ascii (fullpath s), path_effects s)
    | _ => None
    end.

Definition readlink_reports (effects : list PathEffect) : list string :=
  omap (fun e => match e with reports_readlink p => Some p | _ => None end)
       effects.

Definition readlink_queries (effects : list PathEffect) : list string :=
  omap (fun e => match e with asks_readlink p => Some p | _ => None end)
       effects.

(** The walk of [resolve_path] moved to another place of a buffer. *)
Definition at_position (buf : list ascii) (p : nat) (s : Resolver) : Resolver :=
  {| fullpath := buf; pFullpath := p; visited := visited s;
     path_effects := path_effects s |}.


(** ** Enumerating a directory *)

(** <dirent.h> *)
Record dirent : Set := { d_name : string; d_type : Z }.
Definition DT_DIR : Z := 4.
Definition DT_REG : Z := 8.

(** The state of the outer loop: the stack of directories (top first),
    the output vector, and, as a ghost, the directories handed to
    [opendir] so far. *)
Record Enumeration : Set := {
  directoriesToEnumerate : list string;
  filesAndDirectories : list string;
  opened : list string
}.

(** The inner loop, over the entries [readdir] yields. *)
Fixpoint read_entries (currentDirectory : string) (recursive : bool)
    (entries : list dirent) (stack out : list string)
    : list string * list string :=
  match entries with
  | [] => (stack, out)
  | ent :: entries' =>
      let fileOrDirectory := d_name ent in
      if String.eqb fileOrDirectory "." || String.eqb fileOrDirectory ".."
      then read_entries currentDirectory recursive entries' stack out
      else
        let fullPath := currentDirectory +:+ "/" +:+ fileOrDirectory in
        let stack' :=
          if (d_type ent =? DT_DIR) && recursive then fullPath :: stack
          else stack in
        read_entries currentDirectory recursive entries' stack' (out ++ [fullPath])
  end.

(** The outer loop of [EnumerateDirectory]; [real_opendir] answers [None]
    for a null [DIR*].  The result is what the function returns, with the
    state it returns in. *)
Fixpoint enumerate_loop (fuel : nat)
    (real_opendir : string -> option (list dirent)) (recursive : bool)
    (s : Enumeration) : option (bool * Enumeration) :=
  match fuel with
  | O => None
  | S fuel' =>
      match directoriesToEnumerate s with
      | [] => Some (true, s)
      | currentDirectory :: rest =>
          let opened' := opened s ++ [currentDirectory] in
          match real_opendir currentDirectory with
          | Some entries =>
              let '(stack, out) :=
                read_entries currentDirectory recursive entries rest
                  (filesAndDirectories s) in
              enumerate_loop fuel' real_opendir recursive
                {| directoriesToEnumerate := stack;
                   filesAndDirectories := out; opened := opened' |}
          | None =>
              Some (false,
                    {| directoriesToEnumerate := rest;
                       filesAndDirectories := filesAndDirectories s;
                       opened := opened' |})
          end
      end
  end.

Definition EnumerateDirectory (fuel : nat)
    (real_opendir : string -> option (list dirent))
    (rootDirectory : string) (recursive : bool)
    : option (bool * Enumeration) :=
  enumerate_loop fuel real_opendir recursive
    {| directoriesToEnumerate := [rootDirectory];
       filesAndDirectories := [rootDirectory]; opened := [] |}.

(** The enumeration as the specification words it: a directory that
    cannot be opened is passed over, the directories found so far are
    still enumerated, and the failure is reported at the end. *)
Fixpoint enumerate_as_specified (fuel : nat)
    (real_opendir : string -> option (list dirent)) (recursive : bool)
    (ok : bool) (s : Enumeration) : option (bool * Enumeration) :=
  match fuel with
  | O => None
  | S fuel' =>
      match directoriesToEnumerate s with
      | [] => Some (ok, s)
      | currentDirectory :: rest =>
          let opened' := opened s ++ [currentDirectory] in
          match real_opendir currentDirectory with
          | Some entries =>
              let '(stack, out) :=
                read_entries currentDirectory recursive entries rest
                  (filesAndDirectories s) in
              enumerate_as_specified fuel' real_opendir recursive ok
                {| directoriesToEnumerate := stack;
                   filesAndDirectories := out; opened := opened' |}
          | None =>
              enumerate_as_specified fuel' real_opendir recursive false
                {| directoriesToEnumerate := rest;
                   filesAndDirectories := filesAndDirectories s;
                   opened := opened' |}
          end
      end
  end.

Definition EnumerateDirectory_as_specified (fuel : nat)
    (real_opendir : string -> option (list dirent))
    (rootDirectory : string) (recursive : bool)
    : option (bool * Enumeration) :=
  enumerate_as_specified fuel real_opendir recursive true
    {| directoriesToEnumerate := [rootDirectory];
       filesAndDirectories := [rootDirectory]; opened := [] |}.

(** ** A world and observers to run the model on *)

Definition allowed : AccessCheckResult :=
  {| ShouldDenyAccess := false; ShouldReport := true |}.

(** Every call succeeds, nothing is a symbolic link, [stat] answers
    [mode] for every path, and the policy engine allows every access. *)
Definition world_with_mode (mode : Z) : World :=
  {| MAX_FD := 1024;
     sNotChecked := {| ShouldDenyAccess := true; ShouldReport := false |};
     operation_code := fun op =>
       match op with
       | kOpProcessTreeCompleted => 1 | kOpDebugMessage => 2
       | kOpStaticallyLinkedProcess => 3 | kOpProcessCommandLine => 4
       | kOpFirstAllowWriteCheckInProcess => 5 | kOpOther c => c
       end;
     access_code := fun a =>
       match a with
       | RequestedAccess_Read => 1 | RequestedAccess_Write => 2
       | RequestedAccess_Other b => b
       end;
     status_code := fun s =>
       match s with
       | FileAccessStatus_Allowed => 1 | FileAccessStatus_Denied => 2
       | FileAccessStatus_Other c => c
       end;
     level_code := fun l =>
       match l with
       | ReportLevel_Ignore => 0 | ReportLevel_Report => 1
       | ReportLevel_Other c => c
       end;
     stats_members := 4;
     getpid := 4242;
     getppid := 4200;
     try_lock_for := fun _ => true;
     real_readlink := fun _ => None;
     get_mode := fun _ => mode;
     lstat_mtime := fun _ => 1700000000;
     objdump_output := fun _ => "";
     real_open_resolved := true;
     real_open := fun _ => 7;
     real_write := fun _ _ count => count;
     prctl_set_ptracer := 0;
     IsEnabled := fun _ => true;
     IsFailingUnexpectedAccesses := false;
     CheckAccessAndBuildReport := fun _ group => (allowed, group) |}.

(** Every path is a regular file. *)
Definition calm_world : World := world_with_mode S_IFREG.

(** No path can be examined: every [stat] fails. *)
Definition blind_world : World := world_with_mode 0.

Definition fresh_observer (disposed : bool) (forced : list string) : BxlObserver :=
  {| pip_ := {| GetProcessId := 4200; GetPipId := 77;
                EnableLinuxPTraceSandbox := true;
                UnconditionallyEnableLinuxPTraceSandbox := false |};
     progFullPath_ := "/usr/bin/make";
     reportsPath_ := "/tmp/bxl.fifo";
     secondaryReportPath_ := "/tmp/bxl.fifo2";
     forcedPTraceProcessNames_ := forced;
     disposed_ := disposed;
     useFdTable_ := true;
     cache_ := ∅;
     fdTable_ := replicate 1024 "";
     staticallyLinkedProcessCache_ := [];
     lock_attempts := 0;
     effects := [] |}.

Definition plain_report (op : FileOperation) (p : string) : AccessReport :=
  {| operation := op; pid := 4242; rootPid := 4200;
     requestedAccess := RequestedAccess_Read;
     status := FileAccessStatus_Allowed;
     reportExplicitly := ReportLevel_Ignore;
     error := 0; pipId := 77; path := p; stats := [0; 0; 0; 0];
     isDirectory := 0; shouldReport := true |}.

Definition no_reports : AccessReportGroup :=
  {| firstReport := plain_report (kOpOther 0) "";
     secondReport := plain_report (kOpOther 0) "" |}.

Definition open_event (p : string) : IOEvent :=
  {| ev_pid := 4242; ev_cpid := 0; ev_ppid := 4200;
     ev_eventType := ES_EVENT_TYPE_NOTIFY_OPEN;
     ev_srcPath := p; ev_dstPath := ""; ev_execPath := "/usr/bin/make";
     ev_mode := S_IFREG; ev_modified := false |}.

(** A string of [n] copies of [c]. *)
Fixpoint string_of (n : nat) (c : ascii) : string :=
  match n with
  | O => ""
  | S n' => String c (string_of n' c)
  end.

(** A report with a path of [n] characters. *)
Definition report_with_path (op : FileOperation) (n : nat) : AccessReport :=
  plain_report op (string_of n "a"%char).

(** A report whose record, of 4093 characters, is one character larger
    than the atomic capacity; its path, of 4059 characters, fits the array
    of [MAXPATHLEN] characters it is held in. *)
Definition oversized_report (op : FileOperation) : AccessReport :=
  report_with_path op 4059.

(** An executable named "gcc" under a directory with a long name: a path
    of 4085 characters, which an array of [PATH_MAX] characters holds. *)
Definition long_forced_path : string :=
  "/" +:+ string_of 4080 "a"%char +:+ "/gcc".

(** File systems for [resolve_path]: one without links, and one where
    "/x" and "/y" are links to each other. *)
Definition no_links : string -> option string := fun _ => None.

Definition cycle_links : string -> option string :=
  fun p =>
    if String.eqb p "/x" then Some "/y"
    else if String.eqb p "/y" then Some "/x"
    else None.

(** What a caller of [EnumerateDirectory] gets: the returned flag and
    the output vector. *)
Definition enumeration_result (run : option (bool * Enumeration))
    : option (bool * list string) :=
  match run with
  | Some (ok, s) => Some (ok, filesAndDirectories s)
  | None => None
  end.

(** A tree for [EnumerateDirectory]: "/r" holds the directories "a" and
    "b"; "/r/a" holds the file "f"; "/r/b" cannot be opened. *)
Definition guarded_tree : string -> option (list dirent) :=
  fun d =>
    if String.eqb d "/r"
    then Some [ {| d_name := "."; d_type := DT_DIR |};
                {| d_name := ".."; d_type := DT_DIR |};
                {| d_name := "a"; d_type := DT_DIR |};
                {| d_name := "b"; d_type := DT_DIR |} ]
    else if String.eqb d "/r/a"
    then Some [ {| d_name := "f"; d_type := DT_REG |} ]
    else None.

(** ** More values to run the model on *)

Definition exec_event (p : string) : IOEvent :=
  {| ev_pid := 4242; ev_cpid := 0; ev_ppid := 4200;
     ev_eventType := ES_EVENT_TYPE_NOTIFY_EXEC;
     ev_srcPath := p; ev_dstPath := ""; ev_execPath := p;
     ev_mode := S_IFREG; ev_modified := false |}.

(** Two events of write kinds. *)
Definition truncate_event (p : string) : IOEvent :=
  {| ev_pid := 4242; ev_cpid := 0; ev_ppid := 4200;
     ev_eventType := ES_EVENT_TYPE_NOTIFY_TRUNCATE;
     ev_srcPath := p; ev_dstPath := ""; ev_execPath := "/usr/bin/make";
     ev_mode := S_IFREG; ev_modified := false |}.

Definition setmode_event (p : string) : IOEvent :=
  {| ev_pid := 4243; ev_cpid := 0; ev_ppid := 4200;
     ev_eventType := ES_EVENT_TYPE_NOTIFY_SETMODE;
     ev_srcPath := p; ev_dstPath := ""; ev_execPath := "/bin/chmod";
     ev_mode := S_IFREG; ev_modified := false |}.

(** A world whose policy engine denies every access and whose sandbox
    fails denied accesses; otherwise [calm_world]. *)
Definition strict_world : World :=
  {| MAX_FD := MAX_FD calm_world;
     sNotChecked := sNotChecked calm_world;
     operation_code := operation_code calm_world;
     access_code := access_code calm_world;
     status_code := status_code calm_world;
     level_code := level_code calm_world;
     stats_members := stats_members calm_world;
     getpid := getpid calm_world;
     getppid := getppid calm_world;
     try_lock_for := try_lock_for calm_world;
     real_readlink := real_readlink calm_world;
     get_mode := get_mode calm_world;
     lstat_mtime := lstat_mtime calm_world;
     objdump_output := objdump_output calm_world;
     real_open_resolved := real_open_resolved calm_world;
     real_open := real_open calm_world;
     real_write := real_write calm_world;
     prctl_set_ptracer := prctl_set_ptracer calm_world;
     IsEnabled := IsEnabled calm_world;
     IsFailingUnexpectedAccesses := true;
     CheckAccessAndBuildReport := fun _ group =>
       ({| ShouldDenyAccess := true; ShouldReport := true |}, group) |}.

(** <sys/stat.h>: the type bits of a socket and of a pipe. *)
Definition S_IFSOCK : Z := 49152. (* 0140000 *)
Definition S_IFIFO : Z := 4096.   (* 0010000 *)

(** An observer that has let an open of "/out/a.o" through. *)
Definition warm_observer : BxlObserver :=
  set_cache_ {[ ES_EVENT_TYPE_NOTIFY_OPEN := {[ "/out/a.o" ]} ]}
    (fresh_observer false []).

(** ** The descriptor table, continued *)

Definition set_useFdTable_ (b : bool) (o : BxlObserver) : BxlObserver :=
  {| pip_ := pip_ o; progFullPath_ := progFullPath_ o;
     reportsPath_ := reportsPath_ o; secondaryReportPath_ := secondaryReportPath_ o;
     forcedPTraceProcessNames_ := forcedPTraceProcessNames_ o;
     disposed_ := disposed_ o; useFdTable_ := b;
     cache_ := cache_ o; fdTable_ := fdTable_ o;
     staticallyLinkedProcessCache_ := staticallyLinkedProcessCache_ o;
     lock_attempts := lock_attempts o; effects := effects o |}.

Definition disable_fd_table : M unit := modify (set_useFdTable_ false).

(** [reset_fd_table]: the [for] over the indices below [MAX_FD]. *)
Definition reset_fd_table (w : World) : M unit :=
  modify (fun o =>
    set_fdTable_
      (foldl (fun table i => <[i := ""]> table) (fdTable_ o)
             (seq 0 (Z.to_nat (MAX_FD w))))
      o).

(** The table as the class declares it: an array of [MAX_FD] strings. *)
Definition fd_table_sized (w : World) (o : BxlObserver) : Prop :=
  List.length (fdTable_ o) = Z.to_nat (MAX_FD w).

(** ** Worlds that differ from a given one in one answer *)

Definition with_readlink (readlink : string -> option string) (w : World)
    : World :=
  {| MAX_FD := MAX_FD w; sNotChecked := sNotChecked w;
     operation_code := operation_code w; access_code := access_code w;
     status_code := status_code w; level_code := level_code w;
     stats_members := stats_members w; getpid := getpid w;
     getppid := getppid w; try_lock_for := try_lock_for w;
     real_readlink := readlink; get_mode := get_mode w;
     lstat_mtime := lstat_mtime w; objdump_output := objdump_output w;
     real_open_resolved := real_open_resolved w; real_open := real_open w;
     real_write := real_write w; prctl_set_ptracer := prctl_set_ptracer w;
     IsEnabled := IsEnabled w;
     IsFailingUnexpectedAccesses := IsFailingUnexpectedAccesses w;
     CheckAccessAndBuildReport := CheckAccessAndBuildReport w |}.

Definition with_write (write : Z -> string -> Z -> Z) (w : World) : World :=
  {| MAX_FD := MAX_FD w; sNotChecked := sNotChecked w;
     operation_code := operation_code w; access_code := access_code w;
     status_code := status_code w; level_code := level_code w;
     stats_members := stats_members w; getpid := getpid w;
     getppid := getppid w; try_lock_for := try_lock_for w;
     real_readlink := real_readlink w; get_mode := get_mode w;
     lstat_mtime := lstat_mtime w; objdump_output := objdump_output w;
     real_open_resolved := real_open_resolved w; real_open := real_open w;
     real_write := write; prctl_set_ptracer := prctl_set_ptracer w;
     IsEnabled := IsEnabled w;
     IsFailingUnexpectedAccesses := IsFailingUnexpectedAccesses w;
     CheckAccessAndBuildReport := CheckAccessAndBuildReport w |}.

Definition with_objdump (mtime : string -> Z) (objdump : string -> string)
    (w : World) : World :=
  {| MAX_FD := MAX_FD w; sNotChecked := sNotChecked w;
     operation_code := operation_code w; access_code := access_code w;
     status_code := status_code w; level_code := level_code w;
     stats_members := stats_members w; getpid := getpid w;
     getppid := getppid w; try_lock_for := try_lock_for w;
     real_readlink := real_readlink w; get_mode := get_mode w;
     lstat_mtime := mtime; objdump_output := objdump;
     real_open_resolved := real_open_resolved w; real_open := real_open w;
     real_write := real_write w; prctl_set_ptracer := prctl_set_ptracer w;
     IsEnabled := IsEnabled w;
     IsFailingUnexpectedAccesses := IsFailingUnexpectedAccesses w;
     CheckAccessAndBuildReport := CheckAccessAndBuildReport w |}.

Definition with_lock (lock : nat -> bool) (w : World) : World :=
  {| MAX_FD := MAX_FD w; sNotChecked := sNotChecked w;
     operation_code := operation_code w; access_code := access_code w;
     status_code := status_code w; level_code := level_code w;
     stats_members := stats_members w; getpid := getpid w;
     getppid := getppid w; try_lock_for := lock;
     real_readlink := real_readlink w; get_mode := get_mode w;
     lstat_mtime := lstat_mtime w; objdump_output := objdump_output w;
     real_open_resolved := real_open_resolved w; real_open := real_open w;
     real_write := real_write w; prctl_set_ptracer := prctl_set_ptracer w;
     IsEnabled := IsEnabled w;
     IsFailingUnexpectedAccesses := IsFailingUnexpectedAccesses w;
     CheckAccessAndBuildReport := CheckAccessAndBuildReport w |}.

(** Descriptor 5 of the process is open on "/src/a.c". *)
Definition fd5_world : World :=
  with_readlink
    (fun p => if String.eqb p "/proc/self/fd/5" then Some "/src/a.c" else None)
    calm_world.


(** An observer whose table still holds a path for descriptor 7, the
    one [calm_world] opens the pipe on. *)
Definition stale_observer : BxlObserver :=
  set_fdTable_ (<[7%nat := "/old/file"]> (fdTable_ (fresh_observer false [])))
    (fresh_observer false []).

(** A world where every [write] fails. *)
Definition broken_pipe_world : World := with_write (fun _ _ _ => -1) calm_world.

(** What [Send] and [SendReport] leave alone. *)
Definition same_settings (o o' : BxlObserver) : Prop :=
  pip_ o' = pip_ o /\ reportsPath_ o' = reportsPath_ o
  /\ secondaryReportPath_ o' = secondaryReportPath_ o
  /\ forcedPTraceProcessNames_ o' = forcedPTraceProcessNames_ o
  /\ disposed_ o' = disposed_ o /\ useFdTable_ o' = useFdTable_ o.

(** The number of reports of a group that are marked for sending. *)
Definition marked_reports (report : AccessReportGroup) : nat :=
  (if shouldReport (firstReport report) then 1 else 0)
  + (if shouldReport (secondReport report) then 1 else 0).

(** A write on the pipe at [reportsPath]. *)
Definition writes_on (reportsPath : string) (e : Effect) : Prop :=
  exists fd bytes n, e = eff_write reportsPath fd bytes n.

(** A world where "/bin/busybox" is statically linked, by what objdump
    prints of it. *)
Definition busybox_world : World :=
  with_objdump (fun _ => 1700000000)
    (fun p => if String.eqb p "/bin/busybox"
              then "Program Header:" +:+ newline +:+ "    LOAD off 0x0"
              else "Program Header:" +:+ newline
                   +:+ "  NEEDED               libc.so.6")
    calm_world.

(** The same file system once objdump has become unusable. *)
Definition no_objdump_world : World :=
  with_objdump (fun _ => 1700000000) (fun _ => "") calm_world.

(** ** The names that force tracing

    The loop of the constructor over the value of the variable (it is
    run when the variable is set and not empty, see
    [initial_forced_names] below): [start] and [end] are places in
    [forcedprocesses], [rest] is what lies from [end] on, and
    [emplace_back(start, end - start)] takes the characters between the
    two places. *)
Fixpoint scan_forced_names (forcedprocesses : string) (start end_ : nat)
    (rest : string) : list string :=
  match rest with
  | EmptyString =>
      [String.substring start (end_ - start) forcedprocesses]
  | String c rest' =>
      if Ascii.eqb c ";"%char
      then String.substring start (end_ - start) forcedprocesses
           :: scan_forced_names forcedprocesses (S end_) (S end_) rest'
      else scan_forced_names forcedprocesses start (S end_) rest'
  end.

Definition forced_process_names (forcedprocesses : string) : list string :=
  scan_forced_names forcedprocesses 0 0 forcedprocesses.

(** The names put together again, [separator] between them. *)
Fixpoint join_names (separator : string) (names : list string) : string :=
  match names with
  | [] => ""
  | [name] => name
  | name :: names' => name +:+ separator +:+ join_names separator names'
  end.

(** [c] does not occur in [s]. *)
Definition free_of (c : ascii) (s : string) : Prop :=
  c ∉ list_ascii_of_string s.

(** Modelled from the spec: [is_null_or_empty], declared in a header that
    is not among the sources, taken as its name says.  [None] is the null
    pointer [getenv] answers for a variable that is not set. *)
Definition is_null_or_empty (value : option string) : bool :=
  match value with
  | None => true
  | Some EmptyString => true
  | Some (String _ _) => false
  end.

(** [forcedPTraceProcessNames_] as the constructor leaves it: the vector
    starts empty, and the loop is run only for a variable that is set and
    not empty. *)
Definition initial_forced_names (forcedprocesses : option string)
    : list string :=
  if negb (is_null_or_empty forcedprocesses)
  then forced_process_names (default "" forcedprocesses)
  else [].

(** An observer as the constructor leaves it for what [getenv] answered. *)
Definition observer_forcing (forcedprocesses : option string) : BxlObserver :=
  fresh_observer false (initial_forced_names forcedprocesses).

(** ** The text of a debug message

    [LogDebug] prints the message into the path of the report and then
    walks the array: [formatted] is what the format and its arguments
    print, of which [vsnprintf] stores at most [MAXPATHLEN - 1]
    characters; the array was zeroed, and a zero is left as it is. *)
Definition vsnprintf (size : Z) (formatted : string) : string :=
  String.substring 0 (Z.to_nat (size - 1)) formatted.

Definition line_feed : ascii := ascii_of_nat 10.
Definition carriage_return : ascii := ascii_of_nat 13.

(** The body of the [for] of [LogDebug], on one character. *)
Definition sanitize_char (c : ascii) : ascii :=
  let c := if Ascii.eqb c "|"%char then "!"%char else c in
  if Ascii.eqb c line_feed || Ascii.eqb c carriage_return then "."%char
  else c.

Fixpoint sanitize (path : string) : string :=
  match path with
  | EmptyString => EmptyString
  | String c rest => String (sanitize_char c) (sanitize rest)
  end.

Definition debug_message_path (formatted : string) : string :=
  sanitize (vsnprintf MAXPATHLEN formatted).

(** The characters [LogDebug] replaces. *)
Definition breaks_record (c : ascii) : bool :=
  Ascii.eqb c "|"%char || Ascii.eqb c line_feed || Ascii.eqb c carriage_return.

(** ** The command line of a process

    The [for] of [report_exec_args] over what [read] stored: at the head
    of an argument a space is appended unless it is the first, then the
    characters of the argument up to its terminator. *)
Fixpoint join_arguments (bytes : string) (atArgument firstArg : bool)
    (cmdLine : string) : string :=
  match bytes with
  | EmptyString => cmdLine
  | String c rest =>
      let cmdLine :=
        if atArgument && negb firstArg then cmdLine +:+ " " else cmdLine in
      if Ascii.eqb c zero then join_arguments rest true false cmdLine
      else join_arguments rest false false (cmdLine +:+ String c "")
  end.

(** [maxSize], the size of [cmdLineBuffer]. *)
Definition cmdline_max : Z := PIPE_BUF + 4 - 1.

Definition ends_with_terminator (bytes : string) : bool :=
  match last (list_ascii_of_string bytes) with
  | Some c => Ascii.eqb c zero
  | None => false
  end.

(** [cmdLine] after the loop.  [cmdline_read] is what [read] stored,
    [None] when it failed; the loop is then not entered.  The array was
    zeroed, so an argument that [read] left without terminator ends with
    what was read, unless the array is full: the model has no answer for
    a scan that leaves the array. *)
Definition command_line (cmdline_read : option string) : option string :=
  match cmdline_read with
  | None => Some ""
  | Some bytes =>
      if (cmdline_max <=? strlen bytes) && negb (ends_with_terminator bytes)
      then None
      else Some (join_arguments bytes true true "")
  end.

Definition command_line_report (w : World) (o : BxlObserver) (pid : Z)
    (cmdLine : string) : AccessReport :=
  {| operation := kOpProcessCommandLine;
     pid := pid;
     rootPid := GetProcessId (pip_ o);
     requestedAccess := RequestedAccess_Read;
     status := FileAccessStatus_Allowed;
     reportExplicitly := ReportLevel_Report;
     error := 0;
     pipId := GetPipId (pip_ o);
     path := strlcpy cmdLine MAXPATHLEN;
     stats := repeat 0 (stats_members w);
     isDirectory := 0;
     shouldReport := true |}.

(** [report_exec_args]; [IsReportingProcessArgs] is the flag of the
    manifest, [cmdline_read] what reading /proc/<pid>/cmdline gave. *)
Definition report_exec_args (w : World) (IsReportingProcessArgs : bool)
    (cmdline_read : option string) (pid : Z) : M unit :=
  if IsReportingProcessArgs
  then
    match command_line cmdline_read with
    | None => undefined
    | Some cmdLine =>
        o ← get;
        SendReport w (command_line_report w o pid cmdLine) false false;;
        mret tt
    end
  else mret tt.

(** /proc/<pid>/cmdline: every argument followed by a terminator. *)
Fixpoint proc_cmdline (args : list string) : string :=
  match args with
  | [] => ""
  | arg :: args' => arg +:+ NUL +:+ proc_cmdline args'
  end.

(** ** What [resolve_path] keeps true of its reports

    No path is reported twice, the paths reported are the ones in
    [visited], and each of them was asked about and is a link. *)
Definition reports_sound (readlink : string -> option string)
    (s : Resolver) : Prop :=
  NoDup (readlink_reports (path_effects s))
  /\ (forall p, p ∈ readlink_reports (path_effects s) <-> p ∈ visited s)
  /\ (forall p, p ∈ readlink_reports (path_effects s) ->
        p ∈ readlink_queries (path_effects s)
        /\ exists target, readlink p = Some target).

(** The walk is inside a C string that starts with '/'. *)
Definition walk_inside (s : Resolver) : Prop :=
  char_at (fullpath s) 0 = slash
  /\ (1 <= pFullpath s <= List.length (fullpath s))%nat
  /\ Forall (fun c => c <> zero) (fullpath s).

(** What is left to do: every turn either shortens the string or moves
    on in it. *)
Definition turns_left (s : Resolver) : nat :=
  2 * List.length (fullpath s) - pFullpath s.

(** A step that goes on from [s] to [s'], on the way to the end. *)
Definition closer (s s' : Resolver) : Prop :=
  walk_inside s'
  /\ (turns_left s' < turns_left s)%nat
  /\ (List.length (fullpath s') <= List.length (fullpath s))%nat
  /\ readlink_reports (path_effects s') = readlink_reports (path_effects s).

(** A segment that [resolve_path] removes ends at place [r] of the
    string: "//", "/./" or "/../". *)
Definition dot_segment_at (buf : list ascii) (r : nat) : bool :=
  Ascii.eqb (char_at buf r) slash
  && (((1 <=? r)%nat && Ascii.eqb (char_at buf (r - 1)) slash)
      || ((2 <=? r)%nat && Ascii.eqb (char_at buf (r - 1)) dot
          && Ascii.eqb (char_at buf (r - 2)) slash)
      || ((3 <=? r)%nat && Ascii.eqb (char_at buf (r - 1)) dot
          && Ascii.eqb (char_at buf (r - 2)) dot
          && Ascii.eqb (char_at buf (r - 3)) slash)).

(** No such segment ends before the place of the walk. *)
Definition clean_behind (s : Resolver) : Prop :=
  forall r, (r < pFullpath s)%nat -> dot_segment_at (fullpath s) r = false.

(** ** What an enumeration lists

    The path [read_entries] makes of an entry of [currentDirectory];
    none for "." and "..". *)
Definition entry_path (currentDirectory : string) (ent : dirent)
    : option string :=
  if String.eqb (d_name ent) "." || String.eqb (d_name ent) ".." then None
  else Some (currentDirectory +:+ "/" +:+ d_name ent).

(** The entries of [d] under [real_opendir], as paths; with [only_dirs],
    those of type [DT_DIR]. *)
Definition lists (real_opendir : string -> option (list dirent))
    (only_dirs : bool) (d p : string) : Prop :=
  exists entries ent,
    real_opendir d = Some entries /\ ent ∈ entries
    /\ entry_path d ent = Some p
    /\ (only_dirs = true -> d_type ent = DT_DIR).

(** What holds of an enumeration under way. *)
Definition enumeration_sound (real_opendir : string -> option (list dirent))
    (rootDirectory : string) (recursive : bool) (s : Enumeration) : Prop :=
  (forall p, p ∈ filesAndDirectories s ->
     p = rootDirectory
     \/ exists d, d ∈ opened s /\ lists real_opendir false d p)
  /\ (forall d p, d ∈ opened s -> lists real_opendir false d p ->
        p ∈ filesAndDirectories s)
  /\ (forall d p, recursive = true -> d ∈ opened s ->
        lists real_opendir true d p ->
        p ∈ opened s \/ p ∈ directoriesToEnumerate s)
  /\ (forall d, d ∈ opened s \/ d ∈ directoriesToEnumerate s ->
        d = rootDirectory
        \/ (recursive = true
            /\ exists d', d' ∈ opened s /\ lists real_opendir true d' d))
  /\ rootDirectory ∈ filesAndDirectories s
  /\ (rootDirectory ∈ opened s \/ rootDirectory ∈ directoriesToEnumerate s)
  /\ (forall d, d ∈ opened s -> real_opendir d <> None).

(** A flat directory: "/src" holds two files and a directory. *)
Definition flat_tree : string -> option (list dirent) :=
  fun d =>
    if String.eqb d "/src"
    then Some [ {| d_name := "."; d_type := DT_DIR |};
                {| d_name := "a.c"; d_type := DT_REG |};
                {| d_name := ".."; d_type := DT_DIR |};
                {| d_name := "obj"; d_type := DT_DIR |};
                {| d_name := "b.c"; d_type := DT_REG |} ]
    else if String.eqb d "/src/obj"
    then Some [ {| d_name := "a.o"; d_type := DT_REG |} ]
    else None.

(** A world where the mutex of the cache is never free in time. *)
Definition contended_world : World := with_lock (fun _ => false) calm_world.

(** ** An access through a descriptor

    [create_access_fd]; [get_mode_fd] is [get_mode(int fd)], the mode
    [fstat] gives for a descriptor, 0 when it fails. *)
Definition create_access_fd (w : World) (get_mode_fd : Z -> Z)
    (syscallName : string) (eventType : es_event_type_t) (fd : Z)
    (report : AccessReportGroup) (associatedPid : Z)
    : M (AccessCheckResult * AccessReportGroup) :=
  let mode := get_mode_fd fd in
  if is_non_file mode then mret (sNotChecked w, report)
  else
    fullpath ← fd_to_path w fd associatedPid;
    if 0 <? strlen fullpath
    then create_access_internal w syscallName eventType fullpath None report
           mode true associatedPid
    else mret (sNotChecked w, report).
(** * Properties *)

#[local] Arguments String.append !_ _ /.

(** ** Running the monad *)

Lemma bind_eq {A B} (m : M A) (f : A -> M B) o :
  (m ≫= f) o =
  match m o with
  | (Returns a, o') => f a o'
  | (Fatal msg, o') => (Fatal msg, o')
  | (Exits c, o') => (Exits c, o')
  | (Undefined, o') => (Undefined, o')
  end.
Proof. reflexivity. Qed.

(** Unfolds the operations of the monad. *)
Ltac unfold_monad :=
  unfold emit in *;
  unfold mbind, M_bind, mret, M_ret, bind, ret, get, modify, _fatal, exit,
    undefined in *.

(** ** The duplicate cache *)

Lemma cache_probe_fresh key path add cache :
  ~ recorded key path cache -> (cache_probe key path add cache).1 = false.
Proof.
  intros Hfresh. unfold cache_probe.
  destruct (cache !! key) as [set|] eqn:Hk; [|done].
  assert (path ∉ set) by (intros Hin; apply Hfresh; by exists set).
  destruct add; cbn [fst]; by apply bool_decide_eq_false.
Qed.

Lemma cache_probe_hit key path add cache :
  recorded key path cache -> (cache_probe key path add cache).1 = true.
Proof.
  intros (set & Hk & Hin). unfold cache_probe. rewrite Hk.
  destruct add; cbn [fst]; by apply bool_decide_eq_true.
Qed.

Lemma cache_probe_records key path cache :
  recorded key path (cache_probe key path true cache).2.
Proof.
  unfold cache_probe, recorded.
  destruct (cache !! key) as [set|] eqn:Hk; cbn [snd];
    rewrite lookup_insert_eq; eexists; (split; [reflexivity|]); set_solver.
Qed.

Lemma cache_probe_other key key' path path' cache :
  key <> key' ->
  recorded key' path' (cache_probe key path true cache).2 <->
  recorded key' path' cache.
Proof.
  intros Hne. unfold cache_probe, recorded.
  destruct (cache !! key) as [set|] eqn:Hk; cbn [snd];
    by rewrite lookup_insert_ne.
Qed.

(** [CheckCache] when the mutex is acquired, and when it is not. *)
Lemma CheckCache_locked w event path add o :
  try_lock_for w (lock_attempts o) = true ->
  CheckCache w event path add o =
  (Returns (cache_probe (coalesce event) path add (cache_ o)).1,
   set_cache_ (cache_probe (coalesce event) path add (cache_ o)).2
     (set_lock_attempts (S (lock_attempts o)) o)).
Proof.
  intros Hlock. unfold CheckCache. unfold_monad. cbn. rewrite Hlock. cbn.
  by destruct (cache_probe (coalesce event) path add (cache_ o)).
Qed.

Lemma CheckCache_timeout w event path add o :
  try_lock_for w (lock_attempts o) = false ->
  CheckCache w event path add o =
  (Returns false, set_lock_attempts (S (lock_attempts o)) o).
Proof. intros Hlock. unfold CheckCache. unfold_monad. cbn. by rewrite Hlock. Qed.

(** Two probes of one path with kinds that get the same key: a miss, then
    a hit. *)
Lemma CheckCache_same_key_miss_then_hit w o e1 e2 path :
  coalesce e1 = coalesce e2 ->
  try_lock_for w (lock_attempts o) = true ->
  try_lock_for w (S (lock_attempts o)) = true ->
  ~ recorded (coalesce e1) path (cache_ o) ->
  let first := CheckCache w e1 path true o in
  let second := CheckCache w e2 path true first.2 in
  first.1 = Returns false /\ second.1 = Returns true.
Proof.
  intros Hkey Hl1 Hl2 Hfresh first second. subst first second.
  rewrite (CheckCache_locked w e1) by done. cbn [fst snd].
  rewrite CheckCache_locked by done. cbn [fst snd cache_ set_cache_].
  split.
  - by rewrite cache_probe_fresh.
  - rewrite cache_probe_hit; [done|]. rewrite <- Hkey.
    apply cache_probe_records.
Qed.

(** Two probes of one path with kinds that get different keys: the second
    is a miss as well. *)
Lemma CheckCache_other_key_miss_twice w o e1 e2 path :
  coalesce e1 <> coalesce e2 ->
  try_lock_for w (lock_attempts o) = true ->
  ~ recorded (coalesce e2) path (cache_ o) ->
  let first := CheckCache w e1 path true o in
  let second := CheckCache w e2 path true first.2 in
  second.1 = Returns false.
Proof.
  intros Hkey Hl1 Hfresh first second. subst first second.
  rewrite (CheckCache_locked w e1) by done. cbn [snd].
  destruct (try_lock_for w (S (lock_attempts o))) eqn:Hl2.
  - rewrite CheckCache_locked by done. cbn [fst cache_ set_cache_].
    rewrite cache_probe_fresh; [done|]. by rewrite cache_probe_other.
  - by rewrite CheckCache_timeout.
Qed.

(** What the [switch] does to the buckets: the write bucket gets one
    key, and every other kind keeps its own. *)
Lemma coalesce_write_bucket event :
  bucket_as_specified event = ES_EVENT_TYPE_NOTIFY_WRITE ->
  coalesce event = ES_EVENT_TYPE_NOTIFY_WRITE.
Proof. by destruct event. Qed.

Lemma coalesce_outside_write_bucket event :
  bucket_as_specified event <> ES_EVENT_TYPE_NOTIFY_WRITE ->
  coalesce event = event.
Proof. by destruct event. Qed.

Lemma not_recorded_empty key path : ~ recorded key path ∅.
Proof. intros (set & Hk & _). by rewrite lookup_empty in Hk. Qed.

(** The write half of C1: any two write variants, on a path not yet
    recorded under the write key. *)
Lemma CheckCache_write_variants w o e1 e2 path :
  bucket_as_specified e1 = ES_EVENT_TYPE_NOTIFY_WRITE ->
  bucket_as_specified e2 = ES_EVENT_TYPE_NOTIFY_WRITE ->
  try_lock_for w (lock_attempts o) = true ->
  try_lock_for w (S (lock_attempts o)) = true ->
  ~ recorded ES_EVENT_TYPE_NOTIFY_WRITE path (cache_ o) ->
  let first := CheckCache w e1 path true o in
  let second := CheckCache w e2 path true first.2 in
  first.1 = Returns false /\ second.1 = Returns true.
Proof.
  intros H1 H2 Hl1 Hl2 Hfresh.
  apply coalesce_write_bucket in H1, H2.
  apply CheckCache_same_key_miss_then_hit; try done; congruence.
Qed.

Lemma CheckCache_truncate_then_setmode w o path :
  try_lock_for w (lock_attempts o) = true ->
  try_lock_for w (S (lock_attempts o)) = true ->
  ~ recorded ES_EVENT_TYPE_NOTIFY_WRITE path (cache_ o) ->
  let first := CheckCache w ES_EVENT_TYPE_NOTIFY_TRUNCATE path true o in
  let second := CheckCache w ES_EVENT_TYPE_NOTIFY_SETMODE path true first.2 in
  first.1 = Returns false /\ second.1 = Returns true.
Proof. intros. by apply CheckCache_write_variants. Qed.

(** The stat half of C1 on the code: two different kinds of the stat
    bucket keep different keys, so the second probe misses as well. *)
Lemma CheckCache_stat_variants w o e1 e2 path :
  bucket_as_specified e1 = ES_EVENT_TYPE_NOTIFY_STAT ->
  bucket_as_specified e2 = ES_EVENT_TYPE_NOTIFY_STAT ->
  e1 <> e2 ->
  try_lock_for w (lock_attempts o) = true ->
  ~ recorded e2 path (cache_ o) ->
  let first := CheckCache w e1 path true o in
  let second := CheckCache w e2 path true first.2 in
  second.1 = Returns false.
Proof.
  intros H1 H2 Hne Hl1 Hfresh.
  assert (Hk1 : coalesce e1 = e1)
    by (apply coalesce_outside_write_bucket; congruence).
  assert (Hk2 : coalesce e2 = e2)
    by (apply coalesce_outside_write_bucket; congruence).
  apply CheckCache_other_key_miss_twice; try done; congruence.
Qed.

(** C1, at the input where the code departs from it: the two kinds
    [ES_EVENT_TYPE_NOTIFY_GETATTRLIST] and [ES_EVENT_TYPE_NOTIFY_STAT] are
    in one bucket as the specification words the buckets, yet probing the
    cache of a new observer with the first and then with the second, on the
    same path and with the mutex acquired both times, answers a miss both
    times: the second probe is no hit. *)
Theorem C1_stat_variants_miss_twice :
  let o := fresh_observer false [] in
  let first :=
    CheckCache calm_world ES_EVENT_TYPE_NOTIFY_GETATTRLIST "/src/a.c" true o in
  let second :=
    CheckCache calm_world ES_EVENT_TYPE_NOTIFY_STAT "/src/a.c" true first.2 in
  bucket_as_specified ES_EVENT_TYPE_NOTIFY_GETATTRLIST
  = bucket_as_specified ES_EVENT_TYPE_NOTIFY_STAT
  /\ first.1 = Returns false
  /\ second.1 = Returns false.
Proof.
  intros o first second. split; [reflexivity|]. split.
  - subst first. rewrite CheckCache_locked by reflexivity. cbn [fst].
    rewrite cache_probe_fresh; [done|]. apply not_recorded_empty.
  - subst first second. apply CheckCache_other_key_miss_twice.
    + discriminate.
    + reflexivity.
    + apply not_recorded_empty.
Qed.

(** After disposal [IsCacheHit] answers "not cached" and changes nothing. *)
Lemma IsCacheHit_disposed w event path secondPath o :
  disposed_ o = true ->
  IsCacheHit w event path secondPath o = (Returns false, o).
Proof. intros Hd. unfold IsCacheHit. unfold_monad. by rewrite Hd. Qed.

(** C2, at the input where the code departs from it: on an observer that
    is already disposed, with an empty cache, [create_access] for an
    opened file that the policy engine allows returns the engine's answer
    and leaves the path recorded in the cache: the cache was changed after
    disposal. *)
Theorem C2_create_access_records_after_disposal :
  let o := fresh_observer true [] in
  let run := create_access calm_world "open" (open_event "/out/a.o")
               no_reports true o in
  disposed_ o = true
  /\ cache_ o = ∅
  /\ run.1 = Returns (allowed, no_reports)
  /\ disposed_ run.2 = true
  /\ recorded ES_EVENT_TYPE_NOTIFY_OPEN "/out/a.o" (cache_ run.2).
Proof.
  intros o r. split; [reflexivity|]. split; [reflexivity|].
  assert (Hrun : r = (Returns (allowed, no_reports),
            set_cache_
              (cache_probe ES_EVENT_TYPE_NOTIFY_OPEN "/out/a.o" true ∅).2
              (set_lock_attempts 1
                 (set_effects [eff_policy (open_event "/out/a.o")] o)))).
  { subst r. unfold create_access. cbn [ev_eventType open_event].
    rewrite bind_eq. cbn [ev_srcPath ev_dstPath open_event].
    rewrite IsCacheHit_disposed by reflexivity.
    cbn [is_anonymous_file String.prefix ev_srcPath ev_dstPath open_event
         strlen String.length Z.of_nat Z.ltb Z.compare orb andb ev_pid].
    cbn. rewrite andb_false_r, bind_eq. unfold emit, modify. cbn.
    rewrite !bind_eq. rewrite CheckCache_locked by reflexivity. reflexivity. }
  rewrite Hrun. cbn [fst snd]. split; [reflexivity|]. split; [reflexivity|].
  apply cache_probe_records.
Qed.

(** ** Strings *)

Lemma strlen_nonneg s : 0 <= strlen s.
Proof. unfold strlen. lia. Qed.

Lemma length_append (s t : string) :
  String.length (s +:+ t) = (String.length s + String.length t)%nat.
Proof. induction s as [|c s IH]; simpl; [done|]. by f_equal. Qed.

Lemma append_assoc (a b c : string) : (a +:+ b) +:+ c = a +:+ b +:+ c.
Proof.
  induction a as [|x a IH]; [done|]. cbn [String.append]. by rewrite IH.
Qed.

Lemma strlen_append s t : strlen (s +:+ t) = strlen s + strlen t.
Proof. unfold strlen. rewrite length_append. lia. Qed.

Lemma length_substring_0 n s :
  (n <= String.length s)%nat -> String.length (String.substring 0 n s) = n.
Proof.
  revert s. induction n as [|n IH]; intros s Hn.
  - by destruct s.
  - destruct s as [|c s]; cbn in *; [lia|]. rewrite IH; [done|lia].
Qed.

Lemma substring_0_all n s :
  (String.length s <= n)%nat -> String.substring 0 n s = s.
Proof.
  revert n. induction s as [|c s IH]; intros n Hn.
  - by destruct n.
  - destruct n as [|n]; cbn in *; [lia|]. rewrite IH; [done|lia].
Qed.

Lemma substring_0_append s t :
  String.substring 0 (String.length s) (s +:+ t) = s.
Proof. induction s as [|c s IH]; simpl; [by destruct t|]. by f_equal. Qed.

Lemma strlen_strncpy src n :
  0 <= n <= strlen src -> strlen (strncpy src n) = n.
Proof.
  unfold strlen, strncpy. intros Hn. rewrite length_substring_0; lia.
Qed.

Lemma strlen_join_fields_cons f rest :
  strlen (join_fields (f :: rest)) = strlen f + 1 + strlen (join_fields rest).
Proof.
  cbn [join_fields]. rewrite !strlen_append. change (strlen "|") with 1. lia.
Qed.

(** The path is printed as it is: the length of a record is the length
    of its path and what the other fields take. *)
Lemma strlen_report_record w report p :
  strlen (report_record w report p) = report_overhead w report + strlen p.
Proof.
  unfold report_overhead, report_record. cbn [app].
  rewrite !strlen_append, !strlen_join_fields_cons.
  change (strlen "") with 0. lia.
Qed.

(** ** Sending *)

(** A [Send] that finds the pipe and writes the whole buffer. *)
Lemma Send_succeeds w buf bufsiz (useSecondaryPipe : bool) o :
  let reportsPath :=
    if useSecondaryPipe then secondaryReportPath_ o else reportsPath_ o in
  let bytes := String.substring 0 (Z.to_nat bufsiz) buf in
  real_open_resolved w = true ->
  bufsiz <= PIPE_BUF ->
  real_open w reportsPath <> -1 ->
  real_write w (real_open w reportsPath) bytes bufsiz = bufsiz ->
  0 <= bufsiz ->
  exists o',
    Send w buf bufsiz useSecondaryPipe o = (Returns true, o')
    /\ effects o' =
       effects o ++ [eff_write reportsPath (real_open w reportsPath) bytes bufsiz].
Proof.
  intros reportsPath bytes Hopen Hsize Hfd Hwrite Hpos. unfold Send.
  rewrite Hopen. cbn [negb].
  destruct (bufsiz >? PIPE_BUF) eqn:Hgt; [lia|].
  unfold_monad. fold reportsPath.
  destruct (real_open w reportsPath =? -1) eqn:Hfd'; [lia|].
  cbn. fold bytes. rewrite Hwrite.
  assert (Hfull : (to_size_t bufsiz <? bufsiz) = false).
  { unfold to_size_t. rewrite Z.mod_small; [lia|]. unfold PIPE_BUF in Hsize. lia. }
  rewrite Hfull. unfold reset_fd_table_entry. unfold_monad.
  destruct ((0 <=? real_open w reportsPath)
            && (real_open w reportsPath <? MAX_FD w));
    eexists; (split; [reflexivity|]); reflexivity.
Qed.

(** C3 as it is worded fails in two places.  A debug message whose
    record exceeds the capacity by one character (a path of 4059
    characters, a record of 4093) would fit with one character cut; a
    record that [SendReport] sends whole needs two cut; [SendReport] cuts
    three, and sends a record of 4090 characters.  And a report that is
    the process-tree-completed marker is never serialised: however large
    its record would be, and debug message or not, [SendReport] returns
    [true] and the process goes on. *)
Lemma C3_counterexample_cut_not_exact :
  let report := oversized_report kOpDebugMessage in
  let o := fresh_observer false [] in
  strlen (path report) = 4059
  /\ strlen (report_record calm_world report (path report))
     = atomic_capacity + 1
  /\ cut_as_specified calm_world report = 1
  /\ effects (SendReport calm_world report true false o).2
     = [eff_write "/tmp/bxl.fifo" 7
          (le32 4090
           +:+ report_record calm_world report (string_of (4059 - 3) "a"))
          4094]
  /\ effects
       (SendReport calm_world (report_with_path kOpDebugMessage (4059 - 2))
          true false o).2
     = [eff_write "/tmp/bxl.fifo" 7
          (le32 4091
           +:+ report_record calm_world report (string_of (4059 - 2) "a"))
          4095]
  /\ atomic_capacity
     < strlen (report_record calm_world
                 (oversized_report kOpProcessTreeCompleted)
                 (path (oversized_report kOpProcessTreeCompleted)))
  /\ SendReport calm_world (oversized_report kOpProcessTreeCompleted)
       false false o
     = (Returns true, o).
Proof. repeat split; vm_compute; reflexivity. Qed.

(** C3, amended: a report whose record is larger than the atomic
    capacity ([PIPE_BUF] less the four bytes of the length prefix), or
    as large: the room [SendReport] gives a record is the capacity, its
    terminator included.  The
    process-tree-completed marker is never serialised: [SendReport]
    returns [true] with the observer as it was.  For any other report:
    when it is not a debug message, [SendReport] stops the process in
    [_fatal], with the observer as it was and nothing written.  When it
    is a debug message (and the fields other than the path fit),
    [SendReport] keeps the first characters of the path, fewer than
    before by the excess of the record and two more; the record built
    again has the capacity less two characters, and it is that record
    which is sent, with its length as prefix; when the pipe opens and
    takes the whole write, the call returns [true]. *)
Theorem C3_SendReport_oversized w o report (useSecondaryPipe : bool) :
  let size := strlen (report_record w report (path report)) in
  let reportsPath :=
    if useSecondaryPipe then secondaryReportPath_ o else reportsPath_ o in
  atomic_capacity <= size ->
  (operation report = kOpProcessTreeCompleted ->
   forall isDebugMessage,
     SendReport w report isDebugMessage useSecondaryPipe o = (Returns true, o))
  /\ (operation report <> kOpProcessTreeCompleted ->
      SendReport w report false useSecondaryPipe o
      = (Fatal "Message truncated to fit PIPE_BUF", o)
      /\ (report_overhead w report + 2 <= atomic_capacity ->
          let kept := strlen (path report) - (size - atomic_capacity) - 2 in
          let truncatedMessage := strncpy (path report) kept in
          let record := report_record w report truncatedMessage in
          strlen truncatedMessage = kept
          /\ strlen record = atomic_capacity - 2
          /\ SendReport w report true useSecondaryPipe o
             = Send w (le32 (strlen record) +:+ record +:+ NUL)
                 (strlen record + 4) useSecondaryPipe o
          /\ (real_open_resolved w = true ->
              real_open w reportsPath <> -1 ->
              (forall bytes count,
                 real_write w (real_open w reportsPath) bytes count = count) ->
              exists o',
                SendReport w report true useSecondaryPipe o = (Returns true, o')
                /\ effects o' =
                   effects o ++
                   [eff_write reportsPath (real_open w reportsPath)
                      (le32 (strlen record) +:+ record) (strlen record + 4)]))).
Proof.
  intros size reportsPath Hbig.
  assert (Hsize : size = report_overhead w report + strlen (path report))
    by apply strlen_report_record.
  assert (Hge : (size >=? PIPE_BUF - 4) = true)
    by (unfold atomic_capacity in Hbig; lia).
  split.
  { intros Hop isDebugMessage. unfold SendReport.
    by rewrite bool_decide_eq_true_2. }
  intros Hop. split.
  - unfold SendReport. rewrite bool_decide_eq_false_2 by done.
    cbn [BuildReport snd fst]. fold size. rewrite Hge. reflexivity.
  - intros Hfit kept truncatedMessage record.
    pose proof (strlen_nonneg (path report)) as Hpath.
    assert (Hkept : strlen truncatedMessage = kept).
    { apply strlen_strncpy. unfold kept, atomic_capacity in *. lia. }
    assert (Hrecord : strlen record = atomic_capacity - 2).
    { unfold record. rewrite strlen_report_record, Hkept. unfold kept. lia. }
    assert (Hsend : SendReport w report true useSecondaryPipe o
         = Send w (le32 (strlen record) +:+ record +:+ NUL)
             (strlen record + 4) useSecondaryPipe o).
    { unfold SendReport. rewrite bool_decide_eq_false_2 by done.
      cbn [BuildReport snd fst negb]. fold size. rewrite Hge.
      replace (strlen (path report) - (size - (PIPE_BUF - 4)) - 1)
        with (kept + 1) by (unfold kept, atomic_capacity; lia).
      destruct (kept + 1 <=? 0) eqn:Hk;
        [unfold kept, atomic_capacity in *; lia|].
      replace (kept + 1 - 1) with kept by lia.
      fold truncatedMessage. fold record.
      rewrite bind_eq. unfold mret, M_ret, ret.
      unfold BuildReport. cbn [fst snd]. fold record.
      rewrite substring_0_all.
      2:{ unfold strlen, atomic_capacity, PIPE_BUF in *. lia. }
      rewrite Z.min_l by (unfold atomic_capacity in *; lia).
      reflexivity. }
    split; [done|]. split; [done|]. split; [done|].
    intros Hopen Hfd Hwrite. rewrite Hsend.
    destruct (Send_succeeds w (le32 (strlen record) +:+ record +:+ NUL)
                (strlen record + 4) useSecondaryPipe o)
      as (o' & Hrun & Heff); try done.
    + unfold atomic_capacity in *. lia.
    + unfold atomic_capacity, PIPE_BUF in *. lia.
    + exists o'. split; [done|]. rewrite Heff. fold reportsPath.
      do 3 f_equal.
      replace (Z.to_nat (strlen record + 4))
        with (String.length (le32 (strlen record) +:+ record)).
      2:{ rewrite length_append. unfold strlen. cbn. lia. }
      replace (le32 (strlen record) +:+ record +:+ NUL)
        with ((le32 (strlen record) +:+ record) +:+ NUL).
      * apply substring_0_append.
      * apply append_assoc.
Qed.

Lemma C3_SendReport_oversized_witness :
  strlen (path (oversized_report kOpDebugMessage)) < MAXPATHLEN
  /\ atomic_capacity
     <= strlen (report_record calm_world (oversized_report kOpDebugMessage)
                  (path (oversized_report kOpDebugMessage)))
  /\ operation (oversized_report kOpDebugMessage) <> kOpProcessTreeCompleted
  /\ report_overhead calm_world (oversized_report kOpDebugMessage) + 2
     <= atomic_capacity
  /\ SendReport calm_world (oversized_report kOpDebugMessage) false false
       (fresh_observer false [])
     = (Fatal "Message truncated to fit PIPE_BUF", fresh_observer false [])
  /\ (exists o',
        SendReport calm_world (oversized_report kOpDebugMessage) true false
          (fresh_observer false [])
        = (Returns true, o')
        /\ effects o'
           = [eff_write "/tmp/bxl.fifo" 7
                (le32 4090
                 +:+ report_record calm_world (oversized_report kOpDebugMessage)
                       (string_of 4056 "a"))
                4094]).
Proof.
  set (o := fresh_observer false []).
  set (report := oversized_report kOpDebugMessage).
  assert (Hlegal : strlen (path report) < MAXPATHLEN)
    by (vm_compute; reflexivity).
  assert (Hop : operation report <> kOpProcessTreeCompleted) by discriminate.
  assert (Hbig : atomic_capacity
                 <= strlen (report_record calm_world report (path report)))
    by (vm_compute; discriminate).
  assert (Hfit : report_overhead calm_world report + 2 <= atomic_capacity)
    by (vm_compute; discriminate).
  split; [exact Hlegal|]. split; [exact Hbig|]. split; [exact Hop|].
  split; [exact Hfit|].
  destruct (C3_SendReport_oversized calm_world o report false Hbig)
    as [_ Hother].
  destruct (Hother Hop) as [Hfatal Hdebug].
  split; [exact Hfatal|].
  destruct (Hdebug Hfit) as (_ & _ & _ & Hsent).
  destruct Hsent as (o' & Hrun & Heff);
    [reflexivity | discriminate | reflexivity |].
  exists o'. split; [exact Hrun|]. rewrite Heff. vm_compute. reflexivity.
Defined.

(** Whatever happens in it, [Send] adds at most one effect, the write on
    the pipe it was asked to use, and leaves the caches alone. *)
Lemma Send_effects w buf bufsiz (useSecondaryPipe : bool) o :
  let reportsPath :=
    if useSecondaryPipe then secondaryReportPath_ o else reportsPath_ o in
  let o' := (Send w buf bufsiz useSecondaryPipe o).2 in
  (effects o' = effects o
   \/ exists fd bytes n, effects o' = effects o ++ [eff_write reportsPath fd bytes n])
  /\ cache_ o' = cache_ o
  /\ staticallyLinkedProcessCache_ o' = staticallyLinkedProcessCache_ o.
Proof.
  intros reportsPath. unfold Send. unfold_monad.
  destruct (real_open_resolved w); cbn [negb]; [|by auto].
  destruct (bufsiz >? PIPE_BUF); [by auto|].
  fold reportsPath.
  destruct (real_open w reportsPath =? -1); [by auto|].
  cbn.
  destruct (to_size_t _ <? bufsiz); cbn; [by eauto 10|].
  unfold reset_fd_table_entry. unfold_monad.
  destruct ((0 <=? real_open w reportsPath)
            && (real_open w reportsPath <? MAX_FD w)); cbn; by eauto 10.
Qed.

Lemma SendReport_effects w report isDebugMessage (useSecondaryPipe : bool) o :
  let reportsPath :=
    if useSecondaryPipe then secondaryReportPath_ o else reportsPath_ o in
  let o' := (SendReport w report isDebugMessage useSecondaryPipe o).2 in
  (effects o' = effects o
   \/ exists fd bytes n, effects o' = effects o ++ [eff_write reportsPath fd bytes n])
  /\ cache_ o' = cache_ o
  /\ staticallyLinkedProcessCache_ o' = staticallyLinkedProcessCache_ o.
Proof.
  intros reportsPath. unfold SendReport.
  destruct (bool_decide (operation report = kOpProcessTreeCompleted));
    [by auto|].
  cbn zeta. rewrite bind_eq.
  destruct (_ >=? _).
  - destruct isDebugMessage; cbn [negb]; [|by auto].
    destruct (_ <=? 0); [by auto|]. apply Send_effects.
  - apply Send_effects.
Qed.

(** A report that fits is sent as it is. *)
Lemma SendReport_fitting w report isDebugMessage useSecondaryPipe o :
  let record := report_record w report (path report) in
  operation report <> kOpProcessTreeCompleted ->
  strlen record < atomic_capacity ->
  SendReport w report isDebugMessage useSecondaryPipe o
  = Send w (le32 (strlen record) +:+ record +:+ NUL) (strlen record + 4)
      useSecondaryPipe o.
Proof.
  intros record Hop Hfit. unfold SendReport.
  rewrite bool_decide_eq_false_2 by done.
  cbn [BuildReport fst snd]. fold record.
  destruct (strlen record >=? PIPE_BUF - 4) eqn:Hge;
    [unfold atomic_capacity in Hfit; lia|].
  rewrite bind_eq. unfold mret, M_ret, ret, BuildReport. cbn [fst snd].
  fold record. rewrite substring_0_all.
  2:{ unfold strlen, atomic_capacity, PIPE_BUF in *. lia. }
  rewrite Z.min_l by (unfold atomic_capacity in *; lia).
  reflexivity.
Qed.

Lemma SendReport_fitting_succeeds w report isDebugMessage
    (useSecondaryPipe : bool) o :
  let record := report_record w report (path report) in
  let reportsPath :=
    if useSecondaryPipe then secondaryReportPath_ o else reportsPath_ o in
  operation report <> kOpProcessTreeCompleted ->
  strlen record < atomic_capacity ->
  real_open_resolved w = true ->
  real_open w reportsPath <> -1 ->
  (forall bytes count,
     real_write w (real_open w reportsPath) bytes count = count) ->
  exists o',
    SendReport w report isDebugMessage useSecondaryPipe o = (Returns true, o')
    /\ effects o' =
       effects o ++
       [eff_write reportsPath (real_open w reportsPath)
          (le32 (strlen record) +:+ record) (strlen record + 4)].
Proof.
  intros record reportsPath Hop Hfit Hopen Hfd Hwrite.
  rewrite SendReport_fitting by done. fold record.
  pose proof (strlen_nonneg record) as Hpos.
  destruct (Send_succeeds w (le32 (strlen record) +:+ record +:+ NUL)
              (strlen record + 4) useSecondaryPipe o)
    as (o' & Hrun & Heff); try done.
  - unfold atomic_capacity in *. lia.
  - lia.
  - exists o'. split; [done|]. rewrite Heff. fold reportsPath.
    do 3 f_equal.
    replace (Z.to_nat (strlen record + 4))
      with (String.length (le32 (strlen record) +:+ record)).
    2:{ rewrite length_append. unfold strlen. cbn. lia. }
    rewrite <- append_assoc. apply substring_0_append.
Qed.

(** ** Forced tracing and static linking *)

(** The sequence both branches of the decision end in: [prctl] first; if
    it fails the process exits there; otherwise the report follows, as at
    most one write on the secondary pipe. *)
Lemma grant_then_report {A} w report (a : A) o :
  let run :=
    (set_ptrace_permissions w;; SendReport w report false true;; mret a) o in
  let granted := eff_prctl_set_ptracer (prctl_set_ptracer w) in
  (prctl_set_ptracer w = -1
   /\ run = (Exits (-1), set_effects (effects o ++ [granted]) o))
  \/ (prctl_set_ptracer w <> -1
      /\ (effects run.2 = effects o ++ [granted]
          \/ exists fd bytes n,
               effects run.2 =
               effects o ++ [granted; eff_write (secondaryReportPath_ o) fd bytes n])
      /\ staticallyLinkedProcessCache_ run.2 = staticallyLinkedProcessCache_ o).
Proof.
  intros run granted. subst run. unfold set_ptrace_permissions.
  unfold_monad. cbn.
  destruct (prctl_set_ptracer w =? -1) eqn:Hprctl.
  - left. split; [lia|]. reflexivity.
  - right. split; [lia|].
    set (o1 := set_effects (effects o ++ [eff_prctl_set_ptracer (prctl_set_ptracer w)]) o).
    destruct (SendReport_effects w report false true o1) as (Heff & _ & Hcache).
    cbn zeta in Heff, Hcache.
    destruct (SendReport w report false true o1) as [[r| | |] o2];
      cbn [fst snd] in *; (split; [|exact Hcache]);
      (destruct Heff as [Heff|(fd & bytes & n & Heff)];
       [left; exact Heff
       |right; exists fd, bytes, n; rewrite Heff; subst o1; cbn;
        by rewrite <- app_assoc]).
Qed.

Lemma IsPTraceForced_basename o path :
  basename path ∈ forcedPTraceProcessNames_ o -> IsPTraceForced o path = true.
Proof.
  intros Hin. unfold IsPTraceForced.
  destruct (forcedPTraceProcessNames_ o) as [|name names] eqn:Hnames.
  - by apply elem_of_nil in Hin.
  - cbn. by apply bool_decide_eq_true.
Qed.

(** A report that is too large and is no debug message stops the
    process, with nothing written. *)
Lemma SendReport_oversized_fatal w report (useSecondaryPipe : bool) o :
  operation report <> kOpProcessTreeCompleted ->
  atomic_capacity <= strlen (report_record w report (path report)) ->
  SendReport w report false useSecondaryPipe o
  = (Fatal "Message truncated to fit PIPE_BUF", o).
Proof.
  intros Hop Hbig. unfold SendReport. rewrite bool_decide_eq_false_2 by done.
  cbn [BuildReport snd fst].
  assert (Hge : (strlen (report_record w report (path report))
                 >=? PIPE_BUF - 4) = true)
    by (unfold atomic_capacity in Hbig; lia).
  rewrite Hge. reflexivity.
Qed.

Lemma strlen_strlcpy src size :
  1 <= size -> strlen (strlcpy src size) = Z.min (size - 1) (strlen src).
Proof.
  intros Hsize. unfold strlen, strlcpy.
  assert (Hmin : forall n s,
    String.length (String.substring 0 n s) = Nat.min n (String.length s)).
  { clear. induction n as [|n IH]; intros [|c s]; cbn; try done.
    by rewrite IH. }
  rewrite Hmin. lia.
Qed.

(** The record of the statically-linked report, field by field. *)
Lemma statically_linked_report_record w o exePath :
  report_record w (statically_linked_report w o exePath) exePath
  = statically_linked_record w o exePath.
Proof.
  unfold report_record, statically_linked_record, statically_linked_report.
  cbn [operation pid rootPid requestedAccess status reportExplicitly error
       pipId stats isDirectory].
  do 3 f_equal. induction (stats_members w) as [|n IH]; cbn; [done|].
  by rewrite IH.
Qed.

(** C6 as it is worded fails on an executable "gcc", forced by name,
    whose path has 4085 characters: a path an array of [PATH_MAX]
    characters holds.  With the sandbox enabled, [prctl] granting the
    permission and the pipes in order, the decision does not return
    [true]: the record of the report is larger than the atomic capacity
    and, the report being no debug message, [SendReport] stops the
    process.  The permission was granted by then; no report was sent. *)
Lemma C6_counterexample_long_forced_path :
  let o := fresh_observer false ["ld"; "gcc"] in
  strlen long_forced_path < PATH_MAX
  /\ EnableLinuxPTraceSandbox (pip_ o) = true
  /\ basename long_forced_path ∈ forcedPTraceProcessNames_ o
  /\ check_and_report_statically_linked_process calm_world long_forced_path o
     = (Fatal "Message truncated to fit PIPE_BUF",
        set_effects [eff_prctl_set_ptracer 0] o)
  /\ (check_and_report_statically_linked_process calm_world long_forced_path
        o).1
     <> Returns true.
Proof.
  intros o.
  assert (Hrun :
    check_and_report_statically_linked_process calm_world long_forced_path o
    = (Fatal "Message truncated to fit PIPE_BUF",
       set_effects [eff_prctl_set_ptracer 0] o))
    by (vm_compute; reflexivity).
  split; [vm_compute; reflexivity|]. split; [reflexivity|].
  split; [apply list_elem_of_In; vm_compute; auto|].
  split; [exact Hrun|]. rewrite Hrun. discriminate.
Qed.

(** C6, amended: with the ptrace sandbox enabled, an executable whose
    basename is in the list of forced process names.  The decision asks
    [prctl] for the permission first and never runs objdump, whatever the
    binary is: the effects are the [prctl] call, followed by at most the
    one write of the report on the secondary pipe, and the cache of
    linkage verdicts is not touched.  When [prctl] refuses, the process
    exits with -1 there.  When it grants the permission and the record of
    the report does not fit the atomic capacity, the process is stopped in
    [_fatal] with nothing sent.  When it grants the permission, the record
    fits and the secondary pipe opens and takes the write, the call
    returns [true] and the effects are exactly the [prctl] call and the
    write, on the secondary pipe, of the length and the record that names
    the operation, this process, the pip and the executable. *)
Theorem C6_forced_trace w o exePath :
  let run := check_and_report_statically_linked_process w exePath o in
  let granted := eff_prctl_set_ptracer (prctl_set_ptracer w) in
  let record := statically_linked_record w o exePath in
  EnableLinuxPTraceSandbox (pip_ o) = true ->
  basename exePath ∈ forcedPTraceProcessNames_ o ->
  (effects run.2 = effects o ++ [granted]
   \/ exists fd bytes n,
        effects run.2 =
        effects o ++ [granted; eff_write (secondaryReportPath_ o) fd bytes n])
  /\ (forall p, eff_objdump p ∈ effects run.2 -> eff_objdump p ∈ effects o)
  /\ staticallyLinkedProcessCache_ run.2 = staticallyLinkedProcessCache_ o
  /\ (prctl_set_ptracer w = -1 ->
      run = (Exits (-1), set_effects (effects o ++ [granted]) o))
  /\ (prctl_set_ptracer w <> -1 ->
      atomic_capacity <= strlen record ->
      run = (Fatal "Message truncated to fit PIPE_BUF",
             set_effects (effects o ++ [granted]) o))
  /\ (prctl_set_ptracer w <> -1 ->
      strlen record < atomic_capacity ->
      real_open_resolved w = true ->
      real_open w (secondaryReportPath_ o) <> -1 ->
      (forall bytes count,
         real_write w (real_open w (secondaryReportPath_ o)) bytes count = count) ->
      run.1 = Returns true
      /\ effects run.2 =
         effects o ++
         [granted;
          eff_write (secondaryReportPath_ o) (real_open w (secondaryReportPath_ o))
            (le32 (strlen record) +:+ record) (strlen record + 4)]).
Proof.
  intros run granted record Henabled Hforced.
  set (report := statically_linked_report w o exePath).
  assert (Hrun : run =
    (set_ptrace_permissions w;; SendReport w report false true;; mret true) o).
  { subst run. unfold check_and_report_statically_linked_process.
    rewrite bind_eq. unfold get. rewrite Henabled.
    rewrite IsPTraceForced_basename by done. reflexivity. }
  assert (Hshape :
    (effects run.2 = effects o ++ [granted]
     \/ exists fd bytes n,
          effects run.2 =
          effects o ++ [granted; eff_write (secondaryReportPath_ o) fd bytes n])
    /\ staticallyLinkedProcessCache_ run.2 = staticallyLinkedProcessCache_ o).
  { rewrite Hrun.
    destruct (grant_then_report w report true o) as [[_ ->]|(_ & Heff & Hc)];
      [by auto|by auto]. }
  destruct Hshape as [Heff Hcache].
  pose proof (strlen_nonneg exePath) as Hpos.
  assert (Hoverhead : strlen record = report_overhead w report + strlen exePath).
  { subst record. rewrite <- statically_linked_report_record.
    apply strlen_report_record. }
  set (o1 := set_effects (effects o ++ [granted]) o).
  assert (Hgranted : prctl_set_ptracer w <> -1 ->
            run = (SendReport w report false true;; mret true) o1).
  { intros Hprctl. rewrite Hrun. unfold set_ptrace_permissions.
    rewrite bind_eq. unfold emit, modify. fold granted. fold o1.
    rewrite bind_eq. destruct (prctl_set_ptracer w =? -1) eqn:Hp; [lia|].
    reflexivity. }
  split; [exact Heff|]. split; [|split; [exact Hcache|split; [|split]]].
  - intros p Hin. subst granted.
    destruct Heff as [Heff|(fd & bytes & n & Heff)]; rewrite Heff in Hin;
      apply elem_of_app in Hin as [Hin|Hin]; try done;
      repeat (apply elem_of_cons in Hin as [Hin|Hin]; [discriminate|]);
      by apply elem_of_nil in Hin.
  - intros Hprctl. rewrite Hrun.
    destruct (grant_then_report w report true o) as [[_ ->]|[Hok _]];
      [done|done].
  - intros Hprctl Hbig. rewrite (Hgranted Hprctl), bind_eq.
    rewrite SendReport_oversized_fatal; [done|done|].
    rewrite strlen_report_record.
    change (path report) with (strlcpy exePath MAXPATHLEN).
    rewrite strlen_strlcpy by (unfold MAXPATHLEN, PATH_MAX; lia).
    pose proof (strlen_nonneg (report_record w report "")).
    unfold report_overhead, atomic_capacity, MAXPATHLEN, PATH_MAX, PIPE_BUF
      in *. lia.
  - intros Hprctl Hfit Hopen Hfd Hwrite.
    assert (Hpath : path report = exePath).
    { change (path report) with (strlcpy exePath MAXPATHLEN). unfold strlcpy.
      apply substring_0_all.
      pose proof (strlen_nonneg (report_record w report "")).
      unfold report_overhead, strlen, atomic_capacity, MAXPATHLEN, PATH_MAX,
        PIPE_BUF in *. lia. }
    assert (Hrecord : report_record w report (path report) = record).
    { rewrite Hpath. apply statically_linked_report_record. }
    destruct (SendReport_fitting_succeeds w report false true o1)
      as (o' & Hsent & Heff'); try done.
    { cbn zeta. by rewrite Hrecord. }
    cbn zeta in Heff'. rewrite Hrecord in Heff'.
    rewrite (Hgranted Hprctl), bind_eq, Hsent. cbn [fst snd].
    split; [reflexivity|].
    unfold mret, M_ret, ret. cbn [snd].
    rewrite Heff'. subst o1. cbn. by rewrite <- app_assoc.
Qed.

Lemma C6_forced_trace_witness :
  EnableLinuxPTraceSandbox (pip_ (fresh_observer false ["ld"; "gcc"])) = true
  /\ basename "/usr/bin/gcc"
     ∈ forcedPTraceProcessNames_ (fresh_observer false ["ld"; "gcc"])
  /\ (check_and_report_statically_linked_process calm_world "/usr/bin/gcc"
        (fresh_observer false ["ld"; "gcc"])).1
     = Returns true
  /\ effects
       (check_and_report_statically_linked_process calm_world "/usr/bin/gcc"
          (fresh_observer false ["ld"; "gcc"])).2
     = [eff_prctl_set_ptracer 0;
        eff_write "/tmp/bxl.fifo2" 7
          (le32 46 +:+ "3|4242|4200|1|1|1|0|77|/usr/bin/gcc|0|0|0|0|0"
           +:+ newline)
          50].
Proof.
  set (o := fresh_observer false ["ld"; "gcc"]).
  assert (Henabled : EnableLinuxPTraceSandbox (pip_ o) = true) by reflexivity.
  assert (Hforced : basename "/usr/bin/gcc" ∈ forcedPTraceProcessNames_ o).
  { apply list_elem_of_In. vm_compute. auto. }
  split; [exact Henabled|]. split; [exact Hforced|].
  destruct (C6_forced_trace calm_world o "/usr/bin/gcc" Henabled Hforced)
    as (_ & _ & _ & _ & _ & Hok).
  destruct Hok as [Hret Heff];
    [discriminate | vm_compute; reflexivity | reflexivity
    | discriminate | reflexivity |].
  split; [exact Hret|]. rewrite Heff. vm_compute. reflexivity.
Defined.

Lemma bind_mret_state {A B} (m : M A) (b : B) o :
  ((m;; mret b) o).2 = (m o).2.
Proof. rewrite bind_eq. by destruct (m o) as [[a| | |] o']. Qed.

Lemma permission_precedes_report_nil : permission_precedes_report [].
Proof. intros i ? ? ? ? Hi. by rewrite lookup_nil in Hi. Qed.

Lemma permission_precedes_report_grant result :
  permission_precedes_report [eff_prctl_set_ptracer result].
Proof. intros [|[|i]] ? ? ? ? Hi; by simplify_eq/=. Qed.

Lemma permission_precedes_report_grant_write result reportsPath fd bytes n :
  result <> -1 ->
  permission_precedes_report
    [eff_prctl_set_ptracer result; eff_write reportsPath fd bytes n].
Proof.
  intros Hres [|[|[|i]]] ? ? ? ? Hi; simplify_eq/=.
  exists 0%nat, result. split; [lia|]. by split.
Qed.

Lemma permission_precedes_report_objdump p new :
  permission_precedes_report new ->
  permission_precedes_report (eff_objdump p :: new).
Proof.
  intros Hnew [|i] ? ? ? ? Hi; simplify_eq/=.
  destruct (Hnew i _ _ _ _ Hi) as (j & result & Hj & Hgrant & Hres).
  exists (S j), result. split; [lia|]. by split.
Qed.

Lemma grant_then_report_ordered {A} w report (a : A) o :
  let run :=
    (set_ptrace_permissions w;; SendReport w report false true;; mret a) o in
  exists new,
    effects run.2 = effects o ++ new /\ permission_precedes_report new.
Proof.
  intros run. subst run.
  destruct (grant_then_report w report a o)
    as [[_ ->]|(Hres & [Heff|(fd & bytes & n & Heff)] & _)];
    eexists; (split; [cbn [snd]; try eassumption; reflexivity|]).
  - apply permission_precedes_report_grant.
  - apply permission_precedes_report_grant.
  - by apply permission_precedes_report_grant_write.
Qed.

(** A binary not yet in the cache of verdicts: objdump is run and the
    verdict is appended under the key. *)
Lemma inspect_and_remember w path key o :
  (linked ← is_statically_linked w path;
   modify (fun o =>
     set_staticallyLinkedProcessCache_
       (staticallyLinkedProcessCache_ o ++ [(key, linked)]) o);;
   mret linked) o
  = (let linked :=
       contains "Program Header:" (objdump_output w path)
       && negb (contains "NEEDED               libc.so." (objdump_output w path)) in
     (Returns linked,
      set_staticallyLinkedProcessCache_
        (staticallyLinkedProcessCache_ o ++ [(key, linked)])
        (set_effects (effects o ++ [eff_objdump path]) o))).
Proof. reflexivity. Qed.

(** C7: in every run of the decision, whatever the world answers, each
    write of a report on a pipe is preceded, among the effects of that
    run, by a [prctl] call that granted the permission.  The only report
    the decision sends is the statically-linked one. *)
Theorem C7_permission_before_report w o path :
  let run := check_and_report_statically_linked_process w path o in
  exists new,
    effects run.2 = effects o ++ new /\ permission_precedes_report new.
Proof.
  intros run. subst run.
  unfold check_and_report_statically_linked_process.
  rewrite bind_eq. unfold get.
  destruct (EnableLinuxPTraceSandbox (pip_ o)); cbn [negb].
  2:{ exists []. split; [by rewrite app_nil_r|].
      apply permission_precedes_report_nil. }
  destruct (IsPTraceForced o path
            || UnconditionallyEnableLinuxPTraceSandbox (pip_ o)).
  { apply grant_then_report_ordered. }
  set (report := statically_linked_report w o path).
  set (key := dec (lstat_mtime w path) +:+ ":" +:+ path).
  destruct (find _ (staticallyLinkedProcessCache_ o)) as [item|].
  - rewrite bind_eq. unfold mret at 1, M_ret, ret at 1.
    rewrite bind_mret_state.
    destruct item.2.
    + apply (grant_then_report_ordered w report tt o).
    + exists []. split; [by rewrite app_nil_r|].
      apply permission_precedes_report_nil.
  - rewrite bind_eq. fold key. rewrite inspect_and_remember. cbn zeta.
    set (linked := contains _ _ && negb (contains _ _)).
    set (o2 := set_staticallyLinkedProcessCache_ _ _).
    cbn beta iota.
    assert (Ho2 : effects o2 = effects o ++ [eff_objdump path]) by reflexivity.
    rewrite bind_mret_state.
    destruct linked.
    + destruct (grant_then_report_ordered w report tt o2)
        as (new & Heff & Hnew).
      cbn zeta in Heff.
      exists (eff_objdump path :: new). split.
      * rewrite Heff, Ho2, <- app_assoc. reflexivity.
      * by apply permission_precedes_report_objdump.
    + exists [eff_objdump path]. split; [exact Ho2|].
      apply permission_precedes_report_objdump,
        permission_precedes_report_nil.
Qed.

(** ** The descriptor table *)

Lemma read_path_for_fd_run w fd associatedPid o :
  read_path_for_fd w fd associatedPid o =
  (Returns match real_readlink w (procPath fd associatedPid) with
           | Some target => (strlen target, target)
           | None => (-1, "")
           end,
   set_effects (effects o ++ [eff_readlink (procPath fd associatedPid)]) o).
Proof.
  unfold read_path_for_fd. unfold_monad. cbn.
  by destruct (real_readlink w (procPath fd associatedPid)).
Qed.

(** C8: [fd_to_path], with [entry] the name of the descriptor under /proc.
    For a descriptor outside [0, MAX_FD) the answer is what [readlink]
    gives for the entry (the empty path when it fails), the table is
    the same afterwards, and the answer is the same whatever the table
    holds.  For a descriptor whose [readlink] fails, the table is the
    same afterwards, and the call either asked [readlink] and returned
    the empty path, or never asked because the enabled table had a
    path for the descriptor. *)
Theorem C8_fd_to_path w o fd associatedPid :
  let run := fd_to_path w fd associatedPid o in
  let entry := procPath fd associatedPid in
  let asked := set_effects (effects o ++ [eff_readlink entry]) o in
  ((fd < 0 \/ MAX_FD w <= fd) ->
   run = (Returns (default "" (real_readlink w entry)), asked)
   /\ fdTable_ run.2 = fdTable_ o
   /\ forall table,
        (fd_to_path w fd associatedPid (set_fdTable_ table o)).1 = run.1)
  /\ (real_readlink w entry = None ->
      fdTable_ run.2 = fdTable_ o
      /\ (run = (Returns "", asked)
          \/ (0 <= fd < MAX_FD w /\ useFdTable_ o = true
              /\ exists cached,
                   fdTable_ o !! Z.to_nat fd = Some cached /\ cached <> ""
                   /\ run = (Returns cached, o)))).
Proof.
  intros run entry asked. split.
  - intros Hout.
    assert (Hcond : (fd <? 0) || (fd >=? MAX_FD w) = true) by lia.
    assert (Hrun : forall o0,
      fd_to_path w fd associatedPid o0 =
      (Returns (default "" (real_readlink w entry)),
       set_effects (effects o0 ++ [eff_readlink entry]) o0)).
    { intros o0. unfold fd_to_path. rewrite Hcond, bind_eq.
      rewrite read_path_for_fd_run. fold entry.
      by destruct (real_readlink w entry). }
    subst run. rewrite !Hrun. split; [done|]. split; [done|].
    intros table. by rewrite Hrun.
  - intros Hfail. subst run. unfold fd_to_path.
    destruct ((fd <? 0) || (fd >=? MAX_FD w)) eqn:Hcond.
    + rewrite bind_eq, read_path_for_fd_run. fold entry. rewrite Hfail.
      split; [done|]. by left.
    + rewrite bind_eq. unfold get.
      destruct (useFdTable_ o) eqn:Huse; cbn [andb].
      * destruct (fdTable_ o !! Z.to_nat fd) as [cached|] eqn:Hentry;
          cbn [from_option id].
        -- destruct (0 <? strlen cached) eqn:Hlen.
           ++ split; [done|]. right. split; [lia|]. split; [done|].
              exists cached. split; [done|]. split; [|done].
              intros ->. vm_compute in Hlen. discriminate.
           ++ rewrite bind_eq, read_path_for_fd_run. fold entry.
              rewrite Hfail. by split; [|left].
        -- change (0 <? strlen "") with false. cbn beta iota.
           rewrite bind_eq, read_path_for_fd_run. fold entry.
           rewrite Hfail. by split; [|left].
      * rewrite bind_eq, read_path_for_fd_run. fold entry.
        rewrite Hfail. by split; [|left].
Qed.

Lemma C8_fd_to_path_witness :
  (5000 < 0 \/ MAX_FD calm_world <= 5000)
  /\ real_readlink calm_world (procPath 5 0) = None
  /\ fd_to_path calm_world 5000 0 (fresh_observer false [])
     = (Returns "",
        set_effects [eff_readlink "/proc/self/fd/5000"]
          (fresh_observer false []))
  /\ fdTable_ (fd_to_path calm_world 5 0 (fresh_observer false [])).2
     = fdTable_ (fresh_observer false []).
Proof.
  set (o := fresh_observer false []).
  assert (Hout : 5000 < 0 \/ MAX_FD calm_world <= 5000)
    by (right; vm_compute; discriminate).
  assert (Hfail : real_readlink calm_world (procPath 5 0) = None)
    by reflexivity.
  split; [exact Hout|]. split; [exact Hfail|]. split.
  - exact (proj1 (proj1 (C8_fd_to_path calm_world o 5000 0) Hout)).
  - exact (proj1 (proj2 (C8_fd_to_path calm_world o 5 0) Hfail)).
Defined.

(** ** Building an access *)

Lemma CheckCache_run w event path add o :
  exists hit o',
    CheckCache w event path add o = (Returns hit, o')
    /\ effects o' = effects o /\ disposed_ o' = disposed_ o.
Proof.
  destruct (try_lock_for w (lock_attempts o)) eqn:Hlock.
  - rewrite CheckCache_locked by done. by eauto.
  - rewrite CheckCache_timeout by done. by eauto.
Qed.

(** C10: an access whose mode is not given and cannot be found
    ([get_mode] answers 0), and which the cache does not hold.
    [is_non_file] answers [false] for the mode, so
    [create_access_internal] does not return the sentinel there: it
    goes on to [create_access] with the event it has built, mode 0.  When
    further the path is no anonymous file and the sandbox is enabled for
    the process, the policy engine is consulted on that event and its
    answer and reports are what [create_access_internal] returns. *)
Theorem C10_unknown_mode_is_checked w o o1 syscallName eventType reportPath
    secondPath reportGroup (checkCache : bool) associatedPid :
  let dstPath := default "" secondPath in
  let event :=
    {| ev_pid := if associatedPid =? 0 then getpid w else associatedPid;
       ev_cpid := 0; ev_ppid := getppid w; ev_eventType := eventType;
       ev_srcPath := reportPath; ev_dstPath := dstPath;
       ev_execPath :=
         if bool_decide (eventType = ES_EVENT_TYPE_NOTIFY_EXEC)
         then reportPath else progFullPath_ o1;
       ev_mode := 0; ev_modified := false |} in
  let run :=
    create_access_internal w syscallName eventType reportPath secondPath
      reportGroup 0 checkCache associatedPid o in
  get_mode w reportPath = 0 ->
  (if checkCache then IsCacheHit w eventType reportPath dstPath
   else mret false) o = (Returns false, o1) ->
  is_non_file (get_mode w reportPath) = false
  /\ run = create_access w syscallName event reportGroup false o1
  /\ (is_anonymous_file reportPath = false ->
      is_anonymous_file dstPath = false ->
      IsEnabled w (if ev_pid event =? 0 then getpid w else ev_pid event) = true ->
      run.1 = Returns (CheckAccessAndBuildReport w event reportGroup)
      /\ effects run.2 = effects o1 ++ [eff_policy event]).
Proof.
  intros dstPath event run Hmode Hmiss.
  assert (Hrun : run = create_access w syscallName event reportGroup false o1).
  { subst run. unfold create_access_internal. fold dstPath.
    rewrite bind_eq, Hmiss. change (0 =? 0) with true. cbn beta iota.
    rewrite Hmode. change (is_non_file 0) with false. cbn beta iota.
    reflexivity. }
  split; [by rewrite Hmode|]. split; [exact Hrun|].
  intros Hsrc Hdst Henabled.
  assert (Hcheck : exists o',
    create_access w syscallName event reportGroup false o1
    = (Returns (CheckAccessAndBuildReport w event reportGroup), o')
    /\ effects o' = effects o1 ++ [eff_policy event]).
  { unfold create_access. unfold_monad. cbn beta iota zeta.
    change (ev_srcPath event) with reportPath.
    change (ev_dstPath event) with dstPath.
    rewrite Hsrc, Hdst, andb_false_r. cbn [orb].
    rewrite Henabled.
    destruct (CheckAccessAndBuildReport w event reportGroup) as [result group].
    destruct (negb (ShouldDenyAccess result && IsFailingUnexpectedAccesses w));
      cbn beta iota.
    - match goal with
      | |- context [CheckCache ?a ?b ?c ?d ?e] =>
          destruct (CheckCache_run a b c d e) as (hit & o3 & Hcheck & Heff & _)
      end.
      rewrite Hcheck. exists o3. by rewrite Heff.
    - by eexists. }
  destruct Hcheck as (o' & Hcheck & Heff). rewrite Hrun, Hcheck. by split.
Qed.

Lemma C10_unknown_mode_is_checked_witness :
  get_mode blind_world "/out/a.o" = 0
  /\ (create_access_internal blind_world "stat" ES_EVENT_TYPE_NOTIFY_STAT
        "/out/a.o" None no_reports 0 false 0 (fresh_observer false [])).1
     = Returns (allowed, no_reports).
Proof.
  set (o := fresh_observer false []).
  assert (Hmode : get_mode blind_world "/out/a.o" = 0) by reflexivity.
  split; [exact Hmode|].
  destruct (C10_unknown_mode_is_checked blind_world o o "stat"
              ES_EVENT_TYPE_NOTIFY_STAT "/out/a.o" None no_reports false 0
              Hmode eq_refl) as (_ & _ & Hchecked).
  destruct Hchecked as [Hresult _]; [reflexivity..|].
  exact Hresult.
Defined.

(** ** Resolving a path *)

Lemma resolve_loop_S fuel readlink followFinalSymlink s :
  resolve_loop (S fuel) readlink followFinalSymlink s =
  match resolve_step readlink followFinalSymlink s with
  | Continue s' => resolve_loop fuel readlink followFinalSymlink s'
  | Break s' => Some (Break s')
  | OutOfBounds => Some OutOfBounds
  end.
Proof. reflexivity. Qed.

(** The loop of [shift_left], on a buffer cut in three: what is kept,
    the [n] characters to lose, and the rest, which moves left. *)
Lemma shift_left_from_spec n : forall post pre mid turns,
  (1 <= n)%nat ->
  List.length mid = n ->
  Forall (fun c => c <> zero) post ->
  (List.length post < turns)%nat ->
  shift_left_from turns (pre ++ mid ++ post) (List.length pre + n) n
  = pre ++ post.
Proof.
  induction post as [|c post IH]; intros pre mid turns Hn Hmid Hpost Hturns.
  - destruct turns as [|turns]; [cbn in Hturns; lia|].
    cbn [shift_left_from]. rewrite app_nil_r.
    assert (Hc : char_at (pre ++ mid) (List.length pre + n) = zero).
    { unfold char_at. rewrite lookup_ge_None_2; [done|].
      rewrite length_app. lia. }
    rewrite Hc. change (Ascii.eqb zero zero) with true. cbv iota beta zeta.
    unfold store. change (Ascii.eqb zero zero) with true. cbv iota.
    replace (List.length pre + n - n)%nat with (List.length pre) by lia.
    rewrite take_app_length. by rewrite app_nil_r.
  - destruct turns as [|turns]; [cbn in Hturns; lia|].
    cbn [shift_left_from].
    apply Forall_cons in Hpost as [Hc Hpost].
    assert (Hread : char_at (pre ++ mid ++ c :: post) (List.length pre + n) = c).
    { unfold char_at. rewrite lookup_app_r by lia.
      replace (List.length pre + n - List.length pre)%nat with n by lia.
      rewrite lookup_app_r by lia.
      replace (n - List.length mid)%nat with 0%nat by lia. reflexivity. }
    rewrite Hread. rewrite (proj2 (Ascii.eqb_neq _ _) Hc). cbv iota beta zeta.
    unfold store. rewrite (proj2 (Ascii.eqb_neq _ _) Hc).
    replace (List.length pre + n - n)%nat with (List.length pre) by lia.
    destruct mid as [|m mid]; [cbn in Hmid; lia|].
    rewrite insert_app_r_alt by lia.
    replace (List.length pre - List.length pre)%nat with 0%nat by lia.
    cbn [app]. cbn [insert list_insert].
    specialize (IH (pre ++ [c]) (mid ++ [c]) turns Hn).
    rewrite <- !app_assoc in IH. cbn [app] in IH.
    replace (S (List.length pre + n)) with (List.length (pre ++ [c]) + n)%nat
      by (rewrite length_app; cbn; lia).
    rewrite IH; [done| |done|cbn in Hturns; lia].
    rewrite length_app. cbn in *. lia.
Qed.

(** What the loop of [shift_left] comes to, on a string: the [n]
    characters before [str] are removed. *)
Lemma shift_left_removes buf str n :
  (1 <= n <= str)%nat ->
  (str <= List.length buf)%nat ->
  Forall (fun c => c <> zero) buf ->
  shift_left buf str n = take (str - n) buf ++ drop str buf.
Proof.
  intros Hn Hstr Hbuf. unfold shift_left.
  set (pre := take (str - n) buf).
  set (mid := take n (drop (str - n) buf)).
  set (post := drop str buf).
  assert (Hsplit : buf = pre ++ mid ++ post).
  { subst pre mid post.
    rewrite <- (take_drop (str - n) buf) at 1. f_equal.
    rewrite <- (take_drop n (drop (str - n) buf)) at 1. f_equal.
    rewrite drop_drop. f_equal. lia. }
  assert (Hpre : str = (List.length pre + n)%nat)
    by (subst pre; rewrite length_take; lia).
  pose proof (shift_left_from_spec n post pre mid
                (S (List.length buf - str))) as Hloop.
  rewrite <- Hsplit, <- Hpre in Hloop. apply Hloop.
  - lia.
  - subst mid. rewrite length_take, length_drop. lia.
  - by apply Forall_drop.
  - subst post. rewrite length_drop. lia.
Qed.

(** One turn of the loop on a known buffer: the turn is computed, and
    what it asked [readlink] is answered from the hypotheses. *)
Ltac resolve_turn :=
  rewrite resolve_loop_S;
  match goal with
  | |- context [resolve_step ?r ?f ?s] =>
      let t := eval vm_compute in (resolve_step r f s) in
      change (resolve_step r f s) with t
  end;
  repeat match goal with
         | H : ?r _ = _ |- context [?r _] => rewrite H
         end;
  cbv beta iota.

(** A string that is none of the strings listed. *)
Ltac not_listed :=
  let H := fresh "Hin" in
  intros H; apply list_elem_of_In in H; cbn in H;
  repeat (destruct H as [H|H]; [discriminate H|]); exact H.

(** C5: "/a/./b/../c" where none of "/a", "/a/b" and "/a/c" is a
    symbolic link.  Given fuel for its eleven turns, [resolve_path]
    returns with "/a/c" in the buffer and reports no link.  It asks
    [readlink] about "/a" and "/a/b", and about "/a/c" when the final
    link is to be followed, and about nothing else: never about "/a/."
    or "/a/b/..", the prefixes that end in the segments it removed. *)
Theorem C5_dot_segments_collapse readlink (followFinalSymlink : bool) fuel :
  readlink "/a" = None ->
  readlink "/a/b" = None ->
  readlink "/a/c" = None ->
  (11 <= fuel)%nat ->
  exists effects,
    resolve_path fuel readlink "/a/./b/../c" followFinalSymlink
    = Some ("/a/c", effects)
    /\ readlink_reports effects = []
    /\ readlink_queries effects
       = ["/a"; "/a/b"] ++ (if followFinalSymlink then ["/a/c"] else [])
    /\ ("/a/." ∉ readlink_queries effects)
    /\ ("/a/b/.." ∉ readlink_queries effects).
Proof.
  intros Ha Hab Hac Hfuel.
  replace fuel with (11 + (fuel - 11))%nat by lia. cbn [Nat.add].
  unfold resolve_path.
  change (negb (Ascii.eqb (char_at (list_ascii_of_string "/a/./b/../c") 0) slash))
    with false. cbv iota.
  destruct followFinalSymlink.
  - do 11 resolve_turn. eexists. split; [reflexivity|].
    cbn. repeat split; try done; not_listed.
  - do 11 resolve_turn. eexists. split; [reflexivity|].
    cbn. repeat split; try done; not_listed.
Qed.

Lemma C5_dot_segments_collapse_witness :
  no_links "/a" = None /\ no_links "/a/b" = None /\ no_links "/a/c" = None
  /\ (11 <= 11)%nat
  /\ exists effects,
       resolve_path 11 no_links "/a/./b/../c" true = Some ("/a/c", effects)
       /\ readlink_queries effects = ["/a"; "/a/b"; "/a/c"].
Proof.
  split; [reflexivity|]. split; [reflexivity|]. split; [reflexivity|].
  split; [lia|].
  destruct (C5_dot_segments_collapse no_links true 11 eq_refl eq_refl eq_refl
              (le_n 11)) as (effects & Hrun & _ & Hqueries & _).
  exists effects. split; [exact Hrun|exact Hqueries].
Defined.

(** *** A cycle between two names *)











(** The cycle met below the top: "/x/f", whether or not the final link
    is followed.  The same five effects, and the buffer is left cut at
    the link where the walk stopped. *)
Lemma resolve_path_cycle_below_link readlink fuel followFinalSymlink :
  readlink "/x" = Some "/y" ->
  readlink "/y" = Some "/x" ->
  (6 <= fuel)%nat ->
  resolve_path fuel readlink "/x/f" followFinalSymlink
  = Some ("/x",
          [asks_readlink "/x"; reports_readlink "/x";
           asks_readlink "/y"; reports_readlink "/y"; asks_readlink "/x"]).
Proof.
  intros Hx Hy Hfuel.
  replace fuel with (6 + (fuel - 6))%nat by lia. cbn [Nat.add].
  unfold resolve_path.
  change (negb (Ascii.eqb (char_at (list_ascii_of_string "/x/f") 0) slash))
    with false. cbv iota.
  do 6 resolve_turn. reflexivity.
Qed.

(** ** Enumerating a directory *)

(** C9 as it is worded fails on the tree "/r" with the subdirectories
    "/r/a" (which holds "f") and "/r/b" (which cannot be opened).  Both
    are found while "/r" is read, and "/r/b" is on top of the stack.  The
    code returns at its failure, with "/r/a" still on the stack and
    "/r/a/f" not in the output; the enumeration the claim describes goes
    on to "/r/a" and lists "/r/a/f". *)
Lemma C9_counterexample_enumeration_stops :
  enumeration_result (EnumerateDirectory 5 guarded_tree "/r" true)
  = Some (false, ["/r"; "/r/a"; "/r/b"])
  /\ enumeration_result (EnumerateDirectory_as_specified 5 guarded_tree "/r" true)
     = Some (false, ["/r"; "/r/a"; "/r/b"; "/r/a/f"])
  /\ enumeration_result (EnumerateDirectory 5 guarded_tree "/r" true)
     <> enumeration_result
          (EnumerateDirectory_as_specified 5 guarded_tree "/r" true).
Proof.
  assert (Hcode :
    enumeration_result (EnumerateDirectory 5 guarded_tree "/r" true)
    = Some (false, ["/r"; "/r/a"; "/r/b"])) by (vm_compute; reflexivity).
  assert (Hspec :
    enumeration_result (EnumerateDirectory_as_specified 5 guarded_tree "/r" true)
    = Some (false, ["/r"; "/r/a"; "/r/b"; "/r/a/f"])) by (vm_compute; reflexivity).
  split; [exact Hcode|]. split; [exact Hspec|].
  rewrite Hcode, Hspec. discriminate.
Qed.

(** A failed [opendir] ends the loop in that very turn: the function
    returns [false] with the output as it was, and the rest of the stack
    is left as it is. *)
Lemma enumerate_loop_fails_at_once fuel real_opendir recursive
    currentDirectory rest out seen :
  real_opendir currentDirectory = None ->
  enumerate_loop (S fuel) real_opendir recursive
    {| directoriesToEnumerate := currentDirectory :: rest;
       filesAndDirectories := out; opened := seen |}
  = Some (false,
          {| directoriesToEnumerate := rest; filesAndDirectories := out;
             opened := seen ++ [currentDirectory] |}).
Proof. intros Hfail. cbn. by rewrite Hfail. Qed.

Lemma enumerate_loop_opened fuel real_opendir recursive s ok s' :
  Forall (fun d => is_Some (real_opendir d)) (opened s) ->
  enumerate_loop fuel real_opendir recursive s = Some (ok, s') ->
  if ok
  then directoriesToEnumerate s' = []
       /\ Forall (fun d => is_Some (real_opendir d)) (opened s')
  else exists before failed,
         opened s' = before ++ [failed]
         /\ real_opendir failed = None
         /\ Forall (fun d => is_Some (real_opendir d)) before.
Proof.
  revert s. induction fuel as [|fuel IH]; intros s Hseen Hrun; [done|].
  cbn in Hrun.
  destruct (directoriesToEnumerate s) as [|currentDirectory rest] eqn:Hstack.
  - by simplify_eq.
  - destruct (real_opendir currentDirectory) as [entries|] eqn:Hopen.
    + destruct (read_entries _ _ _ _ _) as [stack out].
      apply IH in Hrun; [done|]. cbn.
      apply Forall_app. split; [done|]. by apply Forall_singleton.
    + simplify_eq. cbn. by eauto 10.
Qed.

(** C9, amended: [EnumerateDirectory] stops at the first directory that
    cannot be opened.  In the turn where [opendir] fails the loop
    returns [false], with the output as collected so far and the rest of
    the stack never taken up.  So for a whole run that returns: when it
    returns [true] the stack is empty and every directory handed to
    [opendir] was opened; when it returns [false] the directory that
    failed is the last one handed to [opendir], and every one before it
    was opened. *)
Theorem C9_enumeration_stops_at_failure real_opendir recursive :
  (forall fuel currentDirectory rest out seen,
     real_opendir currentDirectory = None ->
     enumerate_loop (S fuel) real_opendir recursive
       {| directoriesToEnumerate := currentDirectory :: rest;
          filesAndDirectories := out; opened := seen |}
     = Some (false,
             {| directoriesToEnumerate := rest; filesAndDirectories := out;
                opened := seen ++ [currentDirectory] |}))
  /\ (forall fuel rootDirectory ok s,
        EnumerateDirectory fuel real_opendir rootDirectory recursive
        = Some (ok, s) ->
        if ok
        then directoriesToEnumerate s = []
             /\ Forall (fun d => is_Some (real_opendir d)) (opened s)
        else exists before failed,
               opened s = before ++ [failed]
               /\ real_opendir failed = None
               /\ Forall (fun d => is_Some (real_opendir d)) before).
Proof.
  split.
  - intros. by apply enumerate_loop_fails_at_once.
  - intros fuel rootDirectory ok s Hrun.
    unfold EnumerateDirectory in Hrun.
    apply enumerate_loop_opened in Hrun; [done|]. by apply Forall_nil_2.
Qed.

Lemma C9_enumeration_stops_at_failure_witness :
  guarded_tree "/r/b" = None
  /\ EnumerateDirectory 5 guarded_tree "/r" true
     = Some (false,
             {| directoriesToEnumerate := ["/r/a"];
                filesAndDirectories := ["/r"; "/r/a"; "/r/b"];
                opened := ["/r"; "/r/b"] |})
  /\ exists before failed,
       ["/r"; "/r/b"] = before ++ [failed]
       /\ guarded_tree failed = None
       /\ Forall (fun d => is_Some (guarded_tree d)) before.
Proof.
  assert (Hrun : EnumerateDirectory 5 guarded_tree "/r" true
     = Some (false,
             {| directoriesToEnumerate := ["/r/a"];
                filesAndDirectories := ["/r"; "/r/a"; "/r/b"];
                opened := ["/r"; "/r/b"] |})) by reflexivity.
  split; [reflexivity|]. split; [exact Hrun|].
  exact (proj2 (C9_enumeration_stops_at_failure guarded_tree true)
           5%nat "/r" false _ Hrun).
Defined.

(** * Further properties *)

(** ** The duplicate cache, from the callers' side *)

Lemma cache_probe_answer key path add cache :
  (cache_probe key path add cache).1 = true <-> recorded key path cache.
Proof.
  split; [|apply cache_probe_hit].
  unfold cache_probe, recorded.
  destruct (cache !! key) as [set|]; destruct add; cbn [fst]; try done;
    intros Hhit%bool_decide_eq_true; by exists set.
Qed.

Lemma cache_probe_keeps key path add key' path' cache :
  recorded key' path' cache ->
  recorded key' path' (cache_probe key path add cache).2.
Proof.
  intros (set & Hk & Hin). unfold cache_probe, recorded.
  destruct (cache !! key) as [set0|] eqn:Hkey; destruct add; cbn [snd];
    try (by exists set).
  - destruct (decide (key = key')) as [->|Hne].
    + rewrite lookup_insert_eq. eexists. split; [done|].
      rewrite Hk in Hkey. simplify_eq. by apply elem_of_union_r.
    + rewrite lookup_insert_ne by done. by exists set.
  - destruct (decide (key = key')) as [->|Hne]; [congruence|].
    rewrite lookup_insert_ne by done. by exists set.
Qed.

Lemma IsCacheHit_cacheable w event path secondPath o :
  disposed_ o = false ->
  strlen secondPath = 0 ->
  event <> ES_EVENT_TYPE_NOTIFY_FORK ->
  event <> ES_EVENT_TYPE_NOTIFY_EXEC ->
  event <> ES_EVENT_TYPE_NOTIFY_EXIT ->
  IsCacheHit w event path secondPath o = CheckCache w event path false o.
Proof.
  intros Hd Hs Hfork Hexec Hexit. unfold IsCacheHit.
  rewrite bind_eq. unfold get. rewrite Hd, Hs.
  by rewrite !bool_decide_eq_false_2 by done.
Qed.

(** [IsCacheHit] looks and never writes: whatever it answers, the cache
    and the effects are as before. *)
Lemma IsCacheHit_reads_only w event path secondPath o :
  exists hit o',
    IsCacheHit w event path secondPath o = (Returns hit, o')
    /\ cache_ o' = cache_ o /\ effects o' = effects o
    /\ disposed_ o' = disposed_ o.
Proof.
  unfold IsCacheHit. rewrite bind_eq. unfold get.
  destruct (_ || _); [by eauto 10|].
  destruct (try_lock_for w (lock_attempts o)) eqn:Hlock.
  - rewrite CheckCache_locked by done. eexists _, _. split; [done|].
    cbn. unfold cache_probe. by destruct (cache_ o !! coalesce event).
  - rewrite CheckCache_timeout by done. by eauto 10.
Qed.

(** After a [create_access] that the sandbox handles and does not
    block, the path is recorded under the key of the kind; the table of
    descriptors and the flags of the observer are as before. *)
Lemma create_access_records w o syscallName event reportGroup
    (checkCache : bool) :
  let first := create_access w syscallName event reportGroup checkCache o in
  (forall attempt, try_lock_for w attempt = true) ->
  disposed_ o = false ->
  strlen (ev_dstPath event) = 0 ->
  ev_eventType event <> ES_EVENT_TYPE_NOTIFY_FORK ->
  ev_eventType event <> ES_EVENT_TYPE_NOTIFY_EXEC ->
  ev_eventType event <> ES_EVENT_TYPE_NOTIFY_EXIT ->
  is_anonymous_file (ev_srcPath event) = false ->
  IsEnabled w (if ev_pid event =? 0 then getpid w else ev_pid event) = true ->
  ShouldDenyAccess (CheckAccessAndBuildReport w event reportGroup).1
  && IsFailingUnexpectedAccesses w = false ->
  recorded (coalesce (ev_eventType event)) (ev_srcPath event) (cache_ first.2)
  /\ disposed_ first.2 = false
  /\ fdTable_ first.2 = fdTable_ o
  /\ useFdTable_ first.2 = useFdTable_ o.
Proof.
  intros first Hlock Hd Hdst Hfork Hexec Hexit Hanon Henabled Hallowed.
  subst first. unfold create_access. rewrite bind_eq.
  destruct checkCache.
  - rewrite IsCacheHit_cacheable by done.
    rewrite CheckCache_locked by done. cbn [fst snd].
    destruct (cache_probe _ _ false (cache_ o)).1 eqn:Hhit.
    + apply cache_probe_answer in Hhit. cbn. split; [|done].
      by apply cache_probe_keeps.
    + rewrite Hanon, Hdst. cbn [orb andb]. cbn zeta.
      rewrite Henabled. unfold_monad. cbn.
      destruct (CheckAccessAndBuildReport w event reportGroup)
        as [result group]. cbn [fst] in Hallowed. rewrite Hallowed.
      cbn. rewrite CheckCache_locked by done. cbn. split; [|done].
      apply cache_probe_records.
  - unfold mret at 1, M_ret, ret at 1. cbv iota beta.
    rewrite Hanon, Hdst. cbn [orb andb]. cbn zeta.
    rewrite Henabled. unfold_monad. cbn.
    destruct (CheckAccessAndBuildReport w event reportGroup)
      as [result group]. cbn [fst] in Hallowed. rewrite Hallowed.
    cbn. rewrite CheckCache_locked by done. cbn. split; [|done].
    apply cache_probe_records.
Qed.

(** A [create_access] with [checkCache] of a path recorded under the key
    of its kind returns the sentinel and changes nothing but the count
    of lock attempts. *)
Lemma create_access_hit w o syscallName event reportGroup :
  let run := create_access w syscallName event reportGroup true o in
  (forall attempt, try_lock_for w attempt = true) ->
  disposed_ o = false ->
  strlen (ev_dstPath event) = 0 ->
  ev_eventType event <> ES_EVENT_TYPE_NOTIFY_FORK ->
  ev_eventType event <> ES_EVENT_TYPE_NOTIFY_EXEC ->
  ev_eventType event <> ES_EVENT_TYPE_NOTIFY_EXIT ->
  recorded (coalesce (ev_eventType event)) (ev_srcPath event) (cache_ o) ->
  run.1 = Returns (sNotChecked w, reportGroup)
  /\ effects run.2 = effects o
  /\ cache_ run.2 = cache_ o
  /\ fdTable_ run.2 = fdTable_ o.
Proof.
  intros run Hlock Hd Hdst Hfork Hexec Hexit Hrec.
  subst run. unfold create_access. rewrite bind_eq.
  rewrite IsCacheHit_cacheable by done.
  rewrite CheckCache_locked by done.
  rewrite cache_probe_hit by done. cbn. split; [done|]. split; [done|].
  split; [|done].
  unfold cache_probe. by destruct (cache_ o !! _).
Qed.

(** X1.  An access that was let through is not checked again, nor is
    any access of the same path whose kind gets the same key in the
    [switch] of [CheckCache] (every write kind, for one).  With the mutex
    free at every attempt, take any first [create_access] of an event
    that can be cached (one path, not fork, exec or exit, not an
    anonymous file) which the sandbox handles and does not block.  A
    later [create_access], with [checkCache], of an event with that path
    and a kind of the same key returns the sentinel with the group it
    was given: the policy engine is not asked again and nothing is added
    to the effects or to the cache. *)
Theorem create_access_suppresses_duplicate w o syscallName event
    syscallName' event' reportGroup reportGroup' (checkCache : bool) :
  let first := create_access w syscallName event reportGroup checkCache o in
  let second :=
    create_access w syscallName' event' reportGroup' true first.2 in
  (forall attempt, try_lock_for w attempt = true) ->
  disposed_ o = false ->
  strlen (ev_dstPath event) = 0 ->
  ev_eventType event <> ES_EVENT_TYPE_NOTIFY_FORK ->
  ev_eventType event <> ES_EVENT_TYPE_NOTIFY_EXEC ->
  ev_eventType event <> ES_EVENT_TYPE_NOTIFY_EXIT ->
  is_anonymous_file (ev_srcPath event) = false ->
  IsEnabled w (if ev_pid event =? 0 then getpid w else ev_pid event) = true ->
  ShouldDenyAccess (CheckAccessAndBuildReport w event reportGroup).1
  && IsFailingUnexpectedAccesses w = false ->
  ev_srcPath event' = ev_srcPath event ->
  coalesce (ev_eventType event') = coalesce (ev_eventType event) ->
  strlen (ev_dstPath event') = 0 ->
  ev_eventType event' <> ES_EVENT_TYPE_NOTIFY_FORK ->
  ev_eventType event' <> ES_EVENT_TYPE_NOTIFY_EXEC ->
  ev_eventType event' <> ES_EVENT_TYPE_NOTIFY_EXIT ->
  second.1 = Returns (sNotChecked w, reportGroup')
  /\ effects second.2 = effects first.2
  /\ cache_ second.2 = cache_ first.2.
Proof.
  intros first second Hlock Hd Hdst Hfork Hexec Hexit Hanon Henabled Hallowed
    Hpath Hkey Hdst' Hfork' Hexec' Hexit'.
  destruct (create_access_records w o syscallName event reportGroup checkCache)
    as (Hrec & Hd' & _); try done.
  rewrite <- Hpath, <- Hkey in Hrec.
  destruct (create_access_hit w first.2 syscallName' event' reportGroup')
    as (Hret & Heff & Hcache & _); done.
Qed.

Lemma create_access_suppresses_duplicate_witness :
  (forall attempt, try_lock_for calm_world attempt = true)
  /\ (create_access calm_world "chmod" (setmode_event "/out/a.o") no_reports
        true
        (create_access calm_world "truncate" (truncate_event "/out/a.o")
           no_reports true (fresh_observer false [])).2).1
     = Returns (sNotChecked calm_world, no_reports).
Proof.
  assert (Hlock : forall attempt, try_lock_for calm_world attempt = true)
    by (intros attempt; reflexivity).
  split; [exact Hlock|].
  apply (create_access_suppresses_duplicate calm_world (fresh_observer false [])
           "truncate" (truncate_event "/out/a.o")
           "chmod" (setmode_event "/out/a.o") no_reports no_reports true);
    first [exact Hlock | reflexivity | discriminate].
Defined.

(** X2.  Fork, exec and exit events, and events with a second path, are
    checked every time.  Whatever the cache holds, and with or without
    [checkCache], [create_access] of such an event (no anonymous file,
    sandbox enabled for the process) asks the policy engine and returns
    its answer. *)
Theorem create_access_never_skips_uncached_kinds w o syscallName event
    reportGroup (checkCache : bool) :
  let run := create_access w syscallName event reportGroup checkCache o in
  (ev_eventType event = ES_EVENT_TYPE_NOTIFY_FORK
   \/ ev_eventType event = ES_EVENT_TYPE_NOTIFY_EXEC
   \/ ev_eventType event = ES_EVENT_TYPE_NOTIFY_EXIT
   \/ 0 < strlen (ev_dstPath event)) ->
  is_anonymous_file (ev_srcPath event) = false ->
  is_anonymous_file (ev_dstPath event) = false ->
  IsEnabled w (if ev_pid event =? 0 then getpid w else ev_pid event) = true ->
  run.1 = Returns (CheckAccessAndBuildReport w event reportGroup)
  /\ effects run.2 = effects o ++ [eff_policy event].
Proof.
  intros run Hkind Hsrc Hdst Henabled.
  assert (Hmiss : (if checkCache
                   then IsCacheHit w (ev_eventType event) (ev_srcPath event)
                          (ev_dstPath event)
                   else mret false) o = (Returns false, o)).
  { destruct checkCache; [|done]. unfold IsCacheHit.
    rewrite bind_eq. unfold get.
    assert (Hcond : disposed_ o || (0 <? strlen (ev_dstPath event))
              || bool_decide (ev_eventType event = ES_EVENT_TYPE_NOTIFY_FORK)
              || bool_decide (ev_eventType event = ES_EVENT_TYPE_NOTIFY_EXEC)
              || bool_decide (ev_eventType event = ES_EVENT_TYPE_NOTIFY_EXIT)
              = true).
    { destruct Hkind as [H|[H|[H|H]]].
      - rewrite (bool_decide_eq_true_2 _ H). by rewrite !orb_true_r.
      - rewrite (bool_decide_eq_true_2 _ H). by rewrite !orb_true_r.
      - rewrite (bool_decide_eq_true_2 _ H). by rewrite !orb_true_r.
      - assert ((0 <? strlen (ev_dstPath event)) = true) as -> by lia.
        by rewrite !orb_true_r. }
    by rewrite Hcond. }
  subst run. unfold create_access. rewrite bind_eq, Hmiss.
  rewrite Hsrc, Hdst, andb_false_r. cbn [orb]. cbn zeta.
  rewrite Henabled. unfold_monad. cbn beta iota.
  destruct (CheckAccessAndBuildReport w event reportGroup) as [result group].
  destruct (negb _); cbn beta iota.
  - match goal with
    | |- context [CheckCache ?a ?b ?c ?d ?e] =>
        destruct (CheckCache_run a b c d e) as (hit & o3 & Hcheck & Heff & _)
    end.
    rewrite Hcheck. cbn. by rewrite Heff.
  - done.
Qed.

Lemma create_access_never_skips_uncached_kinds_witness :
  (ev_eventType (exec_event "/usr/bin/cc") = ES_EVENT_TYPE_NOTIFY_FORK
   \/ ev_eventType (exec_event "/usr/bin/cc") = ES_EVENT_TYPE_NOTIFY_EXEC
   \/ ev_eventType (exec_event "/usr/bin/cc") = ES_EVENT_TYPE_NOTIFY_EXIT
   \/ 0 < strlen (ev_dstPath (exec_event "/usr/bin/cc")))
  /\ (create_access calm_world "execve" (exec_event "/usr/bin/cc") no_reports
        true
        (create_access calm_world "execve" (exec_event "/usr/bin/cc")
           no_reports true (fresh_observer false [])).2).1
     = Returns (allowed, no_reports).
Proof.
  assert (Hkind :
    ev_eventType (exec_event "/usr/bin/cc") = ES_EVENT_TYPE_NOTIFY_FORK
    \/ ev_eventType (exec_event "/usr/bin/cc") = ES_EVENT_TYPE_NOTIFY_EXEC
    \/ ev_eventType (exec_event "/usr/bin/cc") = ES_EVENT_TYPE_NOTIFY_EXIT
    \/ 0 < strlen (ev_dstPath (exec_event "/usr/bin/cc")))
    by (right; left; reflexivity).
  split; [exact Hkind|].
  apply (create_access_never_skips_uncached_kinds calm_world _ "execve"
           (exec_event "/usr/bin/cc") no_reports true Hkind);
    reflexivity.
Defined.

(** X3.  An access that is blocked (the engine denies it and the sandbox
    fails denied accesses) is not put in the cache: [create_access]
    returns the engine's answer with the cache as it was. *)
Theorem create_access_blocked_not_cached w o syscallName event reportGroup
    (checkCache : bool) :
  let run := create_access w syscallName event reportGroup checkCache o in
  ShouldDenyAccess (CheckAccessAndBuildReport w event reportGroup).1 = true ->
  IsFailingUnexpectedAccesses w = true ->
  cache_ run.2 = cache_ o
  /\ (run.1 = Returns (sNotChecked w, reportGroup)
      \/ run.1 = Returns (CheckAccessAndBuildReport w event reportGroup)).
Proof.
  intros run Hdeny Hfail. subst run. unfold create_access. rewrite bind_eq.
  assert (Hlook : exists hit o',
    (if checkCache
     then IsCacheHit w (ev_eventType event) (ev_srcPath event)
            (ev_dstPath event)
     else mret false) o = (Returns hit, o') /\ cache_ o' = cache_ o).
  { destruct checkCache; [|by exists false, o].
    destruct (IsCacheHit_reads_only w (ev_eventType event) (ev_srcPath event)
                (ev_dstPath event) o) as (hit & o' & Hrun & Hcache & _).
    by exists hit, o'. }
  destruct Hlook as (hit & o' & -> & Hcache).
  destruct hit; [by auto|].
  destruct (_ || _); [by auto|]. cbn zeta.
  destruct (IsEnabled w _); [|by auto].
  unfold_monad. cbn beta iota.
  destruct (CheckAccessAndBuildReport w event reportGroup) as [result group].
  cbn [fst] in Hdeny. rewrite Hdeny, Hfail. cbn. by auto.
Qed.

Lemma create_access_blocked_not_cached_witness :
  ShouldDenyAccess
    (CheckAccessAndBuildReport strict_world (open_event "/etc/passwd")
       no_reports).1 = true
  /\ IsFailingUnexpectedAccesses strict_world = true
  /\ cache_ (create_access strict_world "open" (open_event "/etc/passwd")
               no_reports true (fresh_observer false [])).2
     = cache_ (fresh_observer false []).
Proof.
  split; [reflexivity|]. split; [reflexivity|].
  exact (proj1 (create_access_blocked_not_cached strict_world
                  (fresh_observer false []) "open"
                  (open_event "/etc/passwd") no_reports true
                  eq_refl eq_refl)).
Defined.

Lemma cache_lookup_run w event path secondPath (checkCache : bool) o :
  exists hit o',
    (if checkCache then IsCacheHit w event path secondPath else mret false) o
    = (Returns hit, o')
    /\ cache_ o' = cache_ o /\ effects o' = effects o.
Proof.
  destruct checkCache; [|by exists false, o].
  destruct (IsCacheHit_reads_only w event path secondPath o)
    as (hit & o' & Hrun & Hcache & Heff & _).
  by exists hit, o'.
Qed.

(** X4.  Anonymous files are passed over.  When the path of an event, or
    its second path, begins with "/memfd:", [create_access] returns the
    sentinel: the policy engine is not asked, and the effects and the
    cache are as before. *)
Theorem create_access_skips_anonymous_file w o syscallName event
    reportGroup (checkCache : bool) :
  let run := create_access w syscallName event reportGroup checkCache o in
  (is_anonymous_file (ev_srcPath event) = true
   \/ is_anonymous_file (ev_dstPath event) = true) ->
  run.1 = Returns (sNotChecked w, reportGroup)
  /\ effects run.2 = effects o
  /\ cache_ run.2 = cache_ o.
Proof.
  intros run Hanon. subst run. unfold create_access. rewrite bind_eq.
  destruct (cache_lookup_run w (ev_eventType event) (ev_srcPath event)
              (ev_dstPath event) checkCache o)
    as (hit & o' & -> & Hcache & Heff).
  destruct hit; [done|].
  assert (Hskip : is_anonymous_file (ev_srcPath event)
                  || (0 <? strlen (ev_dstPath event))
                     && is_anonymous_file (ev_dstPath event) = true).
  { destruct Hanon as [->| Hdst]; [done|]. rewrite Hdst.
    assert (Hlen : (0 <? strlen (ev_dstPath event)) = true).
    { destruct (ev_dstPath event) as [|c rest]; [discriminate Hdst|].
      unfold strlen.
      change (String.length (String c rest)) with (S (String.length rest)).
      apply Z.ltb_lt. lia. }
    rewrite Hlen. by rewrite orb_true_r. }
  by rewrite Hskip.
Qed.

Lemma create_access_skips_anonymous_file_witness :
  (is_anonymous_file (ev_srcPath (open_event "/memfd:jit (deleted)")) = true
   \/ is_anonymous_file (ev_dstPath (open_event "/memfd:jit (deleted)")) = true)
  /\ (create_access calm_world "open" (open_event "/memfd:jit (deleted)")
        no_reports true (fresh_observer false [])).1
     = Returns (sNotChecked calm_world, no_reports).
Proof.
  split; [left; reflexivity|].
  exact (proj1 (create_access_skips_anonymous_file calm_world
                  (fresh_observer false []) "open"
                  (open_event "/memfd:jit (deleted)") no_reports true
                  (or_introl eq_refl))).
Defined.

(** X5.  Sockets, pipes and the like are passed over.  When the mode
    ([get_mode] of the path if the caller gave 0) is that of a non-file,
    [create_access_internal] returns the sentinel: the policy engine is
    not asked, and the effects and the cache are as before. *)
Theorem create_access_internal_skips_non_file w o syscallName eventType
    reportPath secondPath reportGroup mode (checkCache : bool) associatedPid :
  let run :=
    create_access_internal w syscallName eventType reportPath secondPath
      reportGroup mode checkCache associatedPid o in
  is_non_file (if mode =? 0 then get_mode w reportPath else mode) = true ->
  run.1 = Returns (sNotChecked w, reportGroup)
  /\ effects run.2 = effects o
  /\ cache_ run.2 = cache_ o.
Proof.
  intros run Hmode. subst run. unfold create_access_internal.
  rewrite bind_eq.
  destruct (cache_lookup_run w eventType reportPath (default "" secondPath)
              checkCache o) as (hit & o' & -> & Hcache & Heff).
  destruct hit; [done|]. cbn zeta. by rewrite Hmode.
Qed.

Lemma create_access_internal_skips_non_file_witness :
  is_non_file (if S_IFSOCK + 420 =? 0 then get_mode calm_world "/run/x.sock"
               else S_IFSOCK + 420) = true
  /\ (create_access_internal calm_world "connect" ES_EVENT_TYPE_NOTIFY_WRITE
        "/run/x.sock" None no_reports (S_IFSOCK + 420) true 0
        (fresh_observer false [])).1
     = Returns (sNotChecked calm_world, no_reports).
Proof.
  split; [reflexivity|].
  exact (proj1 (create_access_internal_skips_non_file calm_world
                  (fresh_observer false []) "connect"
                  ES_EVENT_TYPE_NOTIFY_WRITE "/run/x.sock" None no_reports
                  (S_IFSOCK + 420) true 0 eq_refl)).
Defined.

(** X6.  Nothing leaves the cache.  A path recorded under a key before a
    [create_access] is recorded under it afterwards, whatever the event,
    the answer of the engine and the luck with the mutex. *)
Theorem create_access_keeps_cache w o syscallName event reportGroup
    (checkCache : bool) key path :
  recorded key path (cache_ o) ->
  recorded key path
    (cache_ (create_access w syscallName event reportGroup checkCache o).2).
Proof.
  intros Hrec. unfold create_access. rewrite bind_eq.
  destruct (cache_lookup_run w (ev_eventType event) (ev_srcPath event)
              (ev_dstPath event) checkCache o)
    as (hit & o' & -> & Hcache & Heff).
  rewrite <- Hcache in Hrec.
  destruct hit; [done|].
  destruct (_ || _); [done|]. cbn zeta.
  destruct (IsEnabled w _); [|done].
  unfold_monad. cbn beta iota.
  destruct (CheckAccessAndBuildReport w event reportGroup) as [result group].
  destruct (negb _); cbn beta iota; [|done].
  match goal with
  | |- context [CheckCache ?a ?b ?c ?d ?e] =>
      destruct (try_lock_for a (lock_attempts e)) eqn:Hlock;
      [rewrite (CheckCache_locked a b c d e Hlock)
      |rewrite (CheckCache_timeout a b c d e Hlock)]
  end; cbn.
  - by apply cache_probe_keeps.
  - done.
Qed.

Lemma create_access_keeps_cache_witness :
  recorded ES_EVENT_TYPE_NOTIFY_OPEN "/out/a.o" (cache_ warm_observer)
  /\ recorded ES_EVENT_TYPE_NOTIFY_OPEN "/out/a.o"
       (cache_ (create_access calm_world "open" (open_event "/out/b.o")
                  no_reports true warm_observer).2).
Proof.
  assert (Hrec : recorded ES_EVENT_TYPE_NOTIFY_OPEN "/out/a.o"
                   (cache_ warm_observer)).
  { exists {[ "/out/a.o" ]}. split; [apply lookup_singleton_eq|].
    by apply elem_of_singleton. }
  split; [exact Hrec|].
  exact (create_access_keeps_cache calm_world warm_observer "open"
           (open_event "/out/b.o") no_reports true
           ES_EVENT_TYPE_NOTIFY_OPEN "/out/a.o" Hrec).
Defined.

(** ** The descriptor table, from the callers' side *)

(** A descriptor with a path in the table, the table in use. *)
Lemma fd_to_path_from_table w o fd associatedPid path :
  0 <= fd < MAX_FD w ->
  useFdTable_ o = true ->
  fdTable_ o !! Z.to_nat fd = Some path ->
  path <> "" ->
  fd_to_path w fd associatedPid o = (Returns path, o).
Proof.
  intros Hfd Huse Hentry Hpath. unfold fd_to_path.
  assert (Hcond : (fd <? 0) || (fd >=? MAX_FD w) = false) by lia.
  rewrite Hcond, bind_eq. unfold get. rewrite Huse, Hentry.
  cbn [andb from_option id].
  assert (Hlen : (0 <? strlen path) = true).
  { destruct path as [|c rest]; [done|]. unfold strlen.
    change (String.length (String c rest)) with (S (String.length rest)).
    apply Z.ltb_lt. lia. }
  by rewrite Hlen.
Qed.

(** What [fd_to_path] leaves behind when it returns a path: the path is
    in the table, and nothing else of the observer changed but the
    effects. *)
Lemma fd_to_path_remembers w o fd associatedPid path o' :
  0 <= fd < MAX_FD w ->
  fd_table_sized w o ->
  useFdTable_ o = true ->
  fd_to_path w fd associatedPid o = (Returns path, o') ->
  path <> "" ->
  fdTable_ o' !! Z.to_nat fd = Some path
  /\ useFdTable_ o' = true
  /\ cache_ o' = cache_ o
  /\ disposed_ o' = disposed_ o
  /\ progFullPath_ o' = progFullPath_ o.
Proof.
  intros Hfd Hsized Huse Hrun Hpath.
  unfold fd_to_path in Hrun.
  assert (Hcond : (fd <? 0) || (fd >=? MAX_FD w) = false) by lia.
  rewrite Hcond, bind_eq in Hrun. unfold get in Hrun.
  rewrite Huse in Hrun. cbn [andb] in Hrun.
  destruct (fdTable_ o !! Z.to_nat fd) as [cached|] eqn:Hcached;
    cbn [from_option id] in Hrun.
  - destruct (0 <? strlen cached) eqn:Hlen.
    + unfold mret, M_ret, ret in Hrun. by simplify_eq.
    + rewrite bind_eq, read_path_for_fd_run in Hrun.
      destruct (real_readlink w (procPath fd associatedPid)) as [target|];
        unfold_monad; cbn in Hrun.
      * destruct (strlen target =? -1) eqn:Hneg;
          [pose proof (strlen_nonneg target); lia|].
        cbn in Hrun. simplify_eq. cbn. split; [|done].
        apply list_lookup_insert_eq. by apply lookup_lt_Some in Hcached.
      * by simplify_eq.
  - apply lookup_ge_None in Hcached. unfold fd_table_sized in Hsized. lia.
Qed.

(** X7.  A path once resolved is served from the table.  For a
    descriptor inside the table, with the table in use, when
    [fd_to_path] has returned a path that is not empty, the next
    [fd_to_path] of that descriptor returns the same path without asking
    [readlink], whatever the file system says by then and whatever
    process is named. *)
Theorem fd_to_path_served_from_table w w' o fd associatedPid associatedPid'
    path o' :
  0 <= fd < MAX_FD w ->
  MAX_FD w' = MAX_FD w ->
  fd_table_sized w o ->
  useFdTable_ o = true ->
  fd_to_path w fd associatedPid o = (Returns path, o') ->
  path <> "" ->
  fd_to_path w' fd associatedPid' o' = (Returns path, o').
Proof.
  intros Hfd Hmax Hsized Huse Hrun Hpath.
  destruct (fd_to_path_remembers w o fd associatedPid path o')
    as (Hentry & Huse' & _); try done.
  apply fd_to_path_from_table; [lia|done|done|done].
Qed.

Lemma fd_to_path_served_from_table_witness :
  0 <= 5 < MAX_FD fd5_world
  /\ MAX_FD calm_world = MAX_FD fd5_world
  /\ fd_table_sized fd5_world (fresh_observer false [])
  /\ useFdTable_ (fresh_observer false []) = true
  /\ "/src/a.c" <> ""
  /\ fd_to_path calm_world 5 0
       (fd_to_path fd5_world 5 0 (fresh_observer false [])).2
     = (Returns "/src/a.c",
        (fd_to_path fd5_world 5 0 (fresh_observer false [])).2).
Proof.
  assert (Hfd : 0 <= 5 < MAX_FD fd5_world)
    by (change (MAX_FD fd5_world) with 1024; lia).
  assert (Hsized : fd_table_sized fd5_world (fresh_observer false []))
    by reflexivity.
  assert (Hpath : "/src/a.c" <> "") by discriminate.
  repeat (split; [first [assumption | reflexivity]|]).
  apply (fd_to_path_served_from_table fd5_world calm_world
           (fresh_observer false []) 5 0 0 "/src/a.c"
           (fd_to_path fd5_world 5 0 (fresh_observer false [])).2
           Hfd eq_refl Hsized eq_refl);
    [reflexivity|exact Hpath].
Defined.

(** When the table has nothing for a descriptor, [fd_to_path] asks. *)
Lemma fd_to_path_asks w o fd associatedPid :
  default "" (fdTable_ o !! Z.to_nat fd) = ""
  \/ useFdTable_ o = false \/ fd < 0 \/ MAX_FD w <= fd ->
  let run := fd_to_path w fd associatedPid o in
  run.1 = Returns (default "" (real_readlink w (procPath fd associatedPid)))
  /\ effects run.2 = effects o ++ [eff_readlink (procPath fd associatedPid)].
Proof.
  intros Hempty run. subst run. unfold fd_to_path.
  destruct ((fd <? 0) || (fd >=? MAX_FD w)) eqn:Hcond.
  - rewrite bind_eq, read_path_for_fd_run.
    by destruct (real_readlink w _).
  - rewrite bind_eq. unfold get.
    assert (Hskip : useFdTable_ o
                    && (0 <? strlen (default "" (fdTable_ o !! Z.to_nat fd)))
                    = false).
    { destruct Hempty as [->|[->|Hout]]; [by rewrite andb_false_r|done|lia]. }
    rewrite Hskip, bind_eq, read_path_for_fd_run.
    destruct (real_readlink w _) as [target|]; cbn beta iota.
    + destruct (negb (strlen target =? -1) && useFdTable_ o);
        unfold_monad; by cbn.
    + by cbn.
Qed.

(** X8.  After [reset_fd_table_entry] the descriptor is resolved anew:
    the next [fd_to_path] asks [readlink] and returns its answer (the
    empty path if it fails), whatever the table held before. *)
Theorem fd_to_path_after_reset_entry w o fd associatedPid :
  let run := fd_to_path w fd associatedPid (reset_fd_table_entry w fd o).2 in
  run.1 = Returns (default "" (real_readlink w (procPath fd associatedPid)))
  /\ effects run.2 = effects o ++ [eff_readlink (procPath fd associatedPid)].
Proof.
  intros run. subst run. unfold reset_fd_table_entry.
  destruct ((0 <=? fd) && (fd <? MAX_FD w)) eqn:Hin.
  - unfold_monad. cbn [snd].
    set (o1 := set_fdTable_ _ o).
    change (effects o) with (effects o1).
    apply fd_to_path_asks. left. subst o1. cbn [fdTable_ set_fdTable_].
    destruct (decide (Z.to_nat fd < List.length (fdTable_ o))%nat).
    + by rewrite list_lookup_insert_eq.
    + rewrite lookup_ge_None_2; [done|]. rewrite length_insert. lia.
  - unfold_monad. cbn [snd]. apply fd_to_path_asks. right. right. lia.
Qed.


(** The loop of [reset_fd_table] over [n] indices keeps the size of the
    table and empties the entries below [n]. *)
Lemma reset_loop_length n : forall table : list string,
  List.length (foldl (fun table i => <[i := ""]> table) table (seq 0 n))
  = List.length table.
Proof.
  induction n as [|n IH]; intros table; [done|].
  rewrite seq_S, foldl_app. cbn [foldl]. by rewrite length_insert.
Qed.

Lemma reset_loop_lookup n : forall (table : list string) i,
  foldl (fun table i => <[i := ""]> table) table (seq 0 n) !! i
  = if decide (i < n)%nat then (fun _ => "") <$> table !! i else table !! i.
Proof.
  induction n as [|n IH]; intros table i.
  - cbn. by destruct (decide _); [lia|].
  - rewrite seq_S, foldl_app. cbn [foldl Nat.add].
    destruct (decide (i = n)) as [->|Hne].
    + destruct (decide (n < S n)%nat); [|lia].
      destruct (decide (n < List.length table)%nat) as [Hin|Hout].
      * rewrite list_lookup_insert_eq by (by rewrite reset_loop_length).
        apply lookup_lt_is_Some_2 in Hin as [x ->]. done.
      * rewrite !lookup_ge_None_2; [done|lia|].
        rewrite length_insert, reset_loop_length. lia.
    + rewrite list_lookup_insert_ne by done. rewrite IH.
      destruct (decide (i < n)%nat), (decide (i < S n)%nat); [done|lia|lia|done].
Qed.

(** X9.  [reset_fd_table] forgets every descriptor and keeps the size
    of the table: afterwards [fd_to_path] asks [readlink] for whatever
    descriptor it is given. *)
Theorem reset_fd_table_forgets_all w o fd associatedPid :
  let o1 := (reset_fd_table w o).2 in
  let run := fd_to_path w fd associatedPid o1 in
  List.length (fdTable_ o1) = List.length (fdTable_ o)
  /\ run.1 = Returns (default "" (real_readlink w (procPath fd associatedPid)))
  /\ effects run.2 = effects o ++ [eff_readlink (procPath fd associatedPid)].
Proof.
  intros o1 run. subst o1 run. unfold reset_fd_table. unfold_monad.
  cbn [snd]. set (o1 := set_fdTable_ _ o).
  split; [subst o1; cbn [fdTable_ set_fdTable_]; apply reset_loop_length|].
  change (effects o) with (effects o1).
  apply fd_to_path_asks.
  destruct (decide (0 <= fd < MAX_FD w)) as [Hin|Hout]; [left|right; right; lia].
  subst o1. cbn [fdTable_ set_fdTable_]. rewrite reset_loop_lookup.
  destruct (decide (Z.to_nat fd < Z.to_nat (MAX_FD w))%nat); [|lia].
  by destruct (fdTable_ o !! Z.to_nat fd).
Qed.

(** X10.  The descriptor [Send] opened for the pipe is forgotten once the
    report is out: when [Send] returns, the next [fd_to_path] of that
    descriptor asks [readlink], even if the table held a path for it. *)
Theorem Send_forgets_its_descriptor w o o' buf bufsiz (useSecondaryPipe : bool)
    (result : bool) associatedPid :
  let reportsPath :=
    if useSecondaryPipe then secondaryReportPath_ o else reportsPath_ o in
  let logFd := real_open w reportsPath in
  Send w buf bufsiz useSecondaryPipe o = (Returns result, o') ->
  let run := fd_to_path w logFd associatedPid o' in
  run.1 = Returns (default "" (real_readlink w (procPath logFd associatedPid)))
  /\ effects run.2 = effects o' ++ [eff_readlink (procPath logFd associatedPid)].
Proof.
  intros reportsPath logFd Hsend.
  unfold Send in Hsend.
  destruct (real_open_resolved w); cbn [negb] in Hsend; [|done].
  destruct (bufsiz >? PIPE_BUF); [done|].
  rewrite bind_eq in Hsend. unfold get in Hsend.
  fold reportsPath in Hsend. fold logFd in Hsend.
  destruct (logFd =? -1); [done|].
  rewrite bind_eq in Hsend. unfold emit, modify in Hsend.
  destruct (to_size_t _ <? bufsiz); [done|].
  rewrite bind_eq in Hsend.
  set (o1 := set_effects _ o) in Hsend.
  unfold reset_fd_table_entry in Hsend.
  destruct ((0 <=? logFd) && (logFd <? MAX_FD w)) eqn:Hin;
    unfold_monad; simplify_eq; apply fd_to_path_asks.
  - left. cbn [fdTable_ set_fdTable_].
    destruct (decide (Z.to_nat logFd < List.length (fdTable_ o1))%nat).
    + by rewrite list_lookup_insert_eq.
    + rewrite lookup_ge_None_2; [done|]. rewrite length_insert. lia.
  - right. right. lia.
Qed.

Lemma Send_forgets_its_descriptor_witness :
  Send calm_world "ping" 4 false stale_observer
  = (Returns true, (Send calm_world "ping" 4 false stale_observer).2)
  /\ (fd_to_path calm_world 7 0
        (Send calm_world "ping" 4 false stale_observer).2).1
     = Returns "".
Proof.
  assert (Hsend : Send calm_world "ping" 4 false stale_observer
                  = (Returns true,
                     (Send calm_world "ping" 4 false stale_observer).2))
    by reflexivity.
  split; [exact Hsend|].
  exact (proj1 (Send_forgets_its_descriptor calm_world stale_observer _
                  "ping" 4 false true 0 Hsend)).
Defined.

(** X11.  With the table disabled by [disable_fd_table], [fd_to_path] asks
    [readlink] every time, and neither reads the table nor writes it. *)
Theorem fd_to_path_without_table w o fd associatedPid :
  let run := fd_to_path w fd associatedPid (disable_fd_table o).2 in
  run.1 = Returns (default "" (real_readlink w (procPath fd associatedPid)))
  /\ effects run.2 = effects o ++ [eff_readlink (procPath fd associatedPid)]
  /\ fdTable_ run.2 = fdTable_ o
  /\ useFdTable_ run.2 = false.
Proof.
  intros run. subst run. unfold disable_fd_table. unfold_monad. cbn [snd].
  set (o1 := set_useFdTable_ false o).
  destruct (fd_to_path_asks w o1 fd associatedPid) as [Hret Heff];
    [by right; left|].
  split; [done|]. split; [done|].
  unfold fd_to_path.
  destruct ((fd <? 0) || (fd >=? MAX_FD w)).
  - rewrite bind_eq, read_path_for_fd_run.
    by destruct (real_readlink w _).
  - rewrite bind_eq. unfold get. cbn [useFdTable_ o1 set_useFdTable_ andb].
    rewrite bind_eq, read_path_for_fd_run.
    destruct (real_readlink w _); cbn beta iota;
      rewrite ?andb_false_r; unfold_monad; by cbn.
Qed.

(** ** Sending *)

(** X12.  What [Send] makes of the answer of [write], once the pipe is
    open and the buffer is no larger than [PIPE_BUF]: a short write is
    fatal; any other answer returns [true].  The answer is compared with
    [bufsiz] as an unsigned number, so a failed write (a negative answer)
    is among those that return [true]. *)
Theorem Send_outcome_by_write_result w o buf bufsiz (useSecondaryPipe : bool) :
  let reportsPath :=
    if useSecondaryPipe then secondaryReportPath_ o else reportsPath_ o in
  let logFd := real_open w reportsPath in
  let bytes := String.substring 0 (Z.to_nat bufsiz) buf in
  let numWritten := real_write w logFd bytes bufsiz in
  real_open_resolved w = true ->
  0 <= bufsiz <= PIPE_BUF ->
  logFd <> -1 ->
  - 2 ^ 63 <= numWritten < 2 ^ 63 ->
  (Send w buf bufsiz useSecondaryPipe o).1
  = if decide (0 <= numWritten < bufsiz)
    then Fatal "Wrote only part of the buffer"
    else Returns true.
Proof.
  intros reportsPath logFd bytes numWritten Hopen Hsize Hfd Hrange.
  unfold Send. rewrite Hopen. cbn [negb].
  destruct (bufsiz >? PIPE_BUF) eqn:Hgt; [lia|].
  rewrite bind_eq. unfold get. fold reportsPath. fold logFd.
  destruct (logFd =? -1) eqn:Hfd'; [lia|].
  fold bytes. fold numWritten. rewrite bind_eq. unfold emit, modify.
  assert (Hcmp : (to_size_t numWritten <? bufsiz)
                 = bool_decide (0 <= numWritten < bufsiz)).
  { unfold to_size_t, PIPE_BUF in *.
    destruct (decide (0 <= numWritten)) as [Hpos|Hneg].
    - rewrite Z.mod_small by lia.
      destruct (decide (numWritten < bufsiz)).
      + rewrite bool_decide_eq_true_2 by lia. lia.
      + rewrite bool_decide_eq_false_2 by lia. lia.
    - rewrite bool_decide_eq_false_2 by lia.
      replace (numWritten mod 2 ^ 64) with (numWritten + 2 ^ 64).
      + lia.
      + symmetry. rewrite <- (Z.mod_add numWritten 1 (2 ^ 64)) by lia.
        rewrite Z.mod_small; lia. }
  rewrite Hcmp.
  destruct (decide (0 <= numWritten < bufsiz)) as [Hshort|Hfull].
  - by rewrite bool_decide_eq_true_2.
  - rewrite bool_decide_eq_false_2 by done.
    unfold reset_fd_table_entry.
    destruct (_ && _); by unfold_monad.
Qed.

Lemma Send_outcome_by_write_result_witness :
  (Send broken_pipe_world "ping" 4 false (fresh_observer false [])).1
  = Returns true.
Proof.
  apply (Send_outcome_by_write_result broken_pipe_world
           (fresh_observer false []) "ping" 4 false);
    [reflexivity | unfold PIPE_BUF; lia | discriminate
    | change (- 2 ^ 63 <= -1 < 2 ^ 63); lia].
Defined.

(** X13.  A report whose record fits the atomic capacity is sent whole,
    debug message or not: when the pipe opens and takes what it is given,
    [SendReport] returns [true] after one write, on the pipe chosen, of
    the four bytes of the length followed by the record, terminator left
    out; the write is never larger than [PIPE_BUF]. *)
Theorem SendReport_writes_fitting_record w o report isDebugMessage
    (useSecondaryPipe : bool) :
  let record := report_record w report (path report) in
  let reportsPath :=
    if useSecondaryPipe then secondaryReportPath_ o else reportsPath_ o in
  operation report <> kOpProcessTreeCompleted ->
  strlen record < atomic_capacity ->
  real_open_resolved w = true ->
  real_open w reportsPath <> -1 ->
  (forall bytes count,
     real_write w (real_open w reportsPath) bytes count = count) ->
  exists o',
    SendReport w report isDebugMessage useSecondaryPipe o = (Returns true, o')
    /\ effects o' =
       effects o ++
       [eff_write reportsPath (real_open w reportsPath)
          (le32 (strlen record) +:+ record) (strlen record + 4)]
    /\ strlen (le32 (strlen record) +:+ record) = strlen record + 4
    /\ strlen record + 4 <= PIPE_BUF
    /\ cache_ o' = cache_ o.
Proof.
  intros record reportsPath Hop Hfit Hopen Hfd Hwrite.
  destruct (SendReport_fitting_succeeds w report isDebugMessage
              useSecondaryPipe o Hop Hfit Hopen Hfd Hwrite)
    as (o' & Hrun & Heff).
  exists o'. split; [done|]. split; [done|]. split; [|split].
  - rewrite strlen_append. unfold le32, strlen. cbn. lia.
  - unfold atomic_capacity in Hfit. fold record in Hfit. lia.
  - destruct (SendReport_effects w report isDebugMessage useSecondaryPipe o)
      as (_ & Hcache & _).
    cbn zeta in Hcache. by rewrite Hrun in Hcache.
Qed.

Lemma SendReport_writes_fitting_record_witness :
  exists o',
    SendReport calm_world (plain_report (kOpOther 0) "/src/a.c") false false
      (fresh_observer false [])
    = (Returns true, o')
    /\ cache_ o' = cache_ (fresh_observer false []).
Proof.
  destruct (SendReport_writes_fitting_record calm_world
              (fresh_observer false []) (plain_report (kOpOther 0) "/src/a.c")
              false false)
    as (o' & Hrun & _ & _ & _ & Hcache);
    [discriminate | by vm_compute | reflexivity | discriminate | reflexivity |].
  exists o'. by split.
Defined.

Lemma Send_same_settings w buf bufsiz (useSecondaryPipe : bool) o :
  same_settings o (Send w buf bufsiz useSecondaryPipe o).2.
Proof.
  unfold Send, same_settings. unfold_monad.
  destruct (real_open_resolved w); cbn [negb]; [|done].
  destruct (bufsiz >? PIPE_BUF); [done|].
  destruct (real_open w _ =? -1); [done|].
  cbn. destruct (to_size_t _ <? bufsiz); cbn; [done|].
  unfold reset_fd_table_entry. unfold_monad.
  by destruct (_ && _).
Qed.

Lemma SendReport_same_settings w report isDebugMessage
    (useSecondaryPipe : bool) o :
  same_settings o (SendReport w report isDebugMessage useSecondaryPipe o).2.
Proof.
  unfold SendReport.
  destruct (bool_decide (operation report = kOpProcessTreeCompleted));
    [done|].
  cbn zeta. rewrite bind_eq.
  destruct (_ >=? _).
  - destruct isDebugMessage; cbn [negb]; [|done].
    destruct (_ <=? 0); [done|]. apply Send_same_settings.
  - apply Send_same_settings.
Qed.

(** X14.  [SendReport] of a group writes on the primary pipe only, at
    most once for each report of the group that is marked for sending;
    it never touches the duplicate cache. *)
Theorem SendReportGroup_primary_pipe_only w o report :
  let o' := (SendReportGroup w report o).2 in
  exists writes,
    effects o' = effects o ++ writes
    /\ (List.length writes <= marked_reports report)%nat
    /\ Forall (writes_on (reportsPath_ o)) writes
    /\ cache_ o' = cache_ o.
Proof.
  intros o'. subst o'. unfold SendReportGroup, marked_reports.
  assert (Hone : forall r o1,
    let o2 := ((if shouldReport r then SendReport w r false false
                else mret true) o1).2 in
    exists writes,
      effects o2 = effects o1 ++ writes
      /\ (List.length writes <= if shouldReport r then 1 else 0)%nat
      /\ Forall (writes_on (reportsPath_ o1)) writes
      /\ cache_ o2 = cache_ o1 /\ reportsPath_ o2 = reportsPath_ o1).
  { intros r o1. destruct (shouldReport r).
    - destruct (SendReport_effects w r false false o1) as (Heff & Hcache & _).
      destruct (SendReport_same_settings w r false false o1) as (_ & Hpath & _).
      cbn zeta in *.
      destruct Heff as [Heff|(fd & bytes & n & Heff)].
      + exists []. rewrite app_nil_r.
        repeat split; [done|cbn; lia|constructor|done|done].
      + exists [eff_write (reportsPath_ o1) fd bytes n].
        repeat split; [done|cbn; lia| |done|done].
        apply Forall_singleton. by exists fd, bytes, n.
    - exists []. cbn. rewrite app_nil_r.
      repeat split; [lia|constructor]. }
  destruct (Hone (firstReport report) o)
    as (ws1 & Heff1 & Hlen1 & Hon1 & Hcache1 & Hpath1).
  rewrite bind_eq.
  destruct ((if shouldReport (firstReport report)
             then SendReport w (firstReport report) false false
             else mret true) o) as [[r1| | |] o1];
    cbn [fst snd] in *;
    try (exists ws1; repeat split; [done|lia|done|done]).
  destruct (Hone (secondReport report) o1)
    as (ws2 & Heff2 & Hlen2 & Hon2 & Hcache2 & Hpath2).
  rewrite bind_eq.
  destruct ((if shouldReport (secondReport report)
             then SendReport w (secondReport report) false false
             else mret true) o1) as [[r2| | |] o2];
    unfold mret, M_ret, ret; cbn [fst snd] in *;
    exists (ws1 ++ ws2);
    (repeat split;
     [by rewrite Heff2, Heff1, app_assoc
     |rewrite length_app; lia
     |apply Forall_app; split; [done|by rewrite <- Hpath1]
     |congruence]).
Qed.

(** ** Static linking, continued *)

(** The frame of the sequence that grants the permission and reports. *)
Lemma grant_then_report_frame {A} w report (a : A) o :
  let run :=
    (set_ptrace_permissions w;; SendReport w report false true;; mret a) o in
  (forall r, run.1 = Returns r -> r = a)
  /\ same_settings o run.2
  /\ staticallyLinkedProcessCache_ run.2 = staticallyLinkedProcessCache_ o
  /\ exists new, effects run.2 = effects o ++ new
                 /\ forall p, eff_objdump p ∉ new.
Proof.
  intros run. subst run. unfold set_ptrace_permissions.
  unfold_monad. cbn.
  set (granted := eff_prctl_set_ptracer (prctl_set_ptracer w)).
  destruct (prctl_set_ptracer w =? -1).
  - cbn. repeat split; try done.
    exists [granted]. split; [done|]. intros p Hin.
    apply list_elem_of_singleton in Hin. done.
  - set (o1 := set_effects (effects o ++ [granted]) o).
    destruct (SendReport_effects w report false true o1) as (Heff & _ & Hcache).
    pose proof (SendReport_same_settings w report false true o1) as Hsame.
    cbn zeta in Heff, Hcache.
    destruct (SendReport w report false true o1) as [[r| | |] o2];
      cbn [fst snd] in *;
      (split; [intros r' Hr'; by simplify_eq|]);
      (split; [exact Hsame|]); (split; [exact Hcache|]);
      (destruct Heff as [Heff|(fd & bytes & n & Heff)];
       [exists [granted]; split; [exact Heff|];
        intros p Hin; apply list_elem_of_singleton in Hin; done
       |exists [granted; eff_write (secondaryReportPath_ o) fd bytes n];
        split; [rewrite Heff; subst o1; cbn; by rewrite <- app_assoc|];
        intros p Hin; apply elem_of_cons in Hin as [Hin|Hin]; [done|];
        apply list_elem_of_singleton in Hin; done]).
Qed.

Lemma find_key_app (key : string) (cache : list (string * bool)) linked :
  find (fun item : string * bool => bool_decide (item.1 = key)) cache = None ->
  find (fun item : string * bool => bool_decide (item.1 = key))
       (cache ++ [(key, linked)]) = Some (key, linked).
Proof.
  induction cache as [|item cache IH]; cbn [app find].
  - intros _. cbn [fst]. by rewrite bool_decide_eq_true_2.
  - destruct (bool_decide (item.1 = key)); [done|]. exact IH.
Qed.

(** Once the decision has returned for a path that is not forced, the
    verdict is remembered under the path and its modification time, and
    the settings the decision reads are as before. *)
Lemma verdict_remembered w o o1 path verdict :
  EnableLinuxPTraceSandbox (pip_ o) = true ->
  IsPTraceForced o path
  || UnconditionallyEnableLinuxPTraceSandbox (pip_ o) = false ->
  check_and_report_statically_linked_process w path o = (Returns verdict, o1) ->
  same_settings o o1
  /\ exists item,
       find (fun item : string * bool =>
               bool_decide (item.1 = dec (lstat_mtime w path) +:+ ":" +:+ path))
            (staticallyLinkedProcessCache_ o1) = Some item
       /\ item.2 = verdict.
Proof.
  intros Henabled Hforced Hrun.
  unfold check_and_report_statically_linked_process in Hrun.
  rewrite bind_eq in Hrun. unfold get in Hrun.
  rewrite Henabled, Hforced in Hrun. cbn [negb] in Hrun.
  set (report := statically_linked_report w o path) in Hrun.
  set (key := dec (lstat_mtime w path) +:+ ":" +:+ path) in *.
  destruct (find _ (staticallyLinkedProcessCache_ o)) as [item|] eqn:Hfind.
  - rewrite bind_eq in Hrun. unfold mret at 1, M_ret, ret at 1 in Hrun.
    cbn beta iota in Hrun. rewrite bind_eq in Hrun.
    destruct item.2 eqn:Hverdict.
    + destruct (grant_then_report_frame w report tt o)
        as (_ & Hsame & Hcache & _).
      cbn zeta in Hsame, Hcache.
      destruct ((set_ptrace_permissions w;; SendReport w report false true;;
                 mret tt) o) as [[[]| | |] o2]; try done.
      cbn [fst snd] in *. unfold mret, M_ret, ret in Hrun. simplify_eq.
      split; [done|]. exists item. by rewrite Hcache.
    + unfold mret, M_ret, ret in Hrun. simplify_eq.
      split; [done|]. by exists item.
  - rewrite bind_eq in Hrun. fold key in Hrun.
    rewrite inspect_and_remember in Hrun. cbn zeta in Hrun.
    set (linked := contains _ _ && negb (contains _ _)) in Hrun.
    set (o2 := set_staticallyLinkedProcessCache_ _ _) in Hrun.
    cbn beta iota in Hrun. rewrite bind_eq in Hrun.
    assert (Hfound : find (fun item : string * bool => bool_decide (item.1 = key))
                       (staticallyLinkedProcessCache_ o2) = Some (key, linked))
      by (by apply find_key_app).
    assert (Hsame2 : same_settings o o2) by done.
    destruct linked eqn:Hlinked.
    + destruct (grant_then_report_frame w report tt o2)
        as (_ & Hsame & Hcache & _).
      cbn zeta in Hsame, Hcache.
      destruct ((set_ptrace_permissions w;; SendReport w report false true;;
                 mret tt) o2) as [[[]| | |] o3]; try done.
      cbn [fst snd] in *. unfold mret, M_ret, ret in Hrun. simplify_eq.
      split; [done|]. exists (key, true). by rewrite Hcache.
    + unfold mret, M_ret, ret in Hrun. simplify_eq.
      split; [done|]. by exists (key, false).
Qed.

(** X15.  A verdict is reused.  Once the decision has returned for a
    path that is not forced, a later decision about that path, with the
    modification time unchanged, never runs objdump, whatever objdump
    would say by then; if it returns, it returns the verdict of before;
    and for a binary found not statically linked it does nothing at all. *)
Theorem verdict_is_reused w w' o o1 path verdict :
  EnableLinuxPTraceSandbox (pip_ o) = true ->
  IsPTraceForced o path
  || UnconditionallyEnableLinuxPTraceSandbox (pip_ o) = false ->
  check_and_report_statically_linked_process w path o = (Returns verdict, o1) ->
  lstat_mtime w' path = lstat_mtime w path ->
  let run := check_and_report_statically_linked_process w' path o1 in
  (forall r, run.1 = Returns r -> r = verdict)
  /\ (exists new, effects run.2 = effects o1 ++ new
                  /\ forall p, eff_objdump p ∉ new)
  /\ (verdict = false -> run = (Returns false, o1)).
Proof.
  intros Henabled Hforced Hrun Hmtime run.
  destruct (verdict_remembered w o o1 path verdict Henabled Hforced Hrun)
    as ((Hpip & _ & _ & Hnames & _) & item & Hfind & Hverdict).
  assert (Hforced1 : IsPTraceForced o1 path = IsPTraceForced o path)
    by (unfold IsPTraceForced; by rewrite Hnames).
  assert (Hagain :
    run = ((if verdict
            then set_ptrace_permissions w';;
                 SendReport w' (statically_linked_report w' o1 path) false true;;
                 mret tt
            else mret tt);; mret verdict) o1).
  { subst run. unfold check_and_report_statically_linked_process.
    rewrite bind_eq. unfold get.
    rewrite Hpip, Henabled, Hforced1, Hforced, Hmtime, Hfind. cbn [negb].
    rewrite bind_eq. unfold mret at 1, M_ret, ret at 1.
    cbn beta iota. by rewrite Hverdict. }
  rewrite Hagain, bind_eq. clear Hagain run.
  destruct verdict.
  - destruct (grant_then_report_frame w' (statically_linked_report w' o1 path)
                tt o1) as (_ & _ & _ & Hnew).
    cbn zeta in Hnew.
    destruct ((set_ptrace_permissions w';; SendReport w' _ false true;;
               mret tt) o1) as [[[]| | |] o2];
      unfold mret, M_ret, ret; cbn [fst snd] in *;
      (split; [intros r Hr; by simplify_eq|]); by split.
  - unfold mret, M_ret, ret. cbn [fst snd].
    split; [intros r Hr; by simplify_eq|]. split; [|done].
    exists []. split; [by rewrite app_nil_r|]. intros p Hin.
    by apply elem_of_nil in Hin.
Qed.

Lemma verdict_is_reused_witness :
  (check_and_report_statically_linked_process no_objdump_world "/bin/busybox"
     (check_and_report_statically_linked_process busybox_world "/bin/busybox"
        (fresh_observer false [])).2).1
  = Returns true.
Proof.
  assert (Hfirst :
    check_and_report_statically_linked_process busybox_world "/bin/busybox"
      (fresh_observer false [])
    = (Returns true,
       (check_and_report_statically_linked_process busybox_world
          "/bin/busybox" (fresh_observer false [])).2))
    by (vm_compute; reflexivity).
  pose proof (verdict_is_reused busybox_world no_objdump_world
                (fresh_observer false []) _ "/bin/busybox" true
                eq_refl eq_refl Hfirst eq_refl) as (Hsame & _).
  cbn zeta in Hsame.
  destruct (check_and_report_statically_linked_process no_objdump_world
              "/bin/busybox" _).1 as [r| | |] eqn:Hrun.
  - f_equal. by apply Hsame.
  - by vm_compute in Hrun.
  - by vm_compute in Hrun.
  - by vm_compute in Hrun.
Defined.

(** X16.  The answer of the decision tells whether the permission was
    granted.  When the decision returns [true], a [prctl] call that
    succeeded is among what it did; when it returns [false], it granted
    nothing and wrote nothing: at most it ran objdump on the path. *)
Theorem traced_iff_permission_granted w o o1 path (traced : bool) :
  check_and_report_statically_linked_process w path o = (Returns traced, o1) ->
  exists new,
    effects o1 = effects o ++ new
    /\ if traced
       then eff_prctl_set_ptracer (prctl_set_ptracer w) ∈ new
            /\ prctl_set_ptracer w <> -1
       else forall e, e ∈ new -> e = eff_objdump path.
Proof.
  intros Hrun.
  assert (Hgrant : forall (A : Type) (a : A) o2 o3,
    (set_ptrace_permissions w;;
     SendReport w (statically_linked_report w o path) false true;;
     mret a) o2 = (Returns a, o3) ->
    exists new, effects o3 = effects o2 ++ new
                /\ eff_prctl_set_ptracer (prctl_set_ptracer w) ∈ new
                /\ prctl_set_ptracer w <> -1).
  { intros A a o2 o3 Hsent.
    destruct (grant_then_report w (statically_linked_report w o path) a o2)
      as [[_ Hexit]|(Hok & Heff & _)]; [congruence|].
    rewrite Hsent in Heff. cbn [snd] in Heff.
    destruct Heff as [Heff|(fd & bytes & n & Heff)];
      eexists; (split; [exact Heff|]); (split; [|done]);
      apply elem_of_cons; by left. }
  unfold check_and_report_statically_linked_process in Hrun.
  rewrite bind_eq in Hrun. unfold get in Hrun.
  destruct (EnableLinuxPTraceSandbox (pip_ o)); cbn [negb] in Hrun.
  2:{ unfold mret, M_ret, ret in Hrun. simplify_eq.
      exists []. split; [by rewrite app_nil_r|].
      intros e He. by apply elem_of_nil in He. }
  destruct (IsPTraceForced o path
            || UnconditionallyEnableLinuxPTraceSandbox (pip_ o)).
  { destruct traced.
    - destruct (Hgrant bool true o o1 Hrun) as (new & Heff & Hin & Hok).
      by exists new.
    - exfalso.
      destruct (grant_then_report_frame w (statically_linked_report w o path)
                  true o) as (Hres & _).
      cbn zeta in Hres. rewrite Hrun in Hres.
      by specialize (Hres false eq_refl). }
  set (key := dec (lstat_mtime w path) +:+ ":" +:+ path) in *.
  destruct (find _ (staticallyLinkedProcessCache_ o)) as [item|].
  - rewrite bind_eq in Hrun. unfold mret at 1, M_ret, ret at 1 in Hrun.
    cbn beta iota in Hrun. rewrite bind_eq in Hrun.
    destruct item.2.
    + destruct ((set_ptrace_permissions w;; SendReport w _ false true;;
                 mret tt) o) as [[[]| | |] o2] eqn:Hsent; try done.
      unfold mret, M_ret, ret in Hrun. simplify_eq.
      destruct (Hgrant unit tt o o1 Hsent) as (new & Heff & Hin & Hok).
      by exists new.
    + unfold mret, M_ret, ret in Hrun. simplify_eq.
      exists []. split; [by rewrite app_nil_r|].
      intros e He. by apply elem_of_nil in He.
  - rewrite bind_eq in Hrun. fold key in Hrun.
    rewrite inspect_and_remember in Hrun. cbn zeta in Hrun.
    set (linked := contains _ _ && negb (contains _ _)) in Hrun.
    set (o2 := set_staticallyLinkedProcessCache_ _ _) in Hrun.
    cbn beta iota in Hrun. rewrite bind_eq in Hrun.
    assert (Ho2 : effects o2 = effects o ++ [eff_objdump path]) by reflexivity.
    destruct linked.
    + destruct ((set_ptrace_permissions w;; SendReport w _ false true;;
                 mret tt) o2) as [[[]| | |] o3] eqn:Hsent; try done.
      unfold mret, M_ret, ret in Hrun. simplify_eq.
      destruct (Hgrant unit tt o2 o1 Hsent) as (new & Heff & Hin & Hok).
      exists (eff_objdump path :: new). split.
      * rewrite Heff, Ho2, <- app_assoc. reflexivity.
      * split; [|done]. apply elem_of_cons. by right.
    + unfold mret, M_ret, ret in Hrun. simplify_eq.
      exists [eff_objdump path]. split; [exact Ho2|].
      intros e He. by apply list_elem_of_singleton in He.
Qed.

Lemma traced_iff_permission_granted_witness :
  exists new,
    effects (check_and_report_statically_linked_process busybox_world
               "/bin/busybox" (fresh_observer false [])).2
    = effects (fresh_observer false []) ++ new
    /\ eff_prctl_set_ptracer 0 ∈ new.
Proof.
  destruct (traced_iff_permission_granted busybox_world
              (fresh_observer false [])
              (check_and_report_statically_linked_process busybox_world
                 "/bin/busybox" (fresh_observer false [])).2
              "/bin/busybox" true)
    as (new & Heff & Hin & _); [vm_compute; reflexivity|].
  exists new. by split.
Defined.

(** ** The names that force tracing *)

Lemma substring_middle pre cur rest :
  String.substring (String.length pre) (String.length cur)
    (pre +:+ cur +:+ rest) = cur.
Proof.
  induction pre as [|c pre IH]; [|exact IH].
  change ("" +:+ cur +:+ rest) with (cur +:+ rest). apply substring_0_append.
Qed.

Lemma free_of_snoc c cur d :
  free_of c cur -> d <> c -> free_of c (cur +:+ String d "").
Proof.
  unfold free_of. induction cur as [|x cur IH]; cbn; intros Hfree Hd Hin.
  - apply list_elem_of_singleton in Hin. congruence.
  - apply elem_of_cons in Hin as [->|Hin].
    + apply Hfree. by left.
    + apply IH; [|done|done]. intros Hcur. apply Hfree. by right.
Qed.

Lemma scan_forced_names_spec rest : forall pre cur,
  free_of ";" cur ->
  let names :=
    scan_forced_names (pre +:+ cur +:+ rest) (String.length pre)
      (String.length pre + String.length cur) rest in
  join_names ";" names = cur +:+ rest
  /\ Forall (free_of ";") names
  /\ names <> [].
Proof.
  induction rest as [|c rest IH]; intros pre cur Hcur names; subst names;
    cbn [scan_forced_names].
  - replace (String.length pre + String.length cur - String.length pre)%nat
      with (String.length cur) by lia.
    rewrite substring_middle. cbn [join_names]. repeat split; [|by constructor|done].
    clear. induction cur as [|x cur IH]; [done|]. cbn. by f_equal.
  - replace (String.length pre + String.length cur - String.length pre)%nat
      with (String.length cur) by lia.
    destruct (Ascii.eqb c ";") eqn:Hc.
    + apply Ascii.eqb_eq in Hc as ->.
      rewrite substring_middle.
      specialize (IH (pre +:+ cur +:+ ";") "").
      rewrite !length_append in IH.
      change (String.length ";") with 1%nat in IH.
      change (String.length "") with 0%nat in IH.
      rewrite Nat.add_0_r in IH.
      replace (S (String.length pre + String.length cur))
        with (String.length pre + String.length cur + 1)%nat by lia.
      replace ((pre +:+ cur +:+ ";") +:+ "" +:+ rest)
        with (pre +:+ cur +:+ String ";" rest) in IH.
      2:{ rewrite !append_assoc. reflexivity. }
      rewrite Nat.add_assoc in IH.
      destruct IH as (Hjoin & Hfree & Hne).
      { unfold free_of. cbn. by intros ?%elem_of_nil. }
      cbn [String.append] in Hjoin.
      set (names := scan_forced_names _ _ _ rest) in *.
      repeat split; [|by constructor|done].
      cbn [join_names]. destruct names as [|name names]; [done|].
      rewrite Hjoin. reflexivity.
    + apply Ascii.eqb_neq in Hc.
      specialize (IH pre (cur +:+ String c "")).
      rewrite length_append in IH.
      change (String.length (String c "")) with 1%nat in IH.
      replace (S (String.length pre + String.length cur))
        with (String.length pre + (String.length cur + 1))%nat by lia.
      replace (pre +:+ (cur +:+ String c "") +:+ rest)
        with (pre +:+ cur +:+ String c rest) in IH.
      2:{ rewrite !append_assoc. reflexivity. }
      replace ((cur +:+ String c "") +:+ rest)
        with (cur +:+ String c rest) in IH
        by (rewrite append_assoc; reflexivity).
      apply IH. by apply free_of_snoc.
Qed.

(** X17.  The names the constructor takes from the variable.  A
    variable that is not set, or is empty, leaves no names, and no path
    is forced then.  Any other value is cut at every ';' and nowhere
    else.  In every case the names, put together again with ';' between
    them, give the value back (the empty string for no value), no name
    holds a ';', and a path is forced exactly when its base name is one
    of the names. *)
Theorem forced_process_names_round_trip forcedprocesses path :
  let names := initial_forced_names forcedprocesses in
  join_names ";" names = default "" forcedprocesses
  /\ Forall (free_of ";") names
  /\ (names = [] <-> is_null_or_empty forcedprocesses = true)
  /\ (is_null_or_empty forcedprocesses = true ->
      IsPTraceForced (observer_forcing forcedprocesses) path = false)
  /\ IsPTraceForced (observer_forcing forcedprocesses) path
     = bool_decide (basename path ∈ names).
Proof.
  intros names.
  assert (Hforced : IsPTraceForced (observer_forcing forcedprocesses) path
                    = bool_decide (basename path ∈ names)).
  { unfold IsPTraceForced, observer_forcing.
    cbn [forcedPTraceProcessNames_ fresh_observer]. fold names.
    destruct names; [|done]. cbn.
    symmetry. apply bool_decide_eq_false. by intros ?%elem_of_nil. }
  subst names. unfold initial_forced_names in *.
  destruct (is_null_or_empty forcedprocesses) eqn:Hempty; cbn [negb] in *.
  - assert (Hvalue : default "" forcedprocesses = "")
      by (by destruct forcedprocesses as [[|c value]|]).
    rewrite Hvalue. split; [done|]. split; [constructor|].
    split; [done|]. split; [|done].
    intros _. rewrite Hforced.
    apply bool_decide_eq_false. by intros ?%elem_of_nil.
  - destruct forcedprocesses as [value|]; [|done].
    cbn [default from_option id] in *.
    destruct (scan_forced_names_spec value "" "") as (Hjoin & Hfree & Hne).
    { unfold free_of. cbn. by intros ?%elem_of_nil. }
    cbn [String.append String.length Nat.add] in *.
    fold (forced_process_names value) in *.
    repeat split; try done.
Qed.

Lemma forced_process_names_round_trip_witness :
  initial_forced_names (Some "ld;gcc") = ["ld"; "gcc"]
  /\ IsPTraceForced (observer_forcing (Some "ld;gcc")) "/usr/bin/gcc" = true
  /\ IsPTraceForced (observer_forcing (Some "")) "" = false.
Proof.
  split; [reflexivity|]. split.
  - destruct (forced_process_names_round_trip (Some "ld;gcc") "/usr/bin/gcc")
      as (_ & _ & _ & _ & ->).
    apply bool_decide_eq_true. apply list_elem_of_In. vm_compute. auto.
  - by apply (forced_process_names_round_trip (Some "") "").
Defined.

(** ** The text of a debug message *)

Lemma sanitize_char_safe c : breaks_record (sanitize_char c) = false.
Proof.
  unfold sanitize_char, breaks_record.
  destruct (Ascii.eqb c "|") eqn:Hbar; cbn zeta.
  - reflexivity.
  - destruct (Ascii.eqb c line_feed) eqn:Hlf; [reflexivity|].
    destruct (Ascii.eqb c carriage_return) eqn:Hcr; [reflexivity|].
    cbn [orb]. by rewrite Hbar, Hlf, Hcr.
Qed.

Lemma sanitize_char_keeps c : breaks_record c = false -> sanitize_char c = c.
Proof.
  unfold sanitize_char, breaks_record. intros Hc.
  destruct (Ascii.eqb c "|"); [done|]. cbn zeta.
  by destruct (Ascii.eqb c line_feed), (Ascii.eqb c carriage_return).
Qed.

Lemma get_sanitize i : forall s,
  String.get i (sanitize s) = sanitize_char <$> String.get i s.
Proof.
  induction i as [|i IH]; intros [|c s]; cbn; try done.
Qed.

Lemma get_substring_0 n : forall i s,
  (i < n)%nat -> String.get i (String.substring 0 n s) = String.get i s.
Proof.
  induction n as [|n IH]; intros i s Hi; [lia|].
  destruct s as [|c s]; [done|]. destruct i as [|i]; [done|].
  cbn. apply IH. lia.
Qed.

Lemma length_sanitize s : String.length (sanitize s) = String.length s.
Proof. induction s as [|c s IH]; cbn; [done|]. by rewrite IH. Qed.

Lemma length_substring_0_min n : forall s,
  String.length (String.substring 0 n s) = Nat.min n (String.length s).
Proof.
  induction n as [|n IH]; intros [|c s]; cbn; try done. by rewrite IH.
Qed.

(** X18.  What [LogDebug] puts in the path of a debug report: the
    message cut to [MAXPATHLEN - 1] characters, with no '|', line feed or
    carriage return left in it, and with every other character where it
    was. *)
Theorem debug_message_path_sanitized formatted :
  let path := debug_message_path formatted in
  strlen path = Z.min (MAXPATHLEN - 1) (strlen formatted)
  /\ (forall i c, String.get i path = Some c -> breaks_record c = false)
  /\ (forall i c,
        (Z.of_nat i < MAXPATHLEN - 1) ->
        String.get i formatted = Some c ->
        String.get i path
        = Some (if breaks_record c then sanitize_char c else c)).
Proof.
  intros path. subst path. unfold debug_message_path, vsnprintf.
  repeat split.
  - unfold strlen. rewrite length_sanitize, length_substring_0_min.
    unfold MAXPATHLEN, PATH_MAX. lia.
  - intros i c. rewrite get_sanitize.
    destruct (String.get i _) as [d|]; [|done].
    cbn. intros [= <-]. apply sanitize_char_safe.
  - intros i c Hi Hget. rewrite get_sanitize, get_substring_0 by lia.
    rewrite Hget. cbn. f_equal.
    destruct (breaks_record c) eqn:Hc; [done|]. by apply sanitize_char_keeps.
Qed.

(** ** The command line of a process *)

Lemma join_arguments_argument arg : forall rest cmdLine,
  free_of zero arg ->
  join_arguments (arg +:+ NUL +:+ rest) false false cmdLine
  = join_arguments rest true false (cmdLine +:+ arg).
Proof.
  induction arg as [|c arg IH]; intros rest cmdLine Hfree.
  - cbn. f_equal. clear. induction cmdLine as [|x l IH]; cbn; [done|by f_equal].
  - change ((String c arg) +:+ NUL +:+ rest)
      with (String c (arg +:+ NUL +:+ rest)).
    cbn [join_arguments andb].
    destruct (Ascii.eqb c zero) eqn:Hc.
    + apply Ascii.eqb_eq in Hc as ->. exfalso. apply Hfree. cbn. by left.
    + rewrite IH.
      * f_equal. rewrite append_assoc. reflexivity.
      * intros Hin. apply Hfree. cbn. by right.
Qed.

Lemma join_arguments_head arg rest (firstArg : bool) cmdLine :
  free_of zero arg ->
  join_arguments (arg +:+ NUL +:+ rest) true firstArg cmdLine
  = join_arguments rest true false
      ((if firstArg then cmdLine else cmdLine +:+ " ") +:+ arg).
Proof.
  intros Hfree. destruct arg as [|c arg].
  - cbn. destruct firstArg; cbn; f_equal.
    + clear. induction cmdLine as [|x l IH]; cbn; [done|by f_equal].
    + clear. induction (cmdLine +:+ " ") as [|x l IH]; cbn; [done|by f_equal].
  - change ((String c arg) +:+ NUL +:+ rest)
      with (String c (arg +:+ NUL +:+ rest)).
    cbn [join_arguments].
    destruct (Ascii.eqb c zero) eqn:Hc.
    + apply Ascii.eqb_eq in Hc as ->. exfalso. apply Hfree. cbn. by left.
    + rewrite join_arguments_argument.
      * f_equal. rewrite append_assoc.
        by destruct firstArg.
      * intros Hin. apply Hfree. cbn. by right.
Qed.

Lemma join_arguments_proc_cmdline args : forall (firstArg : bool) cmdLine,
  Forall (free_of zero) args ->
  args <> [] ->
  join_arguments (proc_cmdline args) true firstArg cmdLine
  = (if firstArg then cmdLine else cmdLine +:+ " ") +:+ join_names " " args.
Proof.
  induction args as [|arg args IH]; intros firstArg cmdLine Hfree Hne; [done|].
  apply Forall_cons in Hfree as [Harg Hargs].
  cbn [proc_cmdline]. rewrite join_arguments_head by done.
  destruct args as [|arg' args].
  - reflexivity.
  - rewrite IH by done.
    change (join_names " " (arg :: arg' :: args))
      with (arg +:+ " " +:+ join_names " " (arg' :: args)).
    by rewrite !append_assoc.
Qed.

Lemma ends_with_terminator_proc_cmdline args :
  args <> [] -> ends_with_terminator (proc_cmdline args) = true.
Proof.
  intros Hne. unfold ends_with_terminator.
  assert (Hlist : forall s t,
    list_ascii_of_string (s +:+ t)
    = list_ascii_of_string s ++ list_ascii_of_string t).
  { clear. induction s as [|c s IH]; intros t; cbn; [done|]. by rewrite IH. }
  assert (Hlast : last (list_ascii_of_string (proc_cmdline args)) = Some zero).
  { induction args as [|arg args IH]; [done|].
    cbn [proc_cmdline]. rewrite Hlist.
    change (NUL +:+ proc_cmdline args) with (String zero (proc_cmdline args)).
    cbn [list_ascii_of_string]. rewrite last_app_cons, last_cons.
    destruct args as [|arg' args]; [done|]. by rewrite IH. }
  by rewrite Hlast.
Qed.

(** X19.  [report_exec_args] reports the arguments of the process with
    one space between them.  When /proc/<pid>/cmdline holds the
    arguments, each followed by its terminator, and the record fits the
    atomic capacity, one record is written on the primary pipe, and its
    path is the arguments joined by spaces. *)
Theorem report_exec_args_joins_arguments w o pid args :
  let cmdLine := join_names " " args in
  let record :=
    report_record w (command_line_report w o pid cmdLine) cmdLine in
  Forall (free_of zero) args ->
  strlen record < atomic_capacity ->
  real_open_resolved w = true ->
  real_open w (reportsPath_ o) <> -1 ->
  (forall bytes count,
     real_write w (real_open w (reportsPath_ o)) bytes count = count) ->
  exists o',
    report_exec_args w true (Some (proc_cmdline args)) pid o = (Returns tt, o')
    /\ effects o' =
       effects o ++
       [eff_write (reportsPath_ o) (real_open w (reportsPath_ o))
          (le32 (strlen record) +:+ record) (strlen record + 4)].
Proof.
  intros cmdLine record Hargs Hfit Hopen Hfd Hwrite.
  assert (Hline : command_line (Some (proc_cmdline args)) = Some cmdLine).
  { unfold command_line. destruct args as [|arg args].
    - reflexivity.
    - rewrite ends_with_terminator_proc_cmdline by done.
      rewrite andb_false_r. f_equal.
      by rewrite join_arguments_proc_cmdline. }
  unfold report_exec_args. rewrite Hline, bind_eq. unfold get.
  set (report := command_line_report w o pid cmdLine).
  assert (Hshort : strlen cmdLine < MAXPATHLEN - 1).
  { subst record. rewrite strlen_report_record in Hfit.
    pose proof (strlen_nonneg (report_record w report "")).
    unfold report_overhead, atomic_capacity, PIPE_BUF, MAXPATHLEN, PATH_MAX in *.
    fold report in Hfit. lia. }
  assert (Hpath : path report = cmdLine).
  { subst report. cbn [path command_line_report]. unfold strlcpy.
    apply substring_0_all. unfold strlen in Hshort. lia. }
  destruct (SendReport_fitting_succeeds w report false false o)
    as (o' & Hrun & Heff); try done.
  { by rewrite Hpath. }
  rewrite bind_eq, Hrun. exists o'. split; [done|].
  rewrite Heff, Hpath. reflexivity.
Qed.

Lemma report_exec_args_joins_arguments_witness :
  exists o',
    report_exec_args calm_world true
      (Some (proc_cmdline ["gcc"; "-c"; "a.c"])) 4242 (fresh_observer false [])
    = (Returns tt, o')
    /\ effects o' =
       [eff_write "/tmp/bxl.fifo" 7
          (le32 44 +:+ "4|4242|4200|1|1|1|0|77|gcc -c a.c|0|0|0|0|0" +:+ newline)
          48].
Proof.
  destruct (report_exec_args_joins_arguments calm_world
              (fresh_observer false []) 4242 ["gcc"; "-c"; "a.c"])
    as (o' & Hrun & Heff).
  - repeat constructor; unfold free_of; cbn; intros Hin;
      repeat (apply elem_of_cons in Hin as [Hin|Hin]; [discriminate|]);
      by apply elem_of_nil in Hin.
  - by vm_compute.
  - reflexivity.
  - discriminate.
  - reflexivity.
  - exists o'. split; [exact Hrun|]. rewrite Heff. reflexivity.
Defined.

(** ** Resolving a path, continued *)

Lemma readlink_reports_asks effects p :
  readlink_reports (effects ++ [asks_readlink p]) = readlink_reports effects.
Proof. unfold readlink_reports. rewrite omap_app. cbn. by rewrite app_nil_r. Qed.

Lemma readlink_reports_reports effects p :
  readlink_reports (effects ++ [reports_readlink p])
  = readlink_reports effects ++ [p].
Proof. unfold readlink_reports. by rewrite omap_app. Qed.

Lemma readlink_queries_asks effects p :
  readlink_queries (effects ++ [asks_readlink p]) = readlink_queries effects ++ [p].
Proof. unfold readlink_queries. by rewrite omap_app. Qed.

Lemma readlink_queries_reports effects p :
  readlink_queries (effects ++ [reports_readlink p]) = readlink_queries effects.
Proof. unfold readlink_queries. rewrite omap_app. cbn. by rewrite app_nil_r. Qed.

(** The reports stay sound when the walk moves, with or without a query. *)
Lemma reports_sound_moved readlink s buf p (asked : bool) current :
  reports_sound readlink s ->
  reports_sound readlink
    {| fullpath := buf; pFullpath := p; visited := visited s;
       path_effects :=
         if asked then path_effects s ++ [asks_readlink current]
         else path_effects s |}.
Proof.
  intros (Hnodup & Hvisited & Hlinks). unfold reports_sound.
  cbn [path_effects visited].
  destruct asked; [|done].
  rewrite readlink_reports_asks, readlink_queries_asks.
  split; [done|]. split; [done|].
  intros q Hq. destruct (Hlinks q Hq) as [Hasked Hlink].
  split; [|done]. apply elem_of_app. by left.
Qed.

(** A link not yet visited is reported once, after it was asked about. *)
Lemma reports_sound_reported readlink s buf p current target :
  reports_sound readlink s ->
  readlink current = Some target ->
  current ∉ visited s ->
  reports_sound readlink
    {| fullpath := buf; pFullpath := p;
       visited := {[ current ]} ∪ visited s;
       path_effects :=
         (path_effects s ++ [asks_readlink current])
         ++ [reports_readlink current] |}.
Proof.
  intros (Hnodup & Hvisited & Hlinks) Hlink Hfresh. unfold reports_sound.
  cbn [path_effects visited].
  rewrite readlink_reports_reports, readlink_queries_reports,
    readlink_reports_asks, readlink_queries_asks.
  split; [|split].
  - apply NoDup_app. split; [done|]. split; [|apply NoDup_singleton].
    intros q Hq Hq'. apply list_elem_of_singleton in Hq' as ->.
    apply Hfresh. by apply Hvisited.
  - intros q. rewrite elem_of_app, list_elem_of_singleton, elem_of_union,
      elem_of_singleton, Hvisited. tauto.
  - intros q Hq. apply elem_of_app in Hq as [Hq|Hq].
    + destruct (Hlinks q Hq) as [Hasked Hlinked].
      split; [|done]. apply elem_of_app. by left.
    + apply list_elem_of_singleton in Hq as ->.
      split; [|by exists target]. apply elem_of_app. right.
      by apply list_elem_of_singleton.
Qed.

Lemma resolve_step_reports_sound readlink followFinalSymlink s :
  reports_sound readlink s ->
  match resolve_step readlink followFinalSymlink s with
  | Continue s' | Break s' => reports_sound readlink s'
  | OutOfBounds => True
  end.
Proof.
  intros Hsound. unfold resolve_step.
  destruct (collapse (fullpath s) (pFullpath s)) as [[[buf' p']|]|]; [| |done].
  { by apply (reports_sound_moved readlink s buf' p' false ""). }
  set (ch := char_at (fullpath s) (pFullpath s)).
  set (current := string_of_list_ascii (take (pFullpath s) (fullpath s))).
  set (asked := Ascii.eqb ch slash || (Ascii.eqb ch zero && followFinalSymlink)).
  destruct asked eqn:Hasked.
  - destruct (readlink current) as [target|] eqn:Hlink.
    + destruct (bool_decide (current ∈ visited s)) eqn:Hvisited.
      { by apply (reports_sound_moved readlink s _ _ true current). }
      apply bool_decide_eq_false in Hvisited.
      match goal with
      | |- context [if ?bounds then OutOfBounds else _] => destruct bounds
      end; [done|].
      destruct (Ascii.eqb (char_at _ 0) slash).
      { by apply (reports_sound_reported readlink s _ _ current target). }
      destruct (find_prev_slash _ _); [|done].
      destruct (PATH_MAX <=? _); [done|].
      by apply (reports_sound_reported readlink s _ _ current target).
    + destruct (Ascii.eqb ch zero);
        by apply (reports_sound_moved readlink s _ _ true current).
  - destruct (Ascii.eqb ch zero);
      by apply (reports_sound_moved readlink s _ _ false current).
Qed.

Lemma resolve_loop_reports_sound readlink followFinalSymlink fuel : forall s s',
  reports_sound readlink s ->
  resolve_loop fuel readlink followFinalSymlink s = Some (Break s') ->
  reports_sound readlink s'.
Proof.
  induction fuel as [|fuel IH]; intros s s' Hsound Hrun; [done|].
  cbn [resolve_loop] in Hrun.
  pose proof (resolve_step_reports_sound readlink followFinalSymlink s Hsound)
    as Hstep.
  destruct (resolve_step readlink followFinalSymlink s) as [s1|s1|];
    [by apply (IH s1)|by simplify_eq|done].
Qed.

(** X20.  The links [resolve_path] reports.  Whatever the file system
    and the path, when [resolve_path] returns, no path was reported
    twice as a link read, every path reported was asked about, and
    [readlink] answers for each of them. *)
Theorem resolve_path_reports_links_once fuel readlink path
    (followFinalSymlink : bool) resolved effects :
  resolve_path fuel readlink path followFinalSymlink = Some (resolved, effects) ->
  NoDup (readlink_reports effects)
  /\ forall p, p ∈ readlink_reports effects ->
       p ∈ readlink_queries effects /\ exists target, readlink p = Some target.
Proof.
  unfold resolve_path. intros Hrun.
  destruct (negb _).
  { simplify_eq. split; [constructor|]. intros p Hp. by apply elem_of_nil in Hp. }
  destruct (resolve_loop _ _ _ _) as [[s|s|]|] eqn:Hloop; try done.
  simplify_eq.
  apply resolve_loop_reports_sound in Hloop as (Hnodup & _ & Hlinks); [done|].
  split; [constructor|]. split.
  - intros p. cbn. rewrite elem_of_nil. set_solver.
  - intros p Hp. by apply elem_of_nil in Hp.
Qed.

Lemma resolve_path_reports_links_once_witness :
  resolve_path 20 cycle_links "/x/f" true
  = Some ("/x", [asks_readlink "/x"; reports_readlink "/x";
                 asks_readlink "/y"; reports_readlink "/y";
                 asks_readlink "/x"])
  /\ NoDup ["/x"; "/y"].
Proof.
  assert (Hrun : resolve_path 20 cycle_links "/x/f" true
                 = Some ("/x", [asks_readlink "/x"; reports_readlink "/x";
                                asks_readlink "/y"; reports_readlink "/y";
                                asks_readlink "/x"]))
    by (vm_compute; reflexivity).
  split; [exact Hrun|].
  exact (proj1 (resolve_path_reports_links_once 20 cycle_links "/x/f" true
                  _ _ Hrun)).
Defined.

(** *** Without links *)

Lemma find_prev_slash_finds buf : forall p,
  char_at buf 0 = slash ->
  (1 <= p)%nat ->
  exists q, find_prev_slash buf p = Some q /\ (q < p)%nat
            /\ char_at buf q = slash.
Proof.
  induction p as [|p IH]; intros Hroot Hp; [lia|].
  cbn [find_prev_slash].
  destruct (Ascii.eqb (char_at buf p) slash) eqn:Hc.
  - exists p. apply Ascii.eqb_eq in Hc. split; [done|]. split; [lia|done].
  - destruct p as [|p]; [rewrite Hroot in Hc; by rewrite Ascii.eqb_refl in Hc|].
    destruct IH as (q & Hq & Hlt & Hslash); [done|lia|].
    exists q. split; [done|]. split; [lia|done].
Qed.

Lemma char_at_inside buf p :
  char_at buf p <> zero -> (p < List.length buf)%nat.
Proof.
  unfold char_at. intros Hc.
  destruct (buf !! p) eqn:Hp; [by apply lookup_lt_Some in Hp|done].
Qed.

(** The string with the characters from [from] up to [p] removed. *)
Lemma walk_inside_removed buf from p :
  char_at buf 0 = slash ->
  Forall (fun c => c <> zero) buf ->
  (1 <= from <= p)%nat ->
  (p < List.length buf)%nat ->
  let buf' := take from buf ++ drop (S p) buf in
  char_at buf' 0 = slash
  /\ Forall (fun c => c <> zero) buf'
  /\ List.length buf' = (List.length buf - (S p - from))%nat.
Proof.
  intros Hroot Hbuf Hfrom Hp buf'. subst buf'. repeat split.
  - unfold char_at in *. rewrite lookup_app_l by (rewrite length_take; lia).
    by rewrite lookup_take_lt by lia.
  - apply Forall_app. split; [by apply Forall_take|by apply Forall_drop].
  - rewrite length_app, length_take, length_drop. lia.
Qed.

Lemma removed_closer s p' :
  walk_inside s ->
  (1 <= p' <= pFullpath s)%nat ->
  (pFullpath s < List.length (fullpath s))%nat ->
  closer s
    (at_position (take p' (fullpath s) ++ drop (S (pFullpath s)) (fullpath s))
       p' s).
Proof.
  intros (Hroot & Hp & Hbuf) Hp' Hlen.
  destruct (walk_inside_removed (fullpath s) p' (pFullpath s))
    as (Hroot' & Hbuf' & Hlen'); [done|done|done|done|].
  unfold closer, walk_inside, turns_left.
  cbn [fullpath pFullpath path_effects at_position]. rewrite Hlen'.
  repeat split; [done|lia|lia|done|lia|lia].
Qed.

Lemma shift_left_back buf p p' n :
  n = (S p - p')%nat ->
  (1 <= p' <= p)%nat ->
  (p < List.length buf)%nat ->
  Forall (fun c => c <> zero) buf ->
  shift_left buf (p + 1) n = take p' buf ++ drop (S p) buf.
Proof.
  intros -> Hp' Hp Hbuf. rewrite shift_left_removes by (done || lia).
  f_equal; f_equal; lia.
Qed.

(** The first part of a turn, inside a string: it never leaves the
    string, and what it removes are the characters from the new place of
    the walk up to the old one. *)
Lemma collapse_removes s :
  walk_inside s ->
  match collapse (fullpath s) (pFullpath s) with
  | None => False
  | Some None => True
  | Some (Some (buf', p')) =>
      (1 <= p' <= pFullpath s)%nat
      /\ (pFullpath s < List.length (fullpath s))%nat
      /\ buf' = take p' (fullpath s) ++ drop (S (pFullpath s)) (fullpath s)
  end.
Proof.
  intros Hwalk. pose proof Hwalk as (Hroot & Hp & Hbuf).
  unfold collapse.
  destruct (Ascii.eqb (char_at (fullpath s) (pFullpath s)) slash) eqn:Hc;
    [|done].
  apply Ascii.eqb_eq in Hc.
  assert (Hlen : (pFullpath s < List.length (fullpath s))%nat).
  { apply char_at_inside. by rewrite Hc. }
  destruct (find_prev_slash_finds (fullpath s) (pFullpath s))
    as (q & -> & Hq & Hslash); [done|lia|].
  destruct (pFullpath s - q - 1 =? 0)%nat eqn:Hzero.
  { apply Nat.eqb_eq in Hzero.
    rewrite (shift_left_back _ _ (pFullpath s)) by (done || lia).
    split; [lia|done]. }
  destruct ((pFullpath s - q - 1 =? 1)%nat
            && Ascii.eqb (char_at (fullpath s) (pFullpath s - 1)) dot) eqn:Hone.
  { apply andb_true_iff in Hone as [Hone _]. apply Nat.eqb_eq in Hone.
    rewrite (shift_left_back _ _ (pFullpath s - 1)) by (done || lia).
    split; [lia|done]. }
  destruct ((pFullpath s - q - 1 =? 2)%nat
            && Ascii.eqb (char_at (fullpath s) (pFullpath s - 1)) dot
            && Ascii.eqb (char_at (fullpath s) (pFullpath s - 2)) dot) eqn:Htwo;
    [|done].
  apply andb_true_iff in Htwo as [Htwo _].
  apply andb_true_iff in Htwo as [Htwo _]. apply Nat.eqb_eq in Htwo.
  destruct (0 <? q)%nat eqn:Hq0.
  - apply Nat.ltb_lt in Hq0.
    destruct (find_prev_slash_finds (fullpath s) q)
      as (q' & -> & Hq' & Hslash'); [done|lia|].
    rewrite (shift_left_back _ _ (q' + 1)) by (done || lia).
    split; [lia|done].
  - rewrite (shift_left_back _ _ (q + 1)) by (done || lia).
    split; [lia|done].
Qed.

Lemma collapse_closer s :
  walk_inside s ->
  match collapse (fullpath s) (pFullpath s) with
  | None => False
  | Some None => True
  | Some (Some (buf', p')) => closer s (at_position buf' p' s)
  end.
Proof.
  intros Hwalk. pose proof (collapse_removes s Hwalk) as Hremoves.
  destruct (collapse (fullpath s) (pFullpath s)) as [[[buf' p']|]|];
    [|done|done].
  destruct Hremoves as (Hp' & Hlen & ->). by apply removed_closer.
Qed.

Lemma resolve_step_no_links readlink followFinalSymlink s :
  (forall p, readlink p = None) ->
  walk_inside s ->
  match resolve_step readlink followFinalSymlink s with
  | Continue s' => closer s s'
  | Break s' =>
      fullpath s' = fullpath s
      /\ readlink_reports (path_effects s') = readlink_reports (path_effects s)
  | OutOfBounds => False
  end.
Proof.
  intros Hnone Hwalk. pose proof (collapse_closer s Hwalk) as Hcollapse.
  unfold resolve_step.
  destruct (collapse (fullpath s) (pFullpath s)) as [[[buf' p']|]|];
    [exact Hcollapse| |done].
  cbn zeta.
  set (current := string_of_list_ascii (take (pFullpath s) (fullpath s))).
  set (ch := char_at (fullpath s) (pFullpath s)).
  assert (Hanswer : forall asked : bool,
            (if asked then readlink current else None) = None)
    by (intros []; [apply Hnone|done]).
  rewrite Hanswer.
  assert (Hreports : forall asked : bool,
            readlink_reports
              (if asked then path_effects s ++ [asks_readlink current]
               else path_effects s)
            = readlink_reports (path_effects s))
    by (intros []; [apply readlink_reports_asks|done]).
  destruct (Ascii.eqb ch zero) eqn:Hch.
  - cbn [fullpath path_effects]. by rewrite Hreports.
  - apply Ascii.eqb_neq in Hch. apply char_at_inside in Hch.
    destruct Hwalk as (Hroot & Hp & Hbuf).
    unfold closer, walk_inside, turns_left.
    cbn [fullpath pFullpath path_effects]. rewrite Hreports.
    repeat split; [done|lia|lia|done|lia|lia].
Qed.

Lemma resolve_loop_no_links readlink followFinalSymlink fuel : forall s,
  (forall p, readlink p = None) ->
  walk_inside s ->
  (turns_left s < fuel)%nat ->
  exists s',
    resolve_loop fuel readlink followFinalSymlink s = Some (Break s')
    /\ (List.length (fullpath s') <= List.length (fullpath s))%nat
    /\ char_at (fullpath s') 0 = slash
    /\ readlink_reports (path_effects s') = readlink_reports (path_effects s).
Proof.
  induction fuel as [|fuel IH]; intros s Hnone Hwalk Hfuel; [lia|].
  cbn [resolve_loop].
  pose proof (resolve_step_no_links readlink followFinalSymlink s Hnone Hwalk)
    as Hstep.
  destruct (resolve_step readlink followFinalSymlink s) as [s1|s1|];
    [| |done].
  - destruct Hstep as (Hwalk1 & Hturns & Hlen & Hreports).
    destruct (IH s1 Hnone Hwalk1) as (s' & Hrun & Hlen' & Hroot & Hreports');
      [lia|].
    exists s'. split; [done|]. split; [lia|]. split; [done|]. congruence.
  - destruct Hstep as (Hbuf & Hreports). exists s1.
    split; [done|]. rewrite Hbuf. split; [lia|]. split; [|done].
    by destruct Hwalk.
Qed.

Lemma length_list_ascii_of_string s :
  List.length (list_ascii_of_string s) = String.length s.
Proof. induction s as [|c s IH]; cbn; [done|]. by rewrite IH. Qed.

Lemma length_string_of_list_ascii l :
  String.length (string_of_list_ascii l) = List.length l.
Proof. induction l as [|c l IH]; cbn; [done|]. by rewrite IH. Qed.

(** X21.  On a file system without links [resolve_path] comes to an
    end for every absolute path, within two turns for each character of
    it: it never leaves the buffer, what it returns starts with '/' and
    is no longer than the path, and nothing is reported. *)
Theorem resolve_path_without_links readlink path (followFinalSymlink : bool)
    fuel :
  (forall p, readlink p = None) ->
  char_at (list_ascii_of_string path) 0 = slash ->
  free_of zero path ->
  (2 * String.length path <= fuel)%nat ->
  exists resolved effects,
    resolve_path fuel readlink path followFinalSymlink
    = Some (resolved, effects)
    /\ (String.length resolved <= String.length path)%nat
    /\ char_at (list_ascii_of_string resolved) 0 = slash
    /\ readlink_reports effects = [].
Proof.
  intros Hnone Hroot Hfree Hfuel. unfold resolve_path.
  rewrite Hroot. change (negb (Ascii.eqb slash slash)) with false. cbv iota.
  set (s := {| fullpath := list_ascii_of_string path; pFullpath := 1;
               visited := ∅; path_effects := [] |}).
  assert (Hlen : (1 <= String.length path)%nat).
  { destruct path; [done|cbn; lia]. }
  destruct (resolve_loop_no_links readlink followFinalSymlink fuel s)
    as (s' & -> & Hshorter & Hroot' & Hreports); [done| | |].
  - unfold walk_inside. cbn [fullpath pFullpath s].
    rewrite length_list_ascii_of_string. split; [done|]. split; [lia|].
    apply Forall_forall. intros c Hc ->. by apply Hfree.
  - unfold turns_left. cbn [fullpath pFullpath s].
    rewrite length_list_ascii_of_string. lia.
  - exists (string_of_list_ascii (fullpath s')), (path_effects s').
    split; [done|].
    rewrite length_string_of_list_ascii, list_ascii_of_string_of_list_ascii.
    cbn [fullpath s] in Hshorter.
    rewrite length_list_ascii_of_string in Hshorter. by repeat split.
Qed.

Lemma resolve_path_without_links_witness :
  exists resolved effects,
    resolve_path 30 no_links "/a/./b//c/../d" true = Some (resolved, effects)
    /\ (String.length resolved <= 14)%nat.
Proof.
  destruct (resolve_path_without_links no_links "/a/./b//c/../d" true 30)
    as (resolved & effects & Hrun & Hlen & _).
  - reflexivity.
  - reflexivity.
  - unfold free_of. cbn. intros Hin.
    repeat (apply elem_of_cons in Hin as [Hin|Hin]; [discriminate|]).
    by apply elem_of_nil in Hin.
  - cbn. lia.
  - exists resolved, effects. by split.
Defined.

Lemma find_prev_slash_nearest buf : forall p q,
  find_prev_slash buf p = Some q ->
  (q < p)%nat /\ char_at buf q = slash
  /\ forall i, (q < i < p)%nat -> char_at buf i <> slash.
Proof.
  induction p as [|p IH]; intros q Hfind; [done|].
  cbn [find_prev_slash] in Hfind.
  destruct (Ascii.eqb (char_at buf p) slash) eqn:Hc.
  - simplify_eq. apply Ascii.eqb_eq in Hc.
    split; [lia|]. split; [done|]. intros i Hi. lia.
  - apply Ascii.eqb_neq in Hc.
    destruct (IH q Hfind) as (Hq & Hslash & Hnearest).
    split; [lia|]. split; [done|]. intros i Hi.
    destruct (decide (i = p)) as [->|Hne]; [done|]. apply Hnearest. lia.
Qed.

(** The first part of a turn lets pass only what is no such segment. *)
Lemma collapse_passes buf p :
  char_at buf 0 = slash ->
  (1 <= p)%nat ->
  collapse buf p = Some None ->
  dot_segment_at buf p = false.
Proof.
  intros Hroot Hp Hpass. unfold collapse in Hpass. unfold dot_segment_at.
  destruct (Ascii.eqb (char_at buf p) slash) eqn:Hc; [|done].
  cbn [andb].
  destruct (find_prev_slash buf p) as [q|] eqn:Hfind; [|done].
  apply find_prev_slash_nearest in Hfind as (Hq & Hslash & Hnearest).
  destruct (p - q - 1 =? 0)%nat eqn:Hzero; [done|].
  apply Nat.eqb_neq in Hzero.
  assert (Hprev : Ascii.eqb (char_at buf (p - 1)) slash = false).
  { apply Ascii.eqb_neq, Hnearest. lia. }
  rewrite Hprev, andb_false_r. cbn [orb].
  destruct (decide (p - q - 1 = 1)%nat) as [Hone|Hone].
  - rewrite (proj2 (Nat.eqb_eq _ _) Hone) in Hpass. cbn [andb] in Hpass.
    destruct (Ascii.eqb (char_at buf (p - 1)) dot) eqn:Hdot; [done|].
    by rewrite !andb_false_r.
  - rewrite (proj2 (Nat.eqb_neq _ _) Hone) in Hpass. cbn [andb] in Hpass.
    assert (Hprev2 : Ascii.eqb (char_at buf (p - 2)) slash = false).
    { apply Ascii.eqb_neq, Hnearest. lia. }
    rewrite Hprev2, andb_false_r. cbn [orb].
    destruct (decide (p - q - 1 = 2)%nat) as [Htwo|Htwo].
    + rewrite (proj2 (Nat.eqb_eq _ _) Htwo) in Hpass. cbn [andb] in Hpass.
      destruct (Ascii.eqb (char_at buf (p - 1)) dot); [|by rewrite !andb_false_r].
      destruct (Ascii.eqb (char_at buf (p - 2)) dot);
        [|by rewrite !andb_false_r].
      cbn [andb] in Hpass.
      by destruct (if (0 <? q)%nat then find_prev_slash buf q else Some q).
    + destruct (3 <=? p)%nat eqn:Hthree; [|done].
      apply Nat.leb_le in Hthree.
      assert (Hprev3 : Ascii.eqb (char_at buf (p - 3)) slash = false).
      { apply Ascii.eqb_neq, Hnearest. lia. }
      by rewrite Hprev3, !andb_false_r.
Qed.

Lemma char_at_take_app (buf rest : list ascii) n i :
  (i < n <= List.length buf)%nat ->
  char_at (take n buf ++ rest) i = char_at buf i.
Proof.
  intros Hi. unfold char_at.
  rewrite lookup_app_l by (rewrite length_take; lia).
  by rewrite lookup_take_lt by lia.
Qed.

Lemma dot_segment_at_removed (buf rest : list ascii) n r :
  (r < n <= List.length buf)%nat ->
  dot_segment_at (take n buf ++ rest) r = dot_segment_at buf r.
Proof.
  intros Hr. unfold dot_segment_at.
  rewrite !char_at_take_app by lia. reflexivity.
Qed.

Lemma resolve_step_keeps_clean readlink followFinalSymlink s :
  (forall p, readlink p = None) ->
  walk_inside s ->
  clean_behind s ->
  match resolve_step readlink followFinalSymlink s with
  | Continue s' => clean_behind s'
  | Break s' =>
      clean_behind s' /\ pFullpath s' = List.length (fullpath s')
  | OutOfBounds => True
  end.
Proof.
  intros Hnone Hwalk Hclean.
  pose proof (collapse_removes s Hwalk) as Hremoves.
  pose proof Hwalk as (Hroot & Hp & Hbuf).
  unfold resolve_step.
  destruct (collapse (fullpath s) (pFullpath s)) as [[[buf' p']|]|] eqn:Hcollapse;
    [| |done].
  { destruct Hremoves as (Hp' & Hlen & ->). intros r Hr.
    cbn [fullpath pFullpath] in *.
    rewrite dot_segment_at_removed by lia. apply Hclean. lia. }
  cbn zeta.
  set (current := string_of_list_ascii (take (pFullpath s) (fullpath s))).
  assert (Hanswer : forall asked : bool,
            (if asked then readlink current else None) = None)
    by (intros []; [apply Hnone|done]).
  rewrite Hanswer.
  destruct (Ascii.eqb (char_at (fullpath s) (pFullpath s)) zero) eqn:Hch.
  - split; [exact Hclean|]. cbn [fullpath pFullpath].
    apply Ascii.eqb_eq in Hch.
    destruct (decide (pFullpath s < List.length (fullpath s))%nat) as [Hin|];
      [|lia].
    exfalso. apply lookup_lt_is_Some_2 in Hin as [c Hc].
    apply (Forall_lookup_1 _ _ _ _ Hbuf Hc).
    unfold char_at in Hch. by rewrite Hc in Hch.
  - intros r Hr. cbn [fullpath pFullpath] in *.
    destruct (decide (r = pFullpath s)) as [->|Hne].
    + by apply collapse_passes; [|lia|].
    + apply Hclean. lia.
Qed.

Lemma resolve_loop_keeps_clean readlink followFinalSymlink fuel : forall s s',
  (forall p, readlink p = None) ->
  walk_inside s ->
  clean_behind s ->
  resolve_loop fuel readlink followFinalSymlink s = Some (Break s') ->
  forall r, dot_segment_at (fullpath s') r = false.
Proof.
  induction fuel as [|fuel IH]; intros s s' Hnone Hwalk Hclean Hrun; [done|].
  cbn [resolve_loop] in Hrun.
  pose proof (resolve_step_no_links readlink followFinalSymlink s Hnone Hwalk)
    as Hstep.
  pose proof (resolve_step_keeps_clean readlink followFinalSymlink s Hnone
                Hwalk Hclean) as Hkeeps.
  destruct (resolve_step readlink followFinalSymlink s) as [s1|s1|];
    [| |done].
  - destruct Hstep as (Hwalk1 & _). by apply (IH s1 s').
  - simplify_eq. destruct Hkeeps as [Hclean' Hend]. intros r.
    destruct (decide (r < pFullpath s')%nat) as [Hr|Hr]; [by apply Hclean'|].
    unfold dot_segment_at, char_at at 1.
    rewrite lookup_ge_None_2 by lia. done.
Qed.

(** X22.  On a file system without links, what [resolve_path] returns
    for an absolute path holds no "//", no "/./" and no "/../": every
    empty, "." or ".." component that is followed by a '/' is gone. *)
Theorem resolve_path_collapses_dot_segments readlink path
    (followFinalSymlink : bool) fuel resolved effects :
  (forall p, readlink p = None) ->
  char_at (list_ascii_of_string path) 0 = slash ->
  free_of zero path ->
  resolve_path fuel readlink path followFinalSymlink
  = Some (resolved, effects) ->
  forall r, dot_segment_at (list_ascii_of_string resolved) r = false.
Proof.
  intros Hnone Hroot Hfree Hrun r. unfold resolve_path in Hrun.
  rewrite Hroot in Hrun.
  change (negb (Ascii.eqb slash slash)) with false in Hrun. cbv iota in Hrun.
  destruct (resolve_loop _ _ _ _) as [[s'|s'|]|] eqn:Hloop; try done.
  simplify_eq. rewrite list_ascii_of_string_of_list_ascii.
  apply (resolve_loop_keeps_clean _ _ _ _ _ Hnone) with (r := r) in Hloop;
    [done| |].
  - unfold walk_inside. cbn [fullpath pFullpath].
    rewrite length_list_ascii_of_string. split; [done|]. split.
    + destruct path; [done|cbn; lia].
    + apply Forall_forall. intros c Hc ->. by apply Hfree.
  - intros r' Hr. cbn [fullpath pFullpath] in *.
    assert (r' = 0)%nat as -> by lia.
    unfold dot_segment_at. cbn. by rewrite andb_false_r.
Qed.

Lemma resolve_path_collapses_dot_segments_witness :
  resolve_path 30 no_links "/a/./b//c/../d" true
  = Some ("/a/b/d", [asks_readlink "/a"; asks_readlink "/a/b";
                     asks_readlink "/a/b/c"; asks_readlink "/a/b/d"])
  /\ forall r, dot_segment_at (list_ascii_of_string "/a/b/d") r = false.
Proof.
  assert (Hrun : resolve_path 30 no_links "/a/./b//c/../d" true
                 = Some ("/a/b/d", [asks_readlink "/a"; asks_readlink "/a/b";
                                    asks_readlink "/a/b/c";
                                    asks_readlink "/a/b/d"]))
    by (vm_compute; reflexivity).
  split; [exact Hrun|].
  eapply (resolve_path_collapses_dot_segments no_links "/a/./b//c/../d" true
            30); [reflexivity|reflexivity| |exact Hrun].
  unfold free_of. cbn. intros Hin.
  repeat (apply elem_of_cons in Hin as [Hin|Hin]; [discriminate|]).
  by apply elem_of_nil in Hin.
Defined.

(** ** Enumerating a directory, continued *)

Lemma read_entries_flat currentDirectory entries : forall stack out,
  read_entries currentDirectory false entries stack out
  = (stack, out ++ omap (entry_path currentDirectory) entries).
Proof.
  induction entries as [|ent entries IH]; intros stack out; cbn [read_entries].
  - cbn. by rewrite app_nil_r.
  - change (omap (entry_path currentDirectory) (ent :: entries))
      with (match entry_path currentDirectory ent with
            | Some p => p :: omap (entry_path currentDirectory) entries
            | None => omap (entry_path currentDirectory) entries
            end).
    unfold entry_path at 1.
    destruct (String.eqb (d_name ent) "." || String.eqb (d_name ent) "..").
    + apply IH.
    + rewrite andb_false_r, IH, <- app_assoc. reflexivity.
Qed.

(** X23.  An enumeration that is not recursive opens the root and
    nothing else.  When the root opens, the result is [true] and the
    list holds the root followed by its entries, in the order [readdir]
    gave them, each as the root, a '/' and the name, with "." and ".."
    left out; when it does not open, the result is [false] and the list
    holds the root alone. *)
Theorem EnumerateDirectory_not_recursive real_opendir rootDirectory fuel :
  (2 <= fuel)%nat ->
  let run := EnumerateDirectory fuel real_opendir rootDirectory false in
  enumeration_result run
  = Some (match real_opendir rootDirectory with
          | Some entries =>
              (true, rootDirectory :: omap (entry_path rootDirectory) entries)
          | None => (false, [rootDirectory])
          end)
  /\ (opened <$> (snd <$> run)) = Some [rootDirectory].
Proof.
  intros Hfuel run. subst run.
  destruct fuel as [|[|fuel]]; [lia|lia|].
  unfold EnumerateDirectory. cbn [enumerate_loop directoriesToEnumerate].
  destruct (real_opendir rootDirectory) as [entries|]; [|done].
  cbn [filesAndDirectories opened]. rewrite read_entries_flat.
  cbn [enumerate_loop directoriesToEnumerate]. done.
Qed.

Lemma EnumerateDirectory_not_recursive_witness :
  enumeration_result (EnumerateDirectory 2 flat_tree "/src" false)
  = Some (true, ["/src"; "/src/a.c"; "/src/obj"; "/src/b.c"]).
Proof.
  apply (EnumerateDirectory_not_recursive flat_tree "/src" 2). lia.
Defined.

Lemma read_entries_spec currentDirectory recursive entries : forall stack out,
  let result := read_entries currentDirectory recursive entries stack out in
  result.2 = out ++ omap (entry_path currentDirectory) entries
  /\ forall p,
       p ∈ result.1 <->
       p ∈ stack
       \/ (recursive = true
           /\ exists ent, ent ∈ entries /\ d_type ent = DT_DIR
                          /\ entry_path currentDirectory ent = Some p).
Proof.
  induction entries as [|ent entries IH]; intros stack out result;
    subst result; cbn [read_entries].
  - cbn. rewrite app_nil_r. split; [done|]. intros p. split; [by left|].
    intros [Hp|(_ & ent & Hent & _)]; [done|]. by apply elem_of_nil in Hent.
  - change (omap (entry_path currentDirectory) (ent :: entries))
      with (match entry_path currentDirectory ent with
            | Some p => p :: omap (entry_path currentDirectory) entries
            | None => omap (entry_path currentDirectory) entries
            end).
    unfold entry_path at 1 3.
    destruct (String.eqb (d_name ent) "." || String.eqb (d_name ent) "..")
      eqn:Hdots.
    + destruct (IH stack out) as [Hout Hstack]. split; [exact Hout|].
      intros p. rewrite Hstack. split.
      * intros [Hp|(Hrec & ent' & Hent' & Hdir & Hpath)]; [by left|].
        right. split; [done|]. exists ent'. split; [|done].
        apply elem_of_cons. by right.
      * intros [Hp|(Hrec & ent' & Hent' & Hdir & Hpath)]; [by left|].
        right. split; [done|]. exists ent'. split; [|done].
        apply elem_of_cons in Hent' as [->|Hent']; [|done].
        unfold entry_path in Hpath. by rewrite Hdots in Hpath.
    + set (fullPath := currentDirectory +:+ "/" +:+ d_name ent).
      set (stack' := if (d_type ent =? DT_DIR) && recursive
                     then fullPath :: stack else stack).
      destruct (IH stack' (out ++ [fullPath])) as [Hout Hstack].
      split; [by rewrite Hout, <- app_assoc|].
      assert (Hpath : entry_path currentDirectory ent = Some fullPath).
      { unfold entry_path. by rewrite Hdots. }
      intros p. rewrite Hstack. subst stack'. split.
      * intros [Hp|(Hrec & ent' & Hent' & Hdir & Hpath')].
        -- destruct ((d_type ent =? DT_DIR) && recursive) eqn:Hpush;
             [|by left].
           apply elem_of_cons in Hp as [->|Hp]; [|by left].
           apply andb_true_iff in Hpush as [Hdir Hrec].
           right. split; [done|]. exists ent.
           split; [apply elem_of_cons; by left|]. split; [lia|done].
        -- right. split; [done|]. exists ent'. split; [|done].
           apply elem_of_cons. by right.
      * intros [Hp|(Hrec & ent' & Hent' & Hdir & Hpath')].
        -- left. destruct ((d_type ent =? DT_DIR) && recursive); [|done].
           apply elem_of_cons. by right.
        -- apply elem_of_cons in Hent' as [->|Hent'].
           ++ left. rewrite Hrec, andb_true_r.
              rewrite (proj2 (Z.eqb_eq _ _) Hdir).
              apply elem_of_cons. left. congruence.
           ++ right. split; [done|]. by exists ent'.
Qed.

Lemma lists_entry real_opendir d entries p :
  real_opendir d = Some entries ->
  lists real_opendir false d p <-> p ∈ omap (entry_path d) entries.
Proof.
  intros Hopen. rewrite list_elem_of_omap. unfold lists. split.
  - intros (entries' & ent & Hopen' & Hent & Hpath & _).
    exists ent. split; [congruence|done].
  - intros (ent & Hent & Hpath). by exists entries, ent.
Qed.

Lemma lists_any real_opendir only_dirs d p :
  lists real_opendir only_dirs d p -> lists real_opendir false d p.
Proof.
  intros (entries & ent & Hopen & Hent & Hpath & _). by exists entries, ent.
Qed.

(** A turn of the outer loop on a directory that opens keeps the
    enumeration sound. *)
Lemma enumeration_sound_step real_opendir rootDirectory recursive
    currentDirectory rest out dirs entries :
  enumeration_sound real_opendir rootDirectory recursive
    {| directoriesToEnumerate := currentDirectory :: rest;
       filesAndDirectories := out; opened := dirs |} ->
  real_opendir currentDirectory = Some entries ->
  enumeration_sound real_opendir rootDirectory recursive
    {| directoriesToEnumerate :=
         (read_entries currentDirectory recursive entries rest out).1;
       filesAndDirectories :=
         (read_entries currentDirectory recursive entries rest out).2;
       opened := dirs ++ [currentDirectory] |}.
Proof.
  intros (Hlisted & Hall & Hdirs & Horigin & Hroot & Hrootdir & Hopened) Hopen.
  destruct (read_entries_spec currentDirectory recursive entries rest out)
    as [Hout Hstack].
  cbn zeta in Hout, Hstack. unfold enumeration_sound.
  cbn [directoriesToEnumerate filesAndDirectories opened] in *.
  rewrite Hout. clear Hout.
  repeat split.
  - intros p Hp. apply elem_of_app in Hp as [Hp|Hp].
    + destruct (Hlisted p Hp) as [->|(d & Hd & Hlists)]; [by left|].
      right. exists d. split; [|done]. apply elem_of_app. by left.
    + right. exists currentDirectory. split.
      * apply elem_of_app. right. by apply list_elem_of_singleton.
      * by apply (lists_entry _ _ entries).
  - intros d p Hd Hlists. apply elem_of_app.
    apply elem_of_app in Hd as [Hd|Hd].
    + left. by apply (Hall d).
    + apply list_elem_of_singleton in Hd as ->.
      right. by apply (lists_entry real_opendir currentDirectory entries).
  - intros d p Hrec Hd Hlists. rewrite Hstack, elem_of_app, list_elem_of_singleton.
    apply elem_of_app in Hd as [Hd|Hd].
    + destruct (Hdirs d p Hrec Hd Hlists) as [Hp|Hp]; [by left; left|].
      apply elem_of_cons in Hp as [->|Hp]; [by left; right|by right; left].
    + apply list_elem_of_singleton in Hd as ->.
      destruct Hlists as (entries' & ent & Hopen' & Hent & Hpath & Hdir).
      right. right. split; [done|]. exists ent.
      split; [congruence|]. split; [by apply Hdir|done].
  - intros d Hd. rewrite elem_of_app, list_elem_of_singleton, Hstack in Hd.
    assert (Hold : d ∈ dirs \/ d ∈ currentDirectory :: rest ->
              d = rootDirectory
              \/ recursive = true
                 /\ exists d', d' ∈ dirs ++ [currentDirectory]
                               /\ lists real_opendir true d' d).
    { intros Hd'. destruct (Horigin d Hd') as [->|(Hrec & d' & Hd'' & Hlists)];
        [by left|].
      right. split; [done|]. exists d'. split; [|done].
      apply elem_of_app. by left. }
    destruct Hd as [[Hd| ->]|[Hd|(Hrec & ent & Hent & Hdir & Hpath)]].
    + apply Hold. by left.
    + apply Hold. right. apply elem_of_cons. by left.
    + apply Hold. right. apply elem_of_cons. by right.
    + right. split; [done|]. exists currentDirectory. split.
      * apply elem_of_app. right. by apply list_elem_of_singleton.
      * by exists entries, ent.
  - apply elem_of_app. by left.
  - rewrite elem_of_app, list_elem_of_singleton, Hstack.
    destruct Hrootdir as [Hr|Hr]; [by left; left|].
    apply elem_of_cons in Hr as [->|Hr]; [by left; right|by right; left].
  - intros d Hd. apply elem_of_app in Hd as [Hd|Hd]; [by apply Hopened|].
    apply list_elem_of_singleton in Hd as ->. by rewrite Hopen.
Qed.

Lemma enumerate_loop_sound real_opendir rootDirectory recursive fuel :
  forall s s',
  enumeration_sound real_opendir rootDirectory recursive s ->
  enumerate_loop fuel real_opendir recursive s = Some (true, s') ->
  enumeration_sound real_opendir rootDirectory recursive s'
  /\ directoriesToEnumerate s' = [].
Proof.
  induction fuel as [|fuel IH]; intros s s' Hsound Hrun; [done|].
  cbn [enumerate_loop] in Hrun. destruct s as [stack out dirs].
  cbn [directoriesToEnumerate filesAndDirectories opened] in Hrun.
  destruct stack as [|currentDirectory rest]; [by simplify_eq|].
  destruct (real_opendir currentDirectory) as [entries|] eqn:Hopen; [|done].
  pose proof (enumeration_sound_step _ _ _ _ _ _ _ _ Hsound Hopen) as Hstep.
  destruct (read_entries currentDirectory recursive entries rest out)
    as [stack' out'].
  by apply (IH _ s' Hstep).
Qed.

(** X24.  What a successful enumeration lists.  When
    [EnumerateDirectory] returns [true], every directory it opened did
    open; the directories opened are the root and, if the enumeration is
    recursive, the entries of type [DT_DIR] of the directories opened;
    and the paths listed are the root and the entries of the directories
    opened, "." and ".." never among them. *)
Theorem EnumerateDirectory_lists_closure real_opendir rootDirectory recursive
    fuel s :
  EnumerateDirectory fuel real_opendir rootDirectory recursive
  = Some (true, s) ->
  (forall d, d ∈ opened s -> real_opendir d <> None)
  /\ (forall d, d ∈ opened s <->
        d = rootDirectory
        \/ (recursive = true
            /\ exists d', d' ∈ opened s /\ lists real_opendir true d' d))
  /\ (forall p, p ∈ filesAndDirectories s <->
        p = rootDirectory
        \/ exists d, d ∈ opened s /\ lists real_opendir false d p).
Proof.
  unfold EnumerateDirectory. intros Hrun.
  apply (enumerate_loop_sound real_opendir rootDirectory) in Hrun
    as ((Hlisted & Hall & Hdirs & Horigin & Hroot & Hrootdir & Hopened) & Hdone).
  - rewrite Hdone in *. split; [exact Hopened|]. split.
    + intros d. split.
      * intros Hd. apply Horigin. by left.
      * intros [->|(Hrec & d' & Hd' & Hlists)].
        -- destruct Hrootdir as [Hr|Hr]; [done|by apply elem_of_nil in Hr].
        -- destruct (Hdirs d' d Hrec Hd' Hlists) as [Hd|Hd];
             [done|by apply elem_of_nil in Hd].
    + intros p. split; [apply Hlisted|].
      intros [->|(d & Hd & Hlists)]; [done|by apply (Hall d)].
  - unfold enumeration_sound.
    cbn [directoriesToEnumerate filesAndDirectories opened].
    repeat split.
    + intros p Hp. left. by apply list_elem_of_singleton in Hp.
    + intros d p Hd. by apply elem_of_nil in Hd.
    + intros d p _ Hd. by apply elem_of_nil in Hd.
    + intros d [Hd|Hd]; [by apply elem_of_nil in Hd|].
      left. by apply list_elem_of_singleton in Hd.
    + by apply list_elem_of_singleton.
    + right. by apply list_elem_of_singleton.
    + intros d Hd. by apply elem_of_nil in Hd.
Qed.

Lemma EnumerateDirectory_lists_closure_witness :
  enumeration_result (EnumerateDirectory 5 flat_tree "/src" true)
  = Some (true, ["/src"; "/src/a.c"; "/src/obj"; "/src/b.c"; "/src/obj/a.o"])
  /\ forall d,
       d ∈ ["/src"; "/src/obj"] -> flat_tree d <> None.
Proof.
  split; [reflexivity|].
  exact (proj1 (EnumerateDirectory_lists_closure flat_tree "/src" true 5
                  {| directoriesToEnumerate := [];
                     filesAndDirectories :=
                       ["/src"; "/src/a.c"; "/src/obj"; "/src/b.c";
                        "/src/obj/a.o"];
                     opened := ["/src"; "/src/obj"] |} eq_refl)).
Defined.

(** ** The duplicate cache under contention *)

(** X25.  When the mutex of the cache cannot be taken in time, the
    cache is neither read nor written and the access is checked: whatever
    the cache holds, [create_access] (no anonymous file, sandbox enabled
    for the process) asks the policy engine, returns its answer and
    leaves the cache as it was. *)
Theorem create_access_rechecks_when_mutex_busy w o syscallName event
    reportGroup (checkCache : bool) :
  let run := create_access w syscallName event reportGroup checkCache o in
  (forall attempt, try_lock_for w attempt = false) ->
  is_anonymous_file (ev_srcPath event) = false ->
  is_anonymous_file (ev_dstPath event) = false ->
  IsEnabled w (if ev_pid event =? 0 then getpid w else ev_pid event) = true ->
  run.1 = Returns (CheckAccessAndBuildReport w event reportGroup)
  /\ effects run.2 = effects o ++ [eff_policy event]
  /\ cache_ run.2 = cache_ o.
Proof.
  intros run Hbusy Hsrc Hdst Henabled.
  assert (Hmiss : exists o1,
    (if checkCache
     then IsCacheHit w (ev_eventType event) (ev_srcPath event)
            (ev_dstPath event)
     else mret false) o = (Returns false, o1)
    /\ effects o1 = effects o /\ cache_ o1 = cache_ o).
  { destruct checkCache; [|by exists o]. unfold IsCacheHit.
    rewrite bind_eq. unfold get.
    destruct (_ || _); [by exists o|].
    rewrite CheckCache_timeout by apply Hbusy. by eexists. }
  destruct Hmiss as (o1 & Hmiss & Heff1 & Hcache1).
  subst run. unfold create_access. rewrite bind_eq, Hmiss.
  rewrite Hsrc, Hdst, andb_false_r. cbn [orb]. cbn zeta.
  rewrite Henabled. unfold_monad. cbn beta iota.
  destruct (CheckAccessAndBuildReport w event reportGroup) as [result group].
  destruct (negb _); cbn beta iota.
  - rewrite CheckCache_timeout by apply Hbusy. cbn.
    by rewrite Heff1, Hcache1.
  - cbn. by rewrite Heff1, Hcache1.
Qed.

Lemma create_access_rechecks_when_mutex_busy_witness :
  (forall attempt, try_lock_for contended_world attempt = false)
  /\ (create_access contended_world "open" (open_event "/out/a.o") no_reports
        true warm_observer).1
     = Returns (allowed, no_reports).
Proof.
  assert (Hbusy : forall attempt, try_lock_for contended_world attempt = false)
    by (intros attempt; reflexivity).
  split; [exact Hbusy|].
  apply (create_access_rechecks_when_mutex_busy contended_world warm_observer
           "open" (open_event "/out/a.o") no_reports true Hbusy);
    reflexivity.
Defined.

(** ** An access through a descriptor *)

Lemma create_access_internal_records w o syscallName eventType reportPath
    reportGroup mode associatedPid :
  let run :=
    create_access_internal w syscallName eventType reportPath None reportGroup
      mode true associatedPid o in
  (forall attempt, try_lock_for w attempt = true) ->
  disposed_ o = false ->
  eventType <> ES_EVENT_TYPE_NOTIFY_FORK ->
  eventType <> ES_EVENT_TYPE_NOTIFY_EXEC ->
  eventType <> ES_EVENT_TYPE_NOTIFY_EXIT ->
  is_anonymous_file reportPath = false ->
  is_non_file (if mode =? 0 then get_mode w reportPath else mode) = false ->
  IsEnabled w (if associatedPid =? 0 then getpid w else associatedPid) = true ->
  IsFailingUnexpectedAccesses w = false ->
  recorded (coalesce eventType) reportPath (cache_ run.2)
  /\ disposed_ run.2 = false
  /\ fdTable_ run.2 = fdTable_ o
  /\ useFdTable_ run.2 = useFdTable_ o.
Proof.
  intros run Hlock Hd Hfork Hexec Hexit Hanon Hfile Henabled Hfailing.
  subst run. unfold create_access_internal. cbn [default from_option id].
  rewrite bind_eq, IsCacheHit_cacheable by done.
  rewrite CheckCache_locked by done. cbn [fst snd].
  set (o1 := set_cache_ _ _).
  assert (Ho1 : cache_ o1 = cache_ o).
  { subst o1. cbn. unfold cache_probe. by destruct (cache_ o !! _). }
  destruct (cache_probe _ _ false (cache_ o)).1 eqn:Hhit.
  - apply cache_probe_answer in Hhit. unfold mret, M_ret, ret. cbn [snd].
    by rewrite Ho1.
  - rewrite Hfile, bind_eq. unfold get.
    match goal with
    | |- context [create_access w syscallName ?event reportGroup false o1] =>
        destruct (create_access_records w o1 syscallName event reportGroup false)
          as (Hrec & Hd' & Htable & Huse)
    end; try done.
    + cbn [ev_pid].
      destruct (associatedPid =? 0) eqn:Hpid.
      * by destruct (getpid w =? 0).
      * by rewrite Hpid.
    + by rewrite Hfailing, andb_false_r.
Qed.

Lemma create_access_internal_hit w o syscallName eventType reportPath
    reportGroup mode associatedPid :
  let run :=
    create_access_internal w syscallName eventType reportPath None reportGroup
      mode true associatedPid o in
  (forall attempt, try_lock_for w attempt = true) ->
  disposed_ o = false ->
  eventType <> ES_EVENT_TYPE_NOTIFY_FORK ->
  eventType <> ES_EVENT_TYPE_NOTIFY_EXEC ->
  eventType <> ES_EVENT_TYPE_NOTIFY_EXIT ->
  recorded (coalesce eventType) reportPath (cache_ o) ->
  run.1 = Returns (sNotChecked w, reportGroup)
  /\ effects run.2 = effects o
  /\ cache_ run.2 = cache_ o
  /\ fdTable_ run.2 = fdTable_ o.
Proof.
  intros run Hlock Hd Hfork Hexec Hexit Hrec.
  subst run. unfold create_access_internal. cbn [default from_option id].
  rewrite bind_eq, IsCacheHit_cacheable by done.
  rewrite CheckCache_locked by done.
  rewrite cache_probe_hit by done. cbn. split; [done|]. split; [done|].
  split; [|done].
  unfold cache_probe. by destruct (cache_ o !! _).
Qed.

(** X26.  A second access through the same descriptor costs neither a
    [readlink] nor a question to the policy engine.  Take a descriptor
    inside the table that is a file and resolves to a path, an event
    kind that can be cached, the mutex free, the sandbox enabled and not
    failing denied accesses.  After one [create_access_fd], a second one
    for that descriptor returns the sentinel and leaves the effects, the
    cache and the table as they were. *)
Theorem create_access_fd_suppresses_repeat w get_mode_fd o o1 syscallName
    eventType fd report report' associatedPid path :
  let first :=
    create_access_fd w get_mode_fd syscallName eventType fd report
      associatedPid o in
  let second :=
    create_access_fd w get_mode_fd syscallName eventType fd report'
      associatedPid first.2 in
  (forall attempt, try_lock_for w attempt = true) ->
  disposed_ o = false ->
  useFdTable_ o = true ->
  fd_table_sized w o ->
  0 <= fd < MAX_FD w ->
  eventType <> ES_EVENT_TYPE_NOTIFY_FORK ->
  eventType <> ES_EVENT_TYPE_NOTIFY_EXEC ->
  eventType <> ES_EVENT_TYPE_NOTIFY_EXIT ->
  get_mode_fd fd <> 0 ->
  is_non_file (get_mode_fd fd) = false ->
  fd_to_path w fd associatedPid o = (Returns path, o1) ->
  path <> "" ->
  is_anonymous_file path = false ->
  IsEnabled w (if associatedPid =? 0 then getpid w else associatedPid) = true ->
  IsFailingUnexpectedAccesses w = false ->
  second.1 = Returns (sNotChecked w, report')
  /\ effects second.2 = effects first.2
  /\ cache_ second.2 = cache_ first.2
  /\ fdTable_ second.2 = fdTable_ first.2.
Proof.
  intros first second Hlock Hd Huse Hsized Hfd Hfork Hexec Hexit Hmode Hfile
    Hresolved Hpath Hanon Henabled Hfailing.
  destruct (fd_to_path_remembers w o fd associatedPid path o1)
    as (Hentry & Huse1 & Hcache1 & Hd1 & _); try done.
  assert (Hlen : (0 <? strlen path) = true).
  { destruct path as [|c rest]; [done|]. unfold strlen.
    change (String.length (String c rest)) with (S (String.length rest)).
    apply Z.ltb_lt. lia. }
  assert (Hmode' : (get_mode_fd fd =? 0) = false) by lia.
  assert (Hfirst : first
            = create_access_internal w syscallName eventType path None report
                (get_mode_fd fd) true associatedPid o1).
  { subst first. unfold create_access_fd.
    by rewrite Hfile, bind_eq, Hresolved, Hlen. }
  destruct (create_access_internal_records w o1 syscallName eventType path
              report (get_mode_fd fd) associatedPid)
    as (Hrec & Hd2 & Htable & Huse2); try done; try congruence.
  { by rewrite Hmode'. }
  rewrite <- Hfirst in Hrec, Hd2, Htable, Huse2.
  assert (Hsecond : second
            = create_access_internal w syscallName eventType path None report'
                (get_mode_fd fd) true associatedPid first.2).
  { subst second. unfold create_access_fd.
    rewrite Hfile, bind_eq.
    rewrite (fd_to_path_from_table w first.2 fd associatedPid path);
      [by rewrite Hlen|done|congruence|congruence|done]. }
  rewrite Hsecond.
  by apply create_access_internal_hit.
Qed.

Lemma create_access_fd_suppresses_repeat_witness :
  (forall attempt, try_lock_for fd5_world attempt = true)
  /\ (create_access_fd fd5_world (fun _ => S_IFREG) "fstat"
        ES_EVENT_TYPE_NOTIFY_OPEN 5 no_reports 0
        (create_access_fd fd5_world (fun _ => S_IFREG) "fstat"
           ES_EVENT_TYPE_NOTIFY_OPEN 5 no_reports 0
           (fresh_observer false [])).2).1
     = Returns (sNotChecked fd5_world, no_reports).
Proof.
  assert (Hlock : forall attempt, try_lock_for fd5_world attempt = true)
    by (intros attempt; reflexivity).
  assert (Hfd : 0 <= 5 < MAX_FD fd5_world)
    by (change (MAX_FD fd5_world) with 1024; lia).
  assert (Hsized : fd_table_sized fd5_world (fresh_observer false []))
    by reflexivity.
  split; [exact Hlock|].
  apply (create_access_fd_suppresses_repeat fd5_world (fun _ => S_IFREG)
           (fresh_observer false [])
           (fd_to_path fd5_world 5 0 (fresh_observer false [])).2
           "fstat" ES_EVENT_TYPE_NOTIFY_OPEN 5 no_reports no_reports 0
           "/src/a.c" Hlock eq_refl eq_refl Hsized Hfd);
    first [reflexivity | discriminate].
Defined.
